(** * Semantic compressor (scripts/semantic-compressor.py): model and properties

    The development embeds the compression engine of [SemanticCompressor]:
    the Python string methods and the part of the [re] module the engine
    relies on, the six strategies, the strategy selector, the sequential
    pipeline of [compress_content] and its result cache.

    Conventions.
    - A Python [str] is a [string]; a character is a code point below 256
      (Rocq's [ascii] read as Latin-1), classified as CPython classifies it.
    - A Python [float] is an exact rational ([Q]); a decimal literal of the
      source denotes itself.
    - [hashlib.md5], the formatting of a float inside an f-string and the
      wall clock are not part of the script: they are section variables. *)

From Stdlib Require Import String Ascii NArith ZArith QArith Qminmax Lia Lqa List Bool.
From stdpp Require Import gmap strings.
Import ListNotations.
Open Scope string_scope.
Open Scope list_scope.
Open Scope nat_scope.

(** ** Characters *)

Module Chr.

Definition code (c : ascii) : N := N_of_ascii c.

Definition between (lo hi : N) (c : ascii) : bool :=
  (N.leb lo (code c) && N.leb (code c) hi)%bool.

Definition LF : ascii := ascii_of_N 10.
Definition CR : ascii := ascii_of_N 13.
Definition TAB : ascii := ascii_of_N 9.
Definition VT : ascii := ascii_of_N 11.
Definition FF : ascii := ascii_of_N 12.
Definition SP : ascii := ascii_of_N 32.

(** [str.isspace] on one character, also the class [\s] of [re] for [str]
    patterns: U+0009..U+000D, U+001C..U+0020, U+0085 and U+00A0. *)
Definition isspace (c : ascii) : bool :=
  (between 9 13 c || between 28 32 c || N.eqb (code c) 133 || N.eqb (code c) 160)%bool.

Definition isdigit (c : ascii) : bool := between 48 57 c.
Definition isupper_ascii (c : ascii) : bool := between 65 90 c.
Definition islower_ascii (c : ascii) : bool := between 97 122 c.

(** [str.isalnum] on one character: letters, decimal digits, and the digit
    and numeric characters of Latin-1 (superscripts and vulgar fractions). *)
Definition isalnum (c : ascii) : bool :=
  (isdigit c || isupper_ascii c || islower_ascii c
   || N.eqb (code c) 170 || N.eqb (code c) 178 || N.eqb (code c) 179
   || N.eqb (code c) 181 || N.eqb (code c) 185 || N.eqb (code c) 186
   || between 188 190 c || between 192 214 c || between 216 246 c
   || between 248 255 c)%bool.

(** The class [\w] of [re]: alphanumeric or underscore. *)
Definition isword (c : ascii) : bool := (isalnum c || N.eqb (code c) 95)%bool.

(** [str.lower] on one character. *)
Definition lower (c : ascii) : ascii :=
  if (isupper_ascii c || (between 192 222 c && negb (N.eqb (code c) 215)))%bool
  then ascii_of_N (code c + 32) else c.

Definition eqb (a b : ascii) : bool := Ascii.eqb a b.

End Chr.

Arguments Chr.eqb : simpl never.
Arguments Chr.isspace : simpl never.
Arguments Chr.isword : simpl never.
Arguments Chr.lower : simpl never.

(** ** Python string methods *)

Module Str.

Definition nl : string := String Chr.LF EmptyString.

Fixpoint lower (s : string) : string :=
  match s with
  | EmptyString => EmptyString
  | String c s' => String (Chr.lower c) (lower s')
  end.

(** [s.lstrip()] *)
Fixpoint lstrip (s : string) : string :=
  match s with
  | EmptyString => EmptyString
  | String c s' => if Chr.isspace c then lstrip s' else s
  end.

(** [s.rstrip()] *)
Fixpoint rstrip (s : string) : string :=
  match s with
  | EmptyString => EmptyString
  | String c s' =>
      match rstrip s' with
      | EmptyString => if Chr.isspace c then EmptyString else String c EmptyString
      | r => String c r
      end
  end.

(** [s.strip()] *)
Definition strip (s : string) : string := rstrip (lstrip s).

(** [s.split(sep)] for a one-character separator. *)
Fixpoint split_chr (sep : ascii) (s : string) : list string :=
  match s with
  | EmptyString => [EmptyString]
  | String c s' =>
      if Chr.eqb c sep then EmptyString :: split_chr sep s'
      else match split_chr sep s' with
           | [] => [String c EmptyString]
           | w :: ws => String c w :: ws
           end
  end.

(** [sep.join(parts)] *)
Fixpoint join (sep : string) (parts : list string) : string :=
  match parts with
  | [] => EmptyString
  | [p] => p
  | p :: ps => p +:+ sep +:+ join sep ps
  end.

(** [s.startswith(p)] *)
Fixpoint startswith (p s : string) : bool :=
  match p, s with
  | EmptyString, _ => true
  | String a p', String b s' => (Chr.eqb a b && startswith p' s')%bool
  | String _ _, EmptyString => false
  end.

(** [s[n:]] *)
Fixpoint drop (n : nat) (s : string) : string :=
  match n, s with
  | O, _ => s
  | S n', String _ s' => drop n' s'
  | S _, EmptyString => EmptyString
  end.

(** [s[:n]] *)
Fixpoint take (n : nat) (s : string) : string :=
  match n, s with
  | O, _ => EmptyString
  | S n', String c s' => String c (take n' s')
  | S _, EmptyString => EmptyString
  end.

(** [s.replace(old, new, 1)]: the first occurrence only. *)
Fixpoint replace_first (old new s : string) : string :=
  if startswith old s then new +:+ drop (String.length old) s
  else match s with
       | EmptyString => EmptyString
       | String c s' => String c (replace_first old new s')
       end.

(** [s.replace(old, new)] for a non-empty [old]: every occurrence, scanning
    from the left without overlap.  For an empty [old] the string is left
    as it is (the engine never calls it so). *)
Fixpoint replace_all_fuel (fuel : nat) (old new s : string) : string :=
  match fuel with
  | O => s
  | S f =>
      match s with
      | EmptyString => EmptyString
      | String c s' =>
          if startswith old s
          then new +:+ replace_all_fuel f old new (drop (String.length old) s)
          else String c (replace_all_fuel f old new s')
      end
  end.

Definition replace_all (old new s : string) : string :=
  match old with
  | EmptyString => s
  | _ => replace_all_fuel (String.length s) old new s
  end.

(** [str(n)] for a non-negative integer. *)
Fixpoint of_nat_fuel (fuel n : nat) (acc : string) : string :=
  match fuel with
  | O => acc
  | S f =>
      let d := ascii_of_nat (48 + n mod 10) in
      if Nat.ltb n 10 then String d acc else of_nat_fuel f (n / 10) (String d acc)
  end.

Definition of_nat (n : nat) : string := of_nat_fuel (S n) n EmptyString.

(** [' ' * n] *)
Fixpoint spaces (n : nat) : string :=
  match n with
  | O => EmptyString
  | S n' => String Chr.SP (spaces n')
  end.

End Str.

(** ** The part of Python's [re] module the engine uses

    Patterns are kept as the source writes them (the text of the raw string
    literals) and compiled by [Re.compile].  Matching is the backtracking
    search of CPython's engine: alternatives are tried from the left, a
    greedy repetition tries one more iteration before it lets the rest of
    the pattern go on, a lazy one does the opposite, and the first success
    is the match. *)

Module Re.

(** One item of a bracketed class, also used for the escapes [\s], [\w]. *)
Inductive citem : Type :=
  | CChar (c : ascii)
  | CRange (lo hi : ascii)
  | CSpace (positive : bool)
  | CWord (positive : bool)
  | CDigit (positive : bool).

Inductive regex : Type :=
  | REmpty
  | RNever
  | RLit (c : ascii)
  | RAny
  | RSet (negated : bool) (items : list citem)
  | RSeq (r1 r2 : regex)
  | RAlt (r1 r2 : regex)
  | RRepeat (greedy : bool) (lo : nat) (hi : option nat) (r : regex)
  | RGroup (idx : nat) (r : regex)
  | RBackref (idx : nat)
  | RLookahead (r : regex)
  | RWordBoundary
  | REndZ.

Record flags : Type := { IGNORECASE : bool; DOTALL : bool }.

Definition no_flags : flags := {| IGNORECASE := false; DOTALL := false |}.
Definition ignorecase : flags := {| IGNORECASE := true; DOTALL := false |}.
Definition dotall : flags := {| IGNORECASE := false; DOTALL := true |}.

(** *** Compilation of a pattern string *)

Definition next_is (c : ascii) (s : string) : bool :=
  match s with
  | String d _ => Chr.eqb c d
  | EmptyString => false
  end.

Definition digit_val (c : ascii) : nat := nat_of_ascii c - 48.

Fixpoint parse_nat (s : string) (acc : nat) : nat * string :=
  match s with
  | String c s' => if Chr.isdigit c then parse_nat s' (10 * acc + digit_val c) else (acc, s)
  | EmptyString => (acc, s)
  end.

(** An escape shared by classes and atoms: the control characters and the
    character classes; any other escaped character stands for itself. *)
Definition escape_item (c : ascii) : citem :=
  if Chr.eqb c "n" then CChar Chr.LF
  else if Chr.eqb c "r" then CChar Chr.CR
  else if Chr.eqb c "t" then CChar Chr.TAB
  else if Chr.eqb c "f" then CChar Chr.FF
  else if Chr.eqb c "v" then CChar Chr.VT
  else if Chr.eqb c "s" then CSpace true
  else if Chr.eqb c "S" then CSpace false
  else if Chr.eqb c "w" then CWord true
  else if Chr.eqb c "W" then CWord false
  else if Chr.eqb c "d" then CDigit true
  else if Chr.eqb c "D" then CDigit false
  else CChar c.

Definition item_regex (i : citem) : regex :=
  match i with
  | CChar c => RLit c
  | _ => RSet false [i]
  end.

(** The items of a bracketed class, after the opening bracket and the
    optional caret, up to the closing bracket. *)
Fixpoint parse_items (fuel : nat) (s : string) : option (list citem * string) :=
  match fuel with
  | O => None
  | S f =>
      match s with
      | EmptyString => None
      | String c s1 =>
          if Chr.eqb c "]" then Some ([], s1)
          else if Chr.eqb c "\" then
            match s1 with
            | String e s2 =>
                match parse_items f s2 with
                | Some (items, rest) => Some (escape_item e :: items, rest)
                | None => None
                end
            | EmptyString => None
            end
          else
            match s1 with
            | String d (String h s2) =>
                if (Chr.eqb d "-" && negb (Chr.eqb h "]"))%bool then
                  match parse_items f s2 with
                  | Some (items, rest) => Some (CRange c h :: items, rest)
                  | None => None
                  end
                else
                  match parse_items f s1 with
                  | Some (items, rest) => Some (CChar c :: items, rest)
                  | None => None
                  end
            | _ =>
                match parse_items f s1 with
                | Some (items, rest) => Some (CChar c :: items, rest)
                | None => None
                end
            end
      end
  end.

(** The quantifier that may follow an atom: [*], [+], [?], [{m,}], [{m,n}],
    [{m}], each lazy when a question mark follows. *)
Definition parse_bounds (s : string) : option (nat * option nat * string) :=
  match s with
  | String c s1 =>
      if Chr.eqb c "*" then Some (0, None, s1)
      else if Chr.eqb c "+" then Some (1, None, s1)
      else if Chr.eqb c "?" then Some (0, Some 1, s1)
      else if (Chr.eqb c "{" && Chr.isdigit (match s1 with String d _ => d | _ => "x"%char end))%bool then
        let '(lo, s2) := parse_nat s1 0 in
        match s2 with
        | String d s3 =>
            if Chr.eqb d "}" then Some (lo, Some lo, s3)
            else if Chr.eqb d "," then
              match s3 with
              | String e s4 =>
                  if Chr.eqb e "}" then Some (lo, None, s4)
                  else let '(hi, s5) := parse_nat s3 0 in
                       match s5 with
                       | String g s6 => if (Chr.eqb g "}" && Chr.isdigit e)%bool then Some (lo, Some hi, s6) else None
                       | EmptyString => None
                       end
              | EmptyString => None
              end
            else None
        | EmptyString => None
        end
      else None
  | EmptyString => None
  end.

Definition parse_quant (a : regex) (s : string) : regex * string :=
  match parse_bounds s with
  | Some (lo, hi, s1) =>
      match s1 with
      | String c s2 => if Chr.eqb c "?" then (RRepeat false lo hi a, s2) else (RRepeat true lo hi a, s1)
      | EmptyString => (RRepeat true lo hi a, s1)
      end
  | None => (a, s)
  end.

(** [g] is the number of capturing groups opened so far: groups are
    numbered by their opening parenthesis, from 1. *)
Fixpoint parse_alt (fuel : nat) (s : string) (g : nat) : option (regex * string * nat) :=
  match fuel with
  | O => None
  | S f =>
      match parse_seq f s g with
      | Some (r1, s1, g1) =>
          match s1 with
          | String c s2 =>
              if Chr.eqb c "|" then
                match parse_alt f s2 g1 with
                | Some (r2, s3, g2) => Some (RAlt r1 r2, s3, g2)
                | None => None
                end
              else Some (r1, s1, g1)
          | EmptyString => Some (r1, s1, g1)
          end
      | None => None
      end
  end
with parse_seq (fuel : nat) (s : string) (g : nat) : option (regex * string * nat) :=
  match fuel with
  | O => None
  | S f =>
      match s with
      | EmptyString => Some (REmpty, s, g)
      | String c _ =>
          if (Chr.eqb c "|" || Chr.eqb c ")")%bool then Some (REmpty, s, g)
          else
            match parse_atom f s g with
            | Some (a, s1, g1) =>
                let '(q, s2) := parse_quant a s1 in
                match parse_seq f s2 g1 with
                | Some (REmpty, s3, g2) => Some (q, s3, g2)
                | Some (r, s3, g2) => Some (RSeq q r, s3, g2)
                | None => None
                end
            | None => None
            end
      end
  end
with parse_atom (fuel : nat) (s : string) (g : nat) : option (regex * string * nat) :=
  match fuel with
  | O => None
  | S f =>
      match s with
      | EmptyString => None
      | String c s1 =>
          if Chr.eqb c "(" then
            if next_is "?" s1 then
              match s1 with
              | String _ (String k s2) =>
                  if (Chr.eqb k ":" || Chr.eqb k "=")%bool then
                    match parse_alt f s2 g with
                    | Some (r, String e s3, g1) =>
                        if Chr.eqb e ")"
                        then Some (if Chr.eqb k ":" then r else RLookahead r, s3, g1)
                        else None
                    | _ => None
                    end
                  else None
              | _ => None
              end
            else
              match parse_alt f s1 (S g) with
              | Some (r, String e s3, g1) =>
                  if Chr.eqb e ")" then Some (RGroup (S g) r, s3, g1) else None
              | _ => None
              end
          else if Chr.eqb c "[" then
            let '(neg, s2) := if next_is "^" s1 then (true, Str.drop 1 s1) else (false, s1) in
            match parse_items (S (String.length s2)) s2 with
            | Some (items, s3) => Some (RSet neg items, s3, g)
            | None => None
            end
          else if Chr.eqb c "\" then
            match s1 with
            | String e s2 =>
                if Chr.eqb e "b" then Some (RWordBoundary, s2, g)
                else if Chr.eqb e "Z" then Some (REndZ, s2, g)
                else if (Chr.isdigit e && negb (Chr.eqb e "0"))%bool then Some (RBackref (digit_val e), s2, g)
                else Some (item_regex (escape_item e), s2, g)
            | EmptyString => None
            end
          else if Chr.eqb c "." then Some (RAny, s1, g)
          else if (Chr.eqb c "*" || Chr.eqb c "+" || Chr.eqb c "?" || Chr.eqb c "^" || Chr.eqb c "$")%bool then None
          else Some (RLit c, s1, g)
      end
  end.

(** [re.compile(pattern)].  A pattern outside the supported syntax compiles
    to [RNever]; every pattern of the engine compiles (see
    [engine_patterns_compile]). *)
Definition parse (pattern : string) : option regex :=
  match parse_alt (3 * String.length pattern + 3) pattern 0 with
  | Some (r, EmptyString, _) => Some r
  | _ => None
  end.

Definition compile (pattern : string) : regex :=
  match parse pattern with
  | Some r => r
  | None => RNever
  end.

(** *** Matching *)

Definition item_matches (i : citem) (x : ascii) : bool :=
  match i with
  | CChar c => Chr.eqb c x
  | CRange lo hi => Chr.between (Chr.code lo) (Chr.code hi) x
  | CSpace p => Bool.eqb p (Chr.isspace x)
  | CWord p => Bool.eqb p (Chr.isword x)
  | CDigit p => Bool.eqb p (Chr.isdigit x)
  end.

(** No pattern of the engine puts a class under [IGNORECASE]; a literal
    under [IGNORECASE] matches the characters with the same lower case. *)
Definition lit_matches (fl : flags) (c x : ascii) : bool :=
  if IGNORECASE fl then Chr.eqb (Chr.lower c) (Chr.lower x) else Chr.eqb c x.

Definition set_matches (negated : bool) (items : list citem) (x : ascii) : bool :=
  xorb negated (existsb (fun i => item_matches i x) items).

(** The state of a match in progress: the character before the current
    position, the text from the current position on, the position, the
    text of the groups closed so far (the latest first) and the number of
    the group closed last. *)
Record mstate : Type := {
  st_prev : option ascii;
  st_rest : string;
  st_pos : nat;
  st_groups : list (nat * string);
  st_lastindex : option nat
}.

Definition advance (st : mstate) (c : ascii) (rest : string) : mstate :=
  {| st_prev := Some c; st_rest := rest; st_pos := S (st_pos st);
     st_groups := st_groups st; st_lastindex := st_lastindex st |}.

Fixpoint lookup_group (idx : nat) (gs : list (nat * string)) : option string :=
  match gs with
  | [] => None
  | (i, t) :: gs' => if Nat.eqb i idx then Some t else lookup_group idx gs'
  end.

Definition close_group (idx : nat) (st0 st1 : mstate) : mstate :=
  {| st_prev := st_prev st1; st_rest := st_rest st1; st_pos := st_pos st1;
     st_groups := (idx, Str.take (st_pos st1 - st_pos st0) (st_rest st0)) :: st_groups st1;
     st_lastindex := Some idx |}.

(** The text [t] read at the current position (a backreference). *)
Fixpoint read_text (t : string) (st : mstate) : option mstate :=
  match t with
  | EmptyString => Some st
  | String c t' =>
      match st_rest st with
      | String x rest => if Chr.eqb c x then read_text t' (advance st x rest) else None
      | EmptyString => None
      end
  end.

Definition is_word_opt (o : option ascii) : bool :=
  match o with
  | Some c => Chr.isword c
  | None => false
  end.

Definition head (s : string) : option ascii :=
  match s with
  | String c _ => Some c
  | EmptyString => None
  end.

Definition at_boundary (st : mstate) : bool :=
  xorb (is_word_opt (st_prev st)) (is_word_opt (head (st_rest st))).

Definition or_else {A : Type} (a : option A) (b : unit -> option A) : option A :=
  match a with
  | Some x => Some x
  | None => b tt
  end.

(** The loop of a repetition [body{lo,hi}]: [count] iterations are done;
    [step] matches the body once.  A repetition runs at most once per
    remaining character: an iteration that reads nothing ends it. *)
Fixpoint repeat_loop (step : mstate -> (mstate -> option mstate) -> option mstate)
    (greedy : bool) (lo : nat) (hi : option nat) (k : mstate -> option mstate)
    (fuel : nat) (count : nat) (st0 : mstate) {struct fuel} : option mstate :=
  let more (_ : unit) :=
    match fuel with
    | O => None
    | S fuel' =>
        if match hi with Some h => Nat.ltb count h | None => true end
        then step st0 (fun st1 => if Nat.ltb (st_pos st0) (st_pos st1)
                                  then repeat_loop step greedy lo hi k fuel' (S count) st1
                                  else None)
        else None
    end in
  let stop (_ : unit) := if Nat.leb lo count then k st0 else None in
  if greedy then or_else (more tt) stop else or_else (stop tt) more.

(** [exec fl r st k]: the first way, in the engine's order, of matching
    [r] at [st] and then the rest of the pattern [k]. *)
Fixpoint exec (fl : flags) (r : regex) (st : mstate) (k : mstate -> option mstate)
  {struct r} : option mstate :=
  match r with
  | REmpty => k st
  | RNever => None
  | RLit c =>
      match st_rest st with
      | String x rest => if lit_matches fl c x then k (advance st x rest) else None
      | EmptyString => None
      end
  | RAny =>
      match st_rest st with
      | String x rest =>
          if (DOTALL fl || negb (Chr.eqb x Chr.LF))%bool then k (advance st x rest) else None
      | EmptyString => None
      end
  | RSet negated items =>
      match st_rest st with
      | String x rest => if set_matches negated items x then k (advance st x rest) else None
      | EmptyString => None
      end
  | RSeq r1 r2 => exec fl r1 st (fun st1 => exec fl r2 st1 k)
  | RAlt r1 r2 => or_else (exec fl r1 st k) (fun _ => exec fl r2 st k)
  | RRepeat greedy lo hi body =>
      repeat_loop (exec fl body) greedy lo hi k (S (String.length (st_rest st))) 0 st
  | RGroup idx body => exec fl body st (fun st1 => k (close_group idx st st1))
  | RBackref idx =>
      match lookup_group idx (st_groups st) with
      | Some t => match read_text t st with Some st1 => k st1 | None => None end
      | None => None
      end
  | RLookahead body =>
      match exec fl body st (fun st1 => Some st1) with
      | Some st1 =>
          k {| st_prev := st_prev st; st_rest := st_rest st; st_pos := st_pos st;
               st_groups := st_groups st1; st_lastindex := st_lastindex st1 |}
      | None => None
      end
  | RWordBoundary => if at_boundary st then k st else None
  | REndZ => match st_rest st with EmptyString => k st | _ => None end
  end.

(** *** Match objects *)

Record Match : Type := {
  m_start : nat;
  m_end : nat;
  m_text : string;                (* m.group() *)
  m_groups : list (nat * string);
  lastindex : option nat;
  m_prev_end : option ascii;      (* the character before m.end() *)
  m_tail : string                 (* the subject from m.end() on *)
}.

(** [m.group(idx)] *)
Definition group (m : Match) (idx : nat) : option string := lookup_group idx (m_groups m).

(** The match of [r] that starts at the position [pos] (the text from
    there on being [rest], the character before it [prev]), if any;
    [must_advance] refuses the empty match, as the scan does just after an
    empty match at the same place. *)
Definition match_here (fl : flags) (r : regex) (prev : option ascii) (rest : string)
    (pos : nat) (must_advance : bool) : option Match :=
  let st := {| st_prev := prev; st_rest := rest; st_pos := pos;
               st_groups := []; st_lastindex := None |} in
  match exec fl r st (fun st1 => if (must_advance && Nat.eqb (st_pos st1) pos)%bool
                                 then None else Some st1) with
  | Some st1 =>
      Some {| m_start := pos; m_end := st_pos st1;
              m_text := Str.take (st_pos st1 - pos) rest;
              m_groups := st_groups st1; lastindex := st_lastindex st1;
              m_prev_end := st_prev st1; m_tail := st_rest st1 |}
  | None => None
  end.

(** The successive non-overlapping matches, from the left, with the text
    skipped before each one; the last component is the text after the last
    match.  This is the scan shared by [re.sub], [re.finditer],
    [re.findall] and [re.split]. *)
Fixpoint scan (fl : flags) (r : regex) (fuel : nat) (prev : option ascii) (rest : string)
    (pos : nat) (must_advance : bool) (skipped : string) : list (string * Match) * string :=
  match fuel with
  | O => ([], String.rev skipped +:+ rest)
  | S fuel' =>
      match match_here fl r prev rest pos must_advance with
      | Some m =>
          let '(ms, tail) := scan fl r fuel' (m_prev_end m) (m_tail m) (m_end m)
                                  (Nat.eqb (m_end m) pos) EmptyString in
          ((String.rev skipped, m) :: ms, tail)
      | None =>
          match rest with
          | String c rest' => scan fl r fuel' (Some c) rest' (S pos) false (String c skipped)
          | EmptyString => ([], String.rev skipped)
          end
      end
  end.

Definition scan_all (fl : flags) (r : regex) (s : string) : list (string * Match) * string :=
  scan fl r (2 * String.length s + 2) None s 0 false EmptyString.

(** [re.finditer(pattern, s, flags)] *)
Definition finditer (pattern : string) (s : string) (fl : flags) : list Match :=
  map snd (fst (scan_all fl (compile pattern) s)).

(** [re.search(pattern, s, flags) is not None] *)
Definition search (pattern : string) (s : string) (fl : flags) : bool :=
  match fst (scan_all fl (compile pattern) s) with
  | [] => false
  | _ :: _ => true
  end.

Fixpoint sub_pieces (repl : Match -> string) (ms : list (string * Match)) (tail : string) : string :=
  match ms with
  | [] => tail
  | (skipped, m) :: ms' => skipped +:+ repl m +:+ sub_pieces repl ms' tail
  end.

(** [re.sub(pattern, repl, s, flags=flags)] with a function [repl]. *)
Definition sub_with (pattern : string) (repl : Match -> string) (s : string) (fl : flags) : string :=
  let '(ms, tail) := scan_all fl (compile pattern) s in sub_pieces repl ms tail.

(** [re.sub(pattern, repl, s, flags=flags)] with a string [repl]; no
    replacement string of the engine holds a backslash. *)
Definition sub (pattern : string) (repl : string) (s : string) (fl : flags) : string :=
  sub_with pattern (fun _ => repl) s fl.

(** [re.findall(pattern, s, flags)] for a pattern without group (the
    matches) or with one group (the texts of the group). *)
Definition findall (pattern : string) (s : string) (fl : flags) : list string :=
  map (fun m => match m_groups m with
                | [] => m_text m
                | _ => match group m 1 with Some t => t | None => EmptyString end
                end)
      (finditer pattern s fl).

(** [re.split(pattern, s)] for a pattern without group. *)
Definition split (pattern : string) (s : string) : list string :=
  let '(ms, tail) := scan_all no_flags (compile pattern) s in map fst ms ++ [tail].

End Re.

(** ** Exceptions *)

Inductive exn : Type :=
  | ZeroDivisionError.

(** The outcome of a call that may raise. *)
Inductive outcome (A : Type) : Type :=
  | Returns (a : A)
  | Raises (e : exn).

Arguments Returns {A} a.
Arguments Raises {A} e.

(** [a / b] on two lengths (true division). *)
Definition true_div (a b : Z) : outcome Q :=
  if Z.eqb b 0 then Raises ZeroDivisionError else Returns (inject_Z a / inject_Z b)%Q.

Definition Qgt_bool (a b : Q) : bool := negb (Qle_bool a b).

Definition len (s : string) : Z := Z.of_nat (String.length s).

(** ** class SemanticCompressor *)

(** *** The pattern catalogs of [__init__] *)

Definition redundant_patterns : list string :=
  [ "\n\s*\n\s*\n+";              (* Multiple empty lines *)
    "(\s+)(\s+)+";                (* Multiple consecutive spaces *)
    "(The\s+same\s+\w+\s+){2,}";  (* Repetitive phrases *)
    "(\w+\s+){3,}\1";             (* Word repetitions *)
    "(```[^`]*```)\s*\1"          (* Duplicate code blocks *)
  ].

Definition preserve_patterns : list string :=
  [ "```[^`]*```";                     (* Code blocks *)
    "`[^`]+`";                         (* Inline code *)
    "https?://[^\s]+";                 (* URLs *)
    "[A-Z][A-Z_]+[A-Z]";               (* Constants *)
    "\b[A-Z][a-z]+[A-Z][A-Za-z]*\b";   (* CamelCase *)
    "\$\{[^}]+\}"                      (* Variable substitutions *)
  ].

(** *** compress_whitespace *)

Definition code_pattern : string := "```[^`]*```".
Definition CODE_BLOCK : string := "<<<CODE_BLOCK>>>".

Definition compress_whitespace (content : string) : string * Q :=
  (* Normalize line endings *)
  let content := Re.sub "\r\n|\r" Str.nl content Re.no_flags in
  (* Remove excessive empty lines (keep max 2) *)
  let content := Re.sub "\n\s*\n\s*\n+" (Str.nl +:+ Str.nl) content Re.no_flags in
  (* Trim trailing whitespace *)
  let content := Str.join Str.nl (map Str.rstrip (Str.split_chr Chr.LF content)) in
  (* Extract code blocks *)
  let preserved_blocks := map Re.m_text (Re.finditer code_pattern content Re.dotall) in
  (* Replace code blocks with placeholders *)
  let content_no_code := Re.sub code_pattern CODE_BLOCK content Re.dotall in
  (* Normalize spaces in non-code content *)
  let content_no_code := Re.sub "[ \t]+" " " content_no_code Re.no_flags in
  (* Restore code blocks *)
  let content_no_code :=
    fold_left (fun acc block => Str.replace_first CODE_BLOCK block acc)
              preserved_blocks content_no_code in
  (content_no_code, 1.0%Q).

(** *** eliminate_redundancy *)

(** The first loop: how often each stripped, non-empty line occurs. *)
Definition count_lines (lines : list string) : gmap string nat :=
  fold_left (fun (line_frequency : gmap string nat) line =>
               let clean_line := Str.strip line in
               if String.eqb clean_line EmptyString then line_frequency
               else <[clean_line := default 0 (line_frequency !! clean_line) + 1]> line_frequency)
            lines ∅.

(** The state of the second loop. *)
Record ref_state : Type := {
  processed_lines : list string;
  line_refs : gmap string string;
  ref_counter : nat
}.

Definition ref_tag (n : nat) : string := "[REF_" +:+ Str.of_nat n +:+ "]".

Definition indent_of (line : string) : nat :=
  String.length line - String.length (Str.lstrip line).

Definition reference_line (line_frequency : gmap string nat) (st : ref_state) (line : string)
  : ref_state :=
  let clean_line := Str.strip line in
  if (negb (String.eqb clean_line EmptyString)
      && Nat.ltb 2 (default 0 (line_frequency !! clean_line)))%bool
  then
    (* This line appears multiple times *)
    match line_refs st !! clean_line with
    | None =>
        {| processed_lines := processed_lines st ++ [ref_tag (ref_counter st) +:+ ": " +:+ line];
           line_refs := <[clean_line := ref_tag (ref_counter st)]> (line_refs st);
           ref_counter := ref_counter st + 1 |}
    | Some ref =>
        {| processed_lines := processed_lines st ++ [Str.spaces (indent_of line) +:+ ref];
           line_refs := line_refs st;
           ref_counter := ref_counter st |}
    end
  else
    {| processed_lines := processed_lines st ++ [line];
       line_refs := line_refs st;
       ref_counter := ref_counter st |}.

(** [lambda m: m.group(1) if m.lastindex and m.lastindex >= 1 else ''];
    [re.sub] reads a [None] returned by the function as the empty string. *)
Definition keep_first_group (m : Re.Match) : string :=
  match Re.lastindex m with
  | Some i => if Nat.leb 1 i then default EmptyString (Re.group m 1) else EmptyString
  | None => EmptyString
  end.

(** Find and consolidate repeated lines, replace repeated lines with
    references: the first part of [eliminate_redundancy]. *)
Definition consolidate_lines (content : string) : string :=
  let lines := Str.split_chr Chr.LF content in
  let line_frequency := count_lines lines in
  let st := fold_left (reference_line line_frequency) lines
              {| processed_lines := []; line_refs := ∅; ref_counter := 1 |} in
  Str.join Str.nl (processed_lines st).

(** Remove repetitive phrases: the loop over the patterns. *)
Definition remove_phrases (patterns : list string) (content : string) : string :=
  fold_left (fun content pattern => Re.sub_with pattern keep_first_group content Re.no_flags)
            patterns content.

Definition eliminate_redundancy (content : string) : string * Q :=
  let content := consolidate_lines content in
  let content := remove_phrases redundant_patterns content in
  (content, 0.99%Q).

(** *** semantic_condensation *)

Definition condensation_patterns : list (string * string) :=
  [ ("\b(?:in order to|so as to)\b", "to");
    ("\b(?:due to the fact that|because of the fact that)\b", "because");
    ("\b(?:at this point in time|at the present time)\b", "now");
    ("\b(?:for the purpose of)\b", "for");
    ("\b(?:with regard to|with respect to|in relation to)\b", "regarding");
    ("\b(?:it should be noted that|it is important to note that)\b", "note:");
    ("\b(?:as a result of)\b", "from");
    ("\b(?:in the event that)\b", "if");
    ("\b(?:make use of)\b", "use");
    ("\b(?:provide assistance to)\b", "help")
  ].

Definition filler_words : string :=
  "\b(?:actually|basically|essentially|literally|obviously|really|very|quite|rather|pretty|just|simply|merely|only)\b".

(** [any(re.search(pattern, line) for pattern in self.preserve_patterns)] *)
Definition is_technical (line : string) : bool :=
  existsb (fun pattern => Re.search pattern line Re.no_flags) preserve_patterns.

(** [line.strip().startswith(('*', '-', '1.', '2.', '3.'))] *)
Definition is_list_item (line : string) : bool :=
  existsb (fun p => Str.startswith p (Str.strip line)) ["*"; "-"; "1."; "2."; "3."].

Definition condense_line (line : string) : string :=
  if (negb (is_technical line) && negb (is_list_item line))%bool
  then
    (* Safe to remove filler words from prose *)
    let line := Re.sub filler_words EmptyString line Re.ignorecase in
    Re.sub "\s+" " " line Re.no_flags  (* Clean up extra spaces *)
  else line.

(** The text that [semantic_condensation] computes before it scores it. *)
Definition condense (content : string) : string :=
  let content :=
    fold_left (fun content '(verbose_pattern, concise_replacement) =>
                 Re.sub verbose_pattern concise_replacement content Re.ignorecase)
              condensation_patterns content in
  Str.join Str.nl (map condense_line (Str.split_chr Chr.LF content)).

Definition semantic_condensation (content : string) : outcome (string * Q) :=
  let original_content := content in
  let content := condense content in
  (* Calculate preservation score based on semantic changes *)
  let changes_made := (len original_content - len content)%Z in
  match true_div changes_made (len original_content) with
  | Raises e => Raises e
  | Returns q => Returns (content, Qmax 0.95 (1.0 - q * 2))%Q
  end.

(** *** pattern_abstraction *)

Definition enumerate {A : Type} (l : list A) : list (nat * A) := combine (seq 0 (length l)) l.

(** The pairs (text, token) for the texts longer than [limit]. *)
Definition abstractions_of (prefix : string) (limit : nat) (found : list string)
  : list (string * string) :=
  flat_map (fun '(i, text) =>
              if Nat.ltb limit (String.length text)
              then [(text, "[" +:+ prefix +:+ Str.of_nat i +:+ "]")] else [])
           (enumerate found).

Definition pattern_abstraction (content : string) : string * Q :=
  (* Function definitions *)
  let func_patterns :=
    Re.findall "def\s+(\w+)\([^)]*\):[^:]*?(?=\ndef|\nclass|\n\S|\Z)" content Re.dotall in
  (* JSON objects *)
  let json_patterns := Re.findall "\{[^{}]*(?:\{[^{}]*\}[^{}]*)*\}" content Re.no_flags in
  let pattern_abstractions :=
    abstractions_of "FUNC_" 200 func_patterns ++ abstractions_of "JSON_" 300 json_patterns in
  (* Apply abstractions *)
  let abstracted_content :=
    fold_left (fun acc '(pattern, abstraction) => Str.replace_all pattern abstraction acc)
              pattern_abstractions content in
  (* Add abstraction dictionary at the end *)
  let abstracted_content :=
    match pattern_abstractions with
    | [] => abstracted_content
    | _ =>
        abstracted_content +:+
        fold_left (fun abstraction_dict '(pattern, abstraction) =>
                     abstraction_dict +:+ abstraction +:+ ": " +:+ Str.take 100 pattern +:+
                     (if Nat.ltb 100 (String.length pattern) then "..." else EmptyString) +:+ Str.nl)
                  pattern_abstractions
                  (Str.nl +:+ Str.nl +:+ "--- Pattern Abstractions ---" +:+ Str.nl)
    end in
  (abstracted_content, 0.98%Q).

(** *** calculate_similarity and context_deduplication *)

Definition words_of (text : string) : gset string :=
  list_to_set (Re.findall "\b\w+\b" (Str.lower text) Re.no_flags).

Definition calculate_similarity (text1 text2 : string) : Q :=
  let words1 := words_of text1 in
  let words2 := words_of text2 in
  if (Nat.eqb (size words1) 0 || Nat.eqb (size words2) 0)%bool then 0.0%Q
  else
    let intersection := words1 ∩ words2 in
    let union := words1 ∪ words2 in
    if Nat.eqb (size union) 0 then 0.0%Q
    else (inject_Z (Z.of_nat (size intersection)) / inject_Z (Z.of_nat (size union)))%Q.

Definition similarity_threshold : Q := 0.8%Q.

Definition keep_block (unique_blocks : list string) (block : string) : list string :=
  let block := Str.strip block in
  if String.eqb block EmptyString then unique_blocks
  else
    (* Check similarity with existing blocks *)
    let is_duplicate :=
      existsb (fun unique_block =>
                 Qgt_bool (calculate_similarity block unique_block) similarity_threshold)
              unique_blocks in
    if is_duplicate then unique_blocks else unique_blocks ++ [block].

Definition context_deduplication (content : string) : string * Q :=
  (* Split content into logical blocks *)
  let blocks := Re.split "\n\s*\n" content in
  let unique_blocks := fold_left keep_block blocks [] in
  let deduplicated_content := Str.join (Str.nl +:+ Str.nl) unique_blocks in
  (* Calculate preservation based on content removed *)
  let original_blocks := length blocks in
  let unique_blocks_count := length unique_blocks in
  let preservation_score :=
    Qmin 0.99 (if Nat.ltb 0 original_blocks
               then inject_Z (Z.of_nat unique_blocks_count) / inject_Z (Z.of_nat original_blocks)
               else 1.0)%Q in
  (deduplicated_content, preservation_score).

(** *** aggressive_compression *)

Definition max_examples : nat := 2.

Definition abbreviations : list (string * string) :=
  [ ("\bfunction\b", "fn");
    ("\bparameter\b", "param");
    ("\bargument\b", "arg");
    ("\bvariable\b", "var");
    ("\bconfiguration\b", "config");
    ("\benvironment\b", "env");
    ("\bdirectory\b", "dir");
    ("\bexecute\b", "exec");
    ("\binitialization\b", "init");
    ("\boptimization\b", "opt")
  ].

(** One step of the loop over the lines: the lines kept so far and the
    number of example lines seen. *)
Definition filter_example (acc : list string * nat) (line : string) : list string * nat :=
  let '(filtered_lines, example_count) := acc in
  if Re.search "\b(?:example|e\.g\.|for instance|such as)\b" line Re.ignorecase
  then
    let example_count := example_count + 1 in
    if Nat.leb example_count max_examples
    then (filtered_lines ++ [line], example_count)
    else (filtered_lines, example_count)  (* Skip additional examples *)
  else (filtered_lines ++ [line], example_count).

Definition aggressive_compression (content : string) : string * Q :=
  (* Remove comments and documentation *)
  let content := Re.sub "#[^\n]*\n" Str.nl content Re.no_flags in
  let content := Re.sub "//[^\n]*\n" Str.nl content Re.no_flags in
  let content := Re.sub "/\*.*?\*/" EmptyString content Re.dotall in
  (* Remove excessive examples *)
  let lines := Str.split_chr Chr.LF content in
  let filtered_lines := fst (fold_left filter_example lines ([], 0)) in
  let content := Str.join Str.nl filtered_lines in
  (* Aggressive abbreviation *)
  let content :=
    fold_left (fun content '(full_word, abbrev) => Re.sub full_word abbrev content Re.ignorecase)
              abbreviations content in
  (content, 0.90%Q).

(** *** compress_content *)

Inductive strategy : Type :=
  | whitespace_optimization
  | redundancy_elimination
  | semantic_condensation_
  | pattern_abstraction_
  | context_deduplication_
  | aggressive_compression_.

Definition strategy_name (s : strategy) : string :=
  match s with
  | whitespace_optimization => "whitespace_optimization"
  | redundancy_elimination => "redundancy_elimination"
  | semantic_condensation_ => "semantic_condensation"
  | pattern_abstraction_ => "pattern_abstraction"
  | context_deduplication_ => "context_deduplication"
  | aggressive_compression_ => "aggressive_compression"
  end.

Definition strategy_eqb (a b : strategy) : bool :=
  match a, b with
  | whitespace_optimization, whitespace_optimization
  | redundancy_elimination, redundancy_elimination
  | semantic_condensation_, semantic_condensation_
  | pattern_abstraction_, pattern_abstraction_
  | context_deduplication_, context_deduplication_
  | aggressive_compression_, aggressive_compression_ => true
  | _, _ => false
  end.

Record CompressionResult : Type := {
  original_size : Z;
  compressed_size : Z;
  tokens_saved : Z;
  compression_ratio : Q;
  preservation_score : Q;
  processing_time : Q;
  method_used : string;
  content_hash : string
}.

Definition chars_per_token : Z := 4.

(** Select strategies based on target reduction and preservation threshold *)
Definition select_strategies (target_reduction : Q) (aggressive_mode : bool) : list strategy :=
  if negb aggressive_mode then
    (* Conservative strategies *)
    if Qle_bool target_reduction 0.10 then
      [whitespace_optimization]
    else if Qle_bool target_reduction 0.20 then
      [whitespace_optimization; redundancy_elimination]
    else if Qle_bool target_reduction 0.30 then
      [whitespace_optimization; redundancy_elimination; semantic_condensation_]
    else
      [whitespace_optimization; redundancy_elimination;
       semantic_condensation_; pattern_abstraction_]
  else
    (* Aggressive mode *)
    [aggressive_compression_; context_deduplication_;
     semantic_condensation_; whitespace_optimization].

(** The dispatch on the strategy name inside the [try] block. *)
Definition apply_strategy (s : strategy) (compressed_content : string) : outcome (string * Q) :=
  match s with
  | whitespace_optimization => Returns (compress_whitespace compressed_content)
  | redundancy_elimination => Returns (eliminate_redundancy compressed_content)
  | semantic_condensation_ => semantic_condensation compressed_content
  | pattern_abstraction_ => Returns (pattern_abstraction compressed_content)
  | context_deduplication_ => Returns (context_deduplication compressed_content)
  | aggressive_compression_ => Returns (aggressive_compression compressed_content)
  end.

(** The variables of the loop over the selected strategies. *)
Record pipeline : Type := {
  compressed_content : string;
  overall_preservation : Q;
  methods : list strategy
}.

(** What one pass through the loop body does: a [break] (on the timeout or
    on the target reached), or the loop goes on, after the whole body or
    after the [except] clause. *)
Inductive flow : Type :=
  | Break (p : pipeline)
  | Next (p : pipeline).

(** The clock: [elapsed i] is [(datetime.now() - start_time).seconds] as
    read at the head of the [i]-th pass (from 0).  The reduction is
    compared with the target on exact values; the code rounds the quotient
    and the difference to binary64, so that a reduction equal to the
    target up to that rounding can be decided the other way there
    ([1 - 8/10] is just below [0.2] in binary64). *)
Definition loop_body (original_size : Z) (target_reduction : Q) (max_time : Z)
    (elapsed : nat -> Z) (i : nat) (s : strategy) (p : pipeline) : flow :=
  if Z.leb max_time (elapsed i) then Break p    (* Compression timeout reached *)
  else
    match apply_strategy s (compressed_content p) with
    | Raises _ => Next p                         (* except Exception: continue *)
    | Returns (content, preservation) =>
        let p' := {| compressed_content := content;
                     overall_preservation := (overall_preservation p * preservation)%Q;
                     methods := methods p ++ [s] |} in
        (* Check if we've achieved target reduction *)
        match true_div (len content) original_size with
        | Raises _ => Next p'                    (* raised after the updates above *)
        | Returns q =>
            let current_reduction := (1 - q)%Q in
            if Qle_bool target_reduction current_reduction then Break p' else Next p'
        end
    end.

Fixpoint run_strategies (original_size : Z) (target_reduction : Q) (max_time : Z)
    (elapsed : nat -> Z) (i : nat) (selected_strategies : list strategy) (p : pipeline)
  : pipeline :=
  match selected_strategies with
  | [] => p
  | s :: rest =>
      match loop_body original_size target_reduction max_time elapsed i s p with
      | Break p' => p'
      | Next p' => run_strategies original_size target_reduction max_time elapsed (S i) rest p'
      end
  end.

Definition initial (content : string) : pipeline :=
  {| compressed_content := content; overall_preservation := 1.0%Q; methods := [] |}.

Section Compressor.

(** [hashlib.md5(content.encode()).hexdigest()] *)
Variable md5_hexdigest : string -> string.
(** The text of a float inside an f-string. *)
Variable format_float : Q -> string.

Definition format_bool (b : bool) : string := if b then "True" else "False".

Definition cache_key (content : string) (target_reduction : Q) (aggressive_mode : bool) : string :=
  md5_hexdigest content +:+ "_" +:+ format_float target_reduction +:+ "_" +:+ format_bool aggressive_mode.

(** The result computed on a cache miss; [total_seconds] is the time read
    after the loop. *)
Definition compute_result (content : string) (target_reduction : Q) (max_time : Z)
    (aggressive_mode : bool) (elapsed : nat -> Z) (total_seconds : Q) : CompressionResult :=
  let original_size := len content in
  let original_tokens := (original_size / chars_per_token)%Z in
  let content_hash := md5_hexdigest content in
  let selected_strategies := select_strategies target_reduction aggressive_mode in
  (* Apply compression strategies *)
  let p := run_strategies original_size target_reduction max_time elapsed 0
             selected_strategies (initial content) in
  (* Calculate final metrics *)
  let compressed_size := len (compressed_content p) in
  let tokens_saved := (original_tokens - compressed_size / chars_per_token)%Z in
  let compression_ratio :=
    if Z.ltb 0 original_size then (inject_Z compressed_size / inject_Z original_size)%Q
    else 1.0%Q in
  {| original_size := original_size;
     compressed_size := compressed_size;
     tokens_saved := tokens_saved;
     compression_ratio := compression_ratio;
     preservation_score := overall_preservation p;
     processing_time := total_seconds;
     method_used := Str.join ", " (map strategy_name (methods p));
     content_hash := content_hash |}.

(** [compress_content], with the cache of the compressor passed in and
    out.  The content analysis made before the selection is not used by
    what follows and cannot raise; it is left out. *)
Definition compress_content (compression_cache : gmap string CompressionResult)
    (content : string) (target_reduction : Q) (max_time : Z) (aggressive_mode : bool)
    (elapsed : nat -> Z) (total_seconds : Q)
  : CompressionResult * gmap string CompressionResult :=
  (* Check cache *)
  let key := cache_key content target_reduction aggressive_mode in
  match compression_cache !! key with
  | Some cached => (cached, compression_cache)    (* Using cached compression result *)
  | None =>
      let result := compute_result content target_reduction max_time aggressive_mode
                                   elapsed total_seconds in
      (* Cache result *)
      (result, <[key := result]> compression_cache)
  end.

End Compressor.

(** ** Vocabulary of the properties *)

(** Every pattern that the engine hands to [re]. *)
Definition engine_patterns : list string :=
  redundant_patterns ++ preserve_patterns ++ map fst condensation_patterns
  ++ map fst abbreviations
  ++ [ filler_words; code_pattern; "\r\n|\r"; "\n\s*\n\s*\n+"; "[ \t]+"; "\s+";
       "def\s+(\w+)\([^)]*\):[^:]*?(?=\ndef|\nclass|\n\S|\Z)";
       "\{[^{}]*(?:\{[^{}]*\}[^{}]*)*\}"; "\b\w+\b"; "\n\s*\n";
       "#[^\n]*\n"; "//[^\n]*\n"; "/\*.*?\*/";
       "\b(?:example|e\.g\.|for instance|such as)\b" ].

Definition compiles (pattern : string) : bool :=
  match Re.parse pattern with
  | Some _ => true
  | None => false
  end.

Module ReSpec.
Import Re.

(** A lower bound on the number of characters a match of [r] reads. *)
Fixpoint min_len (r : regex) : nat :=
  match r with
  | RLit _ | RAny | RSet _ _ => 1
  | RSeq r1 r2 => min_len r1 + min_len r2
  | RAlt r1 r2 => Nat.min (min_len r1) (min_len r2)
  | RRepeat _ lo _ body => lo * min_len body
  | RGroup _ body => min_len body
  | _ => 0
  end.

(** [st1] lies [n] characters after [st] in the same text. *)
Definition ahead (n : nat) (st st1 : mstate) : Prop :=
  st_pos st1 = st_pos st + n /\
  st_rest st1 = Str.drop n (st_rest st) /\
  n <= String.length (st_rest st).


(** *** The patterns without groups

    For a pattern made of single characters, classes, sequences,
    alternatives and greedy unbounded repetitions of one character, what a
    match reads is a function of the text alone: [den fl r g s] is the text
    left when [r] has matched at the head of [s] and [g] has accepted what
    follows. *)

Definition step_g (p : ascii -> bool) (g : string -> option string) (s : string)
  : option string :=
  match s with
  | String x r => if p x then g r else None
  | EmptyString => None
  end.

Fixpoint star_g (p : ascii -> bool) (g : string -> option string) (s : string)
  : option string :=
  match s with
  | String x r =>
      if p x then match star_g p g r with Some t => Some t | None => g s end else g s
  | EmptyString => g EmptyString
  end.

Fixpoint rep_g (p : ascii -> bool) (lo : nat) (g : string -> option string)
  : string -> option string :=
  match lo with
  | O => star_g p g
  | S lo' => step_g p (rep_g p lo' g)
  end.

Definition single_char (fl : flags) (r : regex) : option (ascii -> bool) :=
  match r with
  | RLit c => Some (lit_matches fl c)
  | RAny => Some (fun x => (DOTALL fl || negb (Chr.eqb x Chr.LF))%bool)
  | RSet negated items => Some (set_matches negated items)
  | _ => None
  end.

Fixpoint simple (fl : flags) (r : regex) : bool :=
  match r with
  | REmpty | RNever | RLit _ | RAny | RSet _ _ => true
  | RSeq r1 r2 | RAlt r1 r2 => (simple fl r1 && simple fl r2)%bool
  | RRepeat true _ None body =>
      match single_char fl body with Some _ => true | None => false end
  | _ => false
  end.

Fixpoint den (fl : flags) (r : regex) (g : string -> option string) : string -> option string :=
  match r with
  | REmpty => g
  | RLit _ | RAny | RSet _ _ =>
      match single_char fl r with Some p => step_g p g | None => fun _ => None end
  | RSeq r1 r2 => den fl r1 (den fl r2 g)
  | RAlt r1 r2 => fun s => match den fl r1 g s with Some t => Some t | None => den fl r2 g s end
  | RRepeat true lo None body =>
      match single_char fl body with Some p => rep_g p lo g | None => fun _ => None end
  | _ => fun _ => None
  end.

(** One character of the class [p], then [k]. *)
Definition char_step (p : ascii -> bool) (st : mstate) (k : mstate -> option mstate)
  : option mstate :=
  match st_rest st with
  | String x rest => if p x then k (advance st x rest) else None
  | EmptyString => None
  end.

(** The continuation [k] does to a state what [g] does to its text. *)
Definition realizes (k : mstate -> option mstate) (g : string -> option string) : Prop :=
  forall st,
    match g (st_rest st) with
    | Some t => exists res, k st = Some res /\ st_rest res = t /\
                            st_groups res = st_groups st /\
                            st_lastindex res = st_lastindex st
    | None => k st = None
    end.

(** Substitution, from the left, of [repl] for each stretch that [g]
    reads. *)
Fixpoint sub_spec (g : string -> option string) (repl : string) (fuel : nat) (s : string)
  : string :=
  match fuel with
  | O => s
  | S fuel' =>
      match g s with
      | Some t => repl +:+ sub_spec g repl fuel' t
      | None =>
          match s with
          | String x r => String x (sub_spec g repl fuel' r)
          | EmptyString => EmptyString
          end
      end
  end.

End ReSpec.

(** The sum of the lengths of the lines, each counted with its line break. *)
Definition total_len (ls : list string) : nat :=
  fold_right (fun l acc => String.length l + 1 + acc) 0 ls.

(** The pipeline after each pass through the loop of [compress_content],
    in order; the last one is what the loop leaves. *)
Fixpoint run_trace (original_size : Z) (target_reduction : Q) (max_time : Z)
    (elapsed : nat -> Z) (i : nat) (selected_strategies : list strategy) (p : pipeline)
  : list pipeline :=
  match selected_strategies with
  | [] => []
  | s :: rest =>
      match loop_body original_size target_reduction max_time elapsed i s p with
      | Break p' => [p']
      | Next p' => p' :: run_trace original_size target_reduction max_time elapsed (S i) rest p'
      end
  end.

(** The pipeline that a pass through the loop leaves. *)
Definition flow_pipeline (f : flow) : pipeline :=
  match f with Break p | Next p => p end.

(** Each score is at most the one before it. *)
Fixpoint non_increasing (scores : list Q) : Prop :=
  match scores with
  | a :: (b :: _) as rest => (b <= a)%Q /\ non_increasing rest
  | _ => True
  end.

(** Each list of methods extends the one before it. *)
Fixpoint extending (ms : list (list strategy)) : Prop :=
  match ms with
  | a :: (b :: _) as rest => (exists added, b = a ++ added) /\ extending rest
  | _ => True
  end.

(** A cache that holds only results that [compress_content] computed. *)
Definition cache_ok (md5_hexdigest : string -> string)
    (compression_cache : gmap string CompressionResult) : Prop :=
  forall key r, compression_cache !! key = Some r ->
    exists content target_reduction max_time aggressive_mode elapsed total_seconds,
      r = compute_result md5_hexdigest content target_reduction max_time aggressive_mode
                         elapsed total_seconds.

(** A digest that tells nothing apart, for the runs whose result does not
    depend on the digest. *)
Definition no_digest (content : string) : string := EmptyString.
Definition no_format (x : Q) : string := EmptyString.
(** A clock that stands still. *)
Definition frozen (i : nat) : Z := 0%Z.
(** A clock that reads one second more at each pass. *)
Definition ticking (i : nat) : Z := Z.of_nat i.

(** The line of Scenario B and an input that repeats it five times between
    lines that occur once. *)
Definition repeated_line : string := "This configuration value must be set correctly".

Definition scenario_b : string :=
  Str.join Str.nl
    [ "[server]"; repeated_line; "host = localhost"; repeated_line; "port = 8080";
      repeated_line; "timeout = 30"; repeated_line; "retries = 5"; repeated_line;
      "[end]" ].

(** An input whose first code block holds the placeholder text. *)
Definition placeholder_in_code : string := "```<<<CODE_BLOCK>>>``` ```a  b```".

(** ** Runs of blank lines

    A run of three or more newlines, with nothing but whitespace between
    them, in the words of the properties: [blank_run_tail s] is the text
    after such a run at the head of [s], the run being taken up to the last
    newline of the whitespace it lies in. *)

Module BlankRuns.

(** The text after the last newline of the whitespace at the head of [s]. *)
Fixpoint after_last_newline (s : string) : option string :=
  match s with
  | String x r =>
      if Chr.isspace x then
        match after_last_newline r with
        | Some t => Some t
        | None => if Chr.eqb Chr.LF x then Some r else None
        end
      else None
  | EmptyString => None
  end.

(** The number of newlines in the whitespace at the head of [s]. *)
Fixpoint leading_newlines (s : string) : nat :=
  match s with
  | String x r =>
      if Chr.isspace x then (if Chr.eqb Chr.LF x then 1 else 0) + leading_newlines r else 0
  | EmptyString => 0
  end.

Definition blank_run_tail (s : string) : option string :=
  match s with
  | String x r =>
      if (Chr.eqb Chr.LF x && Nat.leb 2 (leading_newlines r))%bool
      then after_last_newline r else None
  | EmptyString => None
  end.

(** The text without its runs of blank lines. *)
Definition delete_blank_runs (s : string) : string :=
  ReSpec.sub_spec blank_run_tail EmptyString (String.length s) s.

Fixpoint all_space (s : string) : bool :=
  match s with
  | String x r => (Chr.isspace x && all_space r)%bool
  | EmptyString => true
  end.

Fixpoint count_newlines (s : string) : nat :=
  match s with
  | String x r => (if Chr.eqb Chr.LF x then 1 else 0) + count_newlines r
  | EmptyString => 0
  end.

Fixpoint ends_with_newline (s : string) : bool :=
  match s with
  | String x EmptyString => Chr.eqb Chr.LF x
  | String _ r => ends_with_newline r
  | EmptyString => false
  end.

(** [run] is a run of blank lines: it starts and ends with a newline,
    holds at least three of them and nothing but whitespace. *)
Definition blank_run (run : string) : bool :=
  match run with
  | String x w =>
      (Chr.eqb Chr.LF x && all_space w && ends_with_newline w
       && Nat.leb 2 (count_newlines w))%bool
  | EmptyString => false
  end.

(** The text does not start with whitespace. *)
Definition starts_solid (s : string) : bool :=
  match s with
  | String x _ => negb (Chr.isspace x)
  | EmptyString => true
  end.

(** One or more newlines, then anything: the text after the newlines. *)
Definition newlines_g : string -> option string :=
  ReSpec.rep_g (Chr.eqb Chr.LF) 1 (fun t => Some t).

(** The first pattern of the redundancy catalog. *)
Definition blank_lines : string := "\n\s*\n\s*\n+".

End BlankRuns.

(** ** Scenario B in general

    An input is a list of items: [None] stands for the repeated line,
    [Some u] for another line [u]. *)

Module ScenarioB.

Fixpoint has_newline (s : string) : bool :=
  match s with
  | String x r => (Chr.eqb x Chr.LF || has_newline r)%bool
  | EmptyString => false
  end.

Definition line_of (item : option string) : string :=
  match item with
  | Some u => u
  | None => repeated_line
  end.

Definition lines_of (items : list (option string)) : list string := map line_of items.

(** The number of occurrences of the repeated line. *)
Fixpoint occurrences (items : list (option string)) : nat :=
  match items with
  | [] => 0
  | None :: rest => S (occurrences rest)
  | Some _ :: rest => occurrences rest
  end.

(** The other lines. *)
Fixpoint others (items : list (option string)) : list string :=
  match items with
  | [] => []
  | None :: rest => others rest
  | Some u :: rest => u :: others rest
  end.

(** A line of its own: no line break inside, and not the repeated line
    once stripped. *)
Definition own_line (u : string) : bool :=
  (negb (has_newline u) && negb (String.eqb (Str.strip u) repeated_line))%bool.

Fixpoint all_distinct (l : list string) : bool :=
  match l with
  | [] => true
  | x :: rest => (negb (existsb (String.eqb x) rest) && all_distinct rest)%bool
  end.

(** The lines Scenario B expects: the first occurrence defines the tag,
    the later ones are the tag, the other lines stay. *)
Fixpoint tag_items (seen : bool) (items : list (option string)) : list string :=
  match items with
  | [] => []
  | None :: rest =>
      (if seen then ref_tag 1 else ref_tag 1 +:+ ": " +:+ repeated_line) :: tag_items true rest
  | Some u :: rest => u :: tag_items seen rest
  end.

(** No pattern of the redundancy catalog matches anywhere in [text]. *)
Definition no_redundancy (text : string) : bool :=
  forallb (fun pattern => negb (Re.search pattern text Re.no_flags)) redundant_patterns.

(** How many of the lines are [key] once stripped. *)
Fixpoint freq (key : string) (lines : list string) : nat :=
  match lines with
  | [] => 0
  | l :: rest => (if String.eqb (Str.strip l) key then 1 else 0) + freq key rest
  end.

(** Five occurrences and a line that occurs once, which no pattern of the
    catalog matches by itself but which repeats the last word of the
    repeated line. *)
Definition echo_input : list (option string) :=
  [None; Some "correctly"; None; Some "alpha"; None; Some "beta"; None; Some "gamma"; None].

(** The items of [scenario_b]. *)
Definition scenario_b_items : list (option string) :=
  [Some "[server]"; None; Some "host = localhost"; None; Some "port = 8080"; None;
   Some "timeout = 30"; None; Some "retries = 5"; None; Some "[end]"].

End ScenarioB.

(** ** Short texts

    Every text of a given length over letters, spaces, line breaks and
    backticks, for exhaustive checks. *)

Definition short_alphabet : list ascii := ["a"%char; " "%char; Chr.LF; "`"%char].

Fixpoint all_strings (n : nat) : list string :=
  match n with
  | O => [EmptyString]
  | S n' => flat_map (fun s => map (fun c => String c s) short_alphabet) (all_strings n')
  end.

(** The texts of at most [n] characters. *)
Fixpoint up_to (n : nat) : list string :=
  match n with
  | O => all_strings 0
  | S n' => all_strings n ++ up_to n'
  end.

(** A code block of at most three characters with at most one character
    before it and after it. *)
Definition fenced_strings : list string :=
  flat_map (fun u =>
    flat_map (fun s => map (fun v => u +:+ "```" +:+ s +:+ "```" +:+ v) (up_to 1)) (up_to 3))
    (up_to 1).

(** A second run of [compress_whitespace] changes nothing. *)
Definition idempotent_on (s : string) : bool :=
  let once := fst (compress_whitespace s) in
  String.eqb (fst (compress_whitespace once)) once.

(** ** Vocabulary of the further properties *)

(** The Jaccard index of two sets of words, as [calculate_similarity]
    computes it from the words of its two texts. *)
Definition jaccard (words1 words2 : gset string) : Q :=
  if (Nat.eqb (size words1) 0 || Nat.eqb (size words2) 0)%bool then 0.0%Q
  else if Nat.eqb (size (words1 ∪ words2)) 0 then 0.0%Q
  else (inject_Z (Z.of_nat (size (words1 ∩ words2)))
        / inject_Z (Z.of_nat (size (words1 ∪ words2))))%Q.

(** The blocks that [context_deduplication] splits the content into and
    the blocks that it keeps. *)
Definition blocks_of (content : string) : list string := Re.split "\n\s*\n" content.

Definition kept_blocks (content : string) : list string :=
  fold_left keep_block (blocks_of content) [].

(** [later] is not a duplicate of [earlier]. *)
Definition dissimilar (earlier later : string) : Prop :=
  (calculate_similarity later earlier <= similarity_threshold)%Q.

(** What becomes of a stripped block [b] when [kept] are the blocks kept:
    it is empty, or it is one of them, or it is a duplicate of one of
    them. *)
Definition accounted (kept : list string) (b : string) : Prop :=
  b = EmptyString \/ In b kept \/ exists k, In k kept /\ ~ dissimilar k b.

(** Every character of [s] satisfies [p]. *)
Fixpoint every (p : ascii -> bool) (s : string) : bool :=
  match s with
  | String x r => (p x && every p r)%bool
  | EmptyString => true
  end.

Definition not_cr (x : ascii) : bool := negb (Chr.eqb x Chr.CR).

(** The least preservation factor that each strategy can return. *)
Definition least_factor (s : strategy) : Q :=
  match s with
  | whitespace_optimization => 1.0
  | redundancy_elimination => 0.99
  | semantic_condensation_ => 0.95
  | pattern_abstraction_ => 0.98
  | context_deduplication_ => 0
  | aggressive_compression_ => 0.90
  end%Q.

Definition least_score (selected : list strategy) : Q :=
  fold_right (fun s acc => (least_factor s * acc)%Q) 1%Q selected.

(** No stripped, non-empty line of the content occurs more than twice. *)
Definition no_line_thrice (content : string) : bool :=
  let lines := Str.split_chr Chr.LF content in
  forallb (fun l => (String.eqb (Str.strip l) EmptyString
                     || Nat.leb (ScenarioB.freq (Str.strip l) lines) 2)%bool) lines.

(** The text that a match in progress has still to read and the texts of
    its groups are at most [n] characters long. *)
Definition within (n : nat) (st : Re.mstate) : Prop :=
  String.length (Re.st_rest st) <= n /\
  Forall (fun g => String.length (snd g) <= n) (Re.st_groups st).

(** ** analyze_content *)

(** *** [repr] and [str] of Python, for the texts of matches *)

Module Py.

Definition backslash : ascii := ascii_of_N 92.
Definition single_quote : ascii := ascii_of_N 39.
Definition double_quote : ascii := ascii_of_N 34.

Definition hex_digit (n : N) : ascii :=
  ascii_of_N (if N.ltb n 10 then 48 + n else 87 + n).

(** [c.isprintable()], for a character other than the space. *)
Definition isprintable (c : ascii) : bool :=
  let n := Chr.code c in
  (N.ltb 32 n && N.ltb n 127 || N.ltb 160 n && negb (N.eqb n 173))%bool.

Definition repr_char (quote c : ascii) : string :=
  let n := Chr.code c in
  if (Chr.eqb c quote || Chr.eqb c backslash)%bool then String backslash (String c EmptyString)
  else if N.eqb n 9 then "\t"
  else if N.eqb n 10 then "\n"
  else if N.eqb n 13 then "\r"
  else if (N.eqb n 32 || isprintable c)%bool then String c EmptyString
  else "\x" +:+ String (hex_digit (n / 16)) (String (hex_digit (n mod 16)) EmptyString).

Fixpoint contains (c : ascii) (s : string) : bool :=
  match s with
  | String x r => (Chr.eqb x c || contains c r)%bool
  | EmptyString => false
  end.

Fixpoint repr_body (quote : ascii) (s : string) : string :=
  match s with
  | String x r => repr_char quote x +:+ repr_body quote r
  | EmptyString => EmptyString
  end.

(** [repr(s)] of a str. *)
Definition repr (s : string) : string :=
  let quote := if (contains single_quote s && negb (contains double_quote s))%bool
               then double_quote else single_quote in
  String quote (repr_body quote s) +:+ String quote EmptyString.

(** [str(t)] of a tuple of str. *)
Definition str_tuple (ts : list string) : string :=
  match ts with
  | [t] => "(" +:+ repr t +:+ ",)"
  | _ => "(" +:+ Str.join ", " (map repr ts) +:+ ")"
  end.

End Py.

Module Analysis.

(** What [re.findall] returns for one match: a text, or the tuple of the
    texts of the groups when the pattern has several. *)
Inductive found : Type :=
  | Text (t : string)
  | Tuple (ts : list string).

(** The number of groups of a pattern. *)
Fixpoint groups (r : Re.regex) : nat :=
  match r with
  | Re.RSeq r1 r2 | Re.RAlt r1 r2 => Nat.max (groups r1) (groups r2)
  | Re.RRepeat _ _ _ body | Re.RLookahead body => groups body
  | Re.RGroup idx body => Nat.max idx (groups body)
  | _ => 0
  end.

(** [re.findall(pattern, s, flags)], whatever the number of groups. *)
Definition findall_groups (pattern s : string) (fl : Re.flags) : list found :=
  let n := groups (Re.compile pattern) in
  map (fun m => match n with
                | 0 => Text (Re.m_text m)
                | 1 => Text (default EmptyString (Re.group m 1))
                | _ => Tuple (map (fun idx => default EmptyString (Re.group m idx)) (seq 1 n))
                end)
      (Re.finditer pattern s fl).

(** [str(match)] *)
Definition str (f : found) : string :=
  match f with
  | Text t => t
  | Tuple ts => Py.str_tuple ts
  end.

(** The dicts of [compressible_sections], by their ['type']. *)
Inductive section : Type :=
  | repetitive_line (content : string) (count : Z) (savings_potential : Z)
  | large_code_block (content : string) (size : Z) (savings_potential : Q).

(** [s['savings_potential']] *)
Definition savings_potential (s : section) : Q :=
  match s with
  | repetitive_line _ _ savings => inject_Z savings
  | large_code_block _ _ savings => savings
  end.

Record ContentAnalysis : Type := {
  total_tokens : Z;
  redundant_patterns : list string;
  compressible_sections : list section;
  semantic_density : Q;
  optimization_potential : Q
}.

(** A dict from str to int, its keys in the order of their insertion:
    [d.get(key, 0)] and [d[key] = value]. *)
Fixpoint get (key : string) (d : list (string * Z)) : Z :=
  match d with
  | [] => 0%Z
  | (k, n) :: rest => if String.eqb k key then n else get key rest
  end.

Fixpoint setitem (key : string) (value : Z) (d : list (string * Z)) : list (string * Z) :=
  match d with
  | [] => [(key, value)]
  | (k, n) :: rest =>
      if String.eqb k key then (k, value) :: rest else (k, n) :: setitem key value rest
  end.

(** The first loop over the lines: only substantial lines are counted. *)
Definition count_substantial (lines : list string) : list (string * Z) :=
  fold_left (fun line_counts line =>
               let line_clean := Str.strip line in
               if Nat.ltb 20 (String.length line_clean)
               then setitem line_clean (get line_clean line_counts + 1)%Z line_counts
               else line_counts)
            lines [].

(** [sum(...)] *)
Definition sum_Z (l : list Z) : Z := fold_left Z.add l 0%Z.
Definition sum_Q (l : list Q) : Q := fold_left Qplus l 0%Q.

End Analysis.

(** The flags [re.MULTILINE | re.DOTALL] of the first loop are [Re.dotall]
    here: MULTILINE changes [^] and [$] only, which no pattern of the
    catalog holds.  The scores and the savings of a large block are exact
    values; the code rounds each product, quotient and sum to binary64
    ([1006 * 0.2] is just above [201.2] there). *)
Definition analyze_content (content : string) : Analysis.ContentAnalysis :=
  (* Estimate token count *)
  let estimated_tokens := (len content / chars_per_token)%Z in
  (* Find redundant patterns *)
  let redundant :=
    flat_map (fun pattern => map Analysis.str (Analysis.findall_groups pattern content Re.dotall))
             redundant_patterns in
  (* Long repetitive sections *)
  let lines := Str.split_chr Chr.LF content in
  let line_counts := Analysis.count_substantial lines in
  let repetitive :=
    flat_map (fun '(line, count) =>
                if (2 <? count)%Z
                then [Analysis.repetitive_line line count (len line * (count - 1))%Z]
                else [])
             line_counts in
  (* Large code blocks or data *)
  let code_blocks := Re.findall "```[^`]*```" content Re.dotall in
  let large :=
    flat_map (fun block =>
                if (1000 <? len block)%Z
                then [Analysis.large_code_block (Str.take 100 block +:+ "...") (len block)
                        (inject_Z (len block) * 0.2)%Q]
                else [])
             code_blocks in
  let compressible_sections := repetitive ++ large in
  (* Calculate semantic density (information per character) *)
  let unique_words := words_of content in
  let nonempty := negb (String.eqb content EmptyString) in
  let semantic_density :=
    if nonempty then (inject_Z (Z.of_nat (size unique_words)) / inject_Z (len content))%Q
    else 0%Q in
  (* Calculate optimization potential *)
  let redundancy_score :=
    if nonempty then (inject_Z (Analysis.sum_Z (map len redundant)) / inject_Z (len content))%Q
    else 0%Q in
  let repetition_score :=
    if nonempty
    then (Analysis.sum_Q (map Analysis.savings_potential compressible_sections)
          / inject_Z (len content))%Q
    else 0%Q in
  let optimization_potential := Qmin 0.5 (redundancy_score + repetition_score) in
  {| Analysis.total_tokens := estimated_tokens;
     Analysis.redundant_patterns := redundant;
     Analysis.compressible_sections := compressible_sections;
     Analysis.semantic_density := semantic_density;
     Analysis.optimization_potential := optimization_potential |}.

(** How the analysis reports a stripped line that occurs [n] times. *)
Definition reported (line : string) (n : nat) : Analysis.section :=
  Analysis.repetitive_line line (Z.of_nat n) (len line * (Z.of_nat n - 1))%Z.

(** * Properties *)

(** ** The patterns of the engine *)

Lemma engine_patterns_compile : forallb compiles engine_patterns = true.
Proof. vm_compute. reflexivity. Qed.

(** ** Lengths of strings *)

Lemma app_nil_l (t : string) : EmptyString +:+ t = t.
Proof. reflexivity. Qed.

Lemma app_cons (c : ascii) (s t : string) : String c s +:+ t = String c (s +:+ t).
Proof. reflexivity. Qed.

Lemma length_app (s t : string) :
  String.length (s +:+ t) = String.length s + String.length t.
Proof.
  induction s as [|c s IH]; [reflexivity|].
  rewrite app_cons. simpl. now rewrite IH.
Qed.

Lemma length_rev_app (s acc : string) :
  String.length (String.rev_app s acc) = String.length s + String.length acc.
Proof.
  revert acc. induction s as [|c s IH]; intros acc; [reflexivity|].
  simpl. rewrite IH. simpl. lia.
Qed.

Lemma length_rev (s : string) : String.length (String.rev s) = String.length s.
Proof. unfold String.rev. rewrite length_rev_app. simpl. lia. Qed.

Lemma length_drop (n : nat) (s : string) :
  String.length (Str.drop n s) = String.length s - n.
Proof.
  revert s. induction n as [|n IH]; intros [|c s]; simpl; auto.
Qed.

Lemma drop_drop (n m : nat) (s : string) :
  Str.drop m (Str.drop n s) = Str.drop (n + m) s.
Proof.
  revert s. induction n as [|n IH]; intros s; [reflexivity|].
  destruct s as [|c s]; simpl; [now destruct m|apply IH].
Qed.

(** ** What a match reads

    A successful run of [exec] hands the rest of the pattern a state that
    lies further in the same text, by at least [min_len] characters. *)

Module ReFacts.
Import Re ReSpec.

Lemma ahead_refl (st : mstate) : ahead 0 st st.
Proof. repeat split; simpl; lia. Qed.

Lemma ahead_trans (n m : nat) (a b c : mstate) :
  ahead n a b -> ahead m b c -> ahead (n + m) a c.
Proof.
  intros (Hp & Hr & Hn) (Hp' & Hr' & Hm). repeat split.
  - lia.
  - now rewrite Hr', Hr, drop_drop.
  - rewrite Hr, length_drop in Hm. lia.
Qed.

Lemma ahead_advance (st : mstate) (x : ascii) (rest : string) :
  st_rest st = String x rest -> ahead 1 st (advance st x rest).
Proof.
  intros H. repeat split; simpl.
  - lia.
  - now rewrite H.
  - rewrite H. simpl. lia.
Qed.

Lemma read_text_ahead (t : string) (st st1 : mstate) :
  read_text t st = Some st1 -> ahead (String.length t) st st1.
Proof.
  revert st. induction t as [|c t IH]; intros st H; simpl in H.
  - injection H as <-. apply ahead_refl.
  - destruct (st_rest st) as [|x rest] eqn:E; [discriminate|].
    destruct (Chr.eqb c x); [|discriminate].
    apply IH in H. change (String.length (String c t)) with (1 + String.length t).
    eapply ahead_trans; [|exact H]. now apply ahead_advance.
Qed.

Section Repetition.
Variables (step : mstate -> (mstate -> option mstate) -> option mstate) (body_len : nat).
Hypothesis step_ahead : forall st k res,
  step st k = Some res ->
  exists st1 n, k st1 = Some res /\ ahead n st st1 /\ body_len <= n.

Lemma repeat_loop_ahead (greedy : bool) (lo : nat) (hi : option nat)
    (k : mstate -> option mstate) (fuel count : nat) (st0 res : mstate) :
  repeat_loop step greedy lo hi k fuel count st0 = Some res ->
  exists st1 n, k st1 = Some res /\ ahead n st0 st1 /\ (lo - count) * body_len <= n.
Proof.
  revert count st0. induction fuel as [|fuel IH]; intros count st0 H.
  - assert (Hstop : (if Nat.leb lo count then k st0 else None) = Some res).
    { simpl in H. destruct greedy; simpl in H; exact H || (destruct (if Nat.leb lo count then k st0 else None); [exact H|discriminate]). }
    destruct (Nat.leb lo count) eqn:E; [|discriminate].
    apply Nat.leb_le in E. exists st0, 0. split; [exact Hstop|]. split; [apply ahead_refl|].
    replace (lo - count) with 0 by lia. simpl. lia.
  - assert (Hcases :
      (Nat.leb lo count = true /\ k st0 = Some res) \/
      step st0 (fun st1 => if Nat.ltb (st_pos st0) (st_pos st1)
                           then repeat_loop step greedy lo hi k fuel (S count) st1
                           else None) = Some res).
    { simpl in H. unfold or_else in H.
      destruct greedy.
      - destruct (match hi with Some h => Nat.ltb count h | None => true end).
        + destruct (step st0 _) eqn:E1.
          * right. now rewrite <- H.
          * left. destruct (Nat.leb lo count); [auto|discriminate].
        + left. destruct (Nat.leb lo count); [auto|discriminate].
      - destruct (Nat.leb lo count) eqn:E0.
        + destruct (k st0) eqn:E1.
          * left. now rewrite <- H.
          * destruct (match hi with Some h => Nat.ltb count h | None => true end);
              [right; exact H|discriminate].
        + destruct (match hi with Some h => Nat.ltb count h | None => true end);
            [right; exact H|discriminate]. }
    destruct Hcases as [[E Hk]|Hstep].
    + apply Nat.leb_le in E. exists st0, 0. split; [exact Hk|]. split; [apply ahead_refl|].
      replace (lo - count) with 0 by lia. simpl. lia.
    + apply step_ahead in Hstep. destruct Hstep as (st1 & n1 & Hk1 & Ha1 & Hn1).
      destruct (Nat.ltb (st_pos st0) (st_pos st1)); [|discriminate].
      apply IH in Hk1. destruct Hk1 as (st2 & n2 & Hk2 & Ha2 & Hn2).
      exists st2, (n1 + n2). split; [exact Hk2|]. split; [eapply ahead_trans; eauto|].
      nia.
Qed.
End Repetition.

Lemma exec_ahead (fl : flags) (r : regex) (st : mstate) (k : mstate -> option mstate)
    (res : mstate) :
  exec fl r st k = Some res ->
  exists st1 n, k st1 = Some res /\ ahead n st st1 /\ min_len r <= n.
Proof.
  revert st k res. induction r; intros st k res H; cbn [exec] in H.
  - exists st, 0. split; [exact H|]. split; [apply ahead_refl|simpl; lia].
  - discriminate.
  - destruct (st_rest st) as [|x rest] eqn:E; [discriminate|].
    destruct (lit_matches fl c x); [|discriminate].
    exists (advance st x rest), 1. split; [exact H|]. split; [now apply ahead_advance|simpl; lia].
  - destruct (st_rest st) as [|x rest] eqn:E; [discriminate|].
    destruct (DOTALL fl || negb (Chr.eqb x Chr.LF))%bool; [|discriminate].
    exists (advance st x rest), 1. split; [exact H|]. split; [now apply ahead_advance|simpl; lia].
  - destruct (st_rest st) as [|x rest] eqn:E; [discriminate|].
    destruct (set_matches negated items x); [|discriminate].
    exists (advance st x rest), 1. split; [exact H|]. split; [now apply ahead_advance|simpl; lia].
  - apply IHr1 in H. destruct H as (st1 & n1 & H & Ha1 & Hn1).
    apply IHr2 in H. destruct H as (st2 & n2 & H & Ha2 & Hn2).
    exists st2, (n1 + n2). split; [exact H|]. split; [eapply ahead_trans; eauto|simpl; lia].
  - unfold or_else in H. destruct (exec fl r1 st k) eqn:E.
    + rewrite H in E. apply IHr1 in E. destruct E as (st1 & n & Hk & Ha & Hn).
      exists st1, n. split; [exact Hk|]. split; [exact Ha|simpl; lia].
    + apply IHr2 in H. destruct H as (st1 & n & Hk & Ha & Hn).
      exists st1, n. split; [exact Hk|]. split; [exact Ha|simpl; lia].
  - apply (repeat_loop_ahead (exec fl r) (min_len r)) in H; [|exact IHr].
    destruct H as (st1 & n & Hk & Ha & Hn).
    exists st1, n. split; [exact Hk|]. split; [exact Ha|]. simpl. now rewrite Nat.sub_0_r in Hn.
  - apply IHr in H. destruct H as (st1 & n & Hk & Ha & Hn).
    exists (close_group idx st st1), n. split; [exact Hk|]. split; [exact Ha|simpl; lia].
  - destruct (lookup_group idx (st_groups st)) as [t|]; [|discriminate].
    destruct (read_text t st) as [st1|] eqn:E; [|discriminate].
    exists st1, (String.length t). split; [exact H|]. split; [now apply read_text_ahead|simpl; lia].
  - destruct (exec fl r st (fun st1 => Some st1)) as [st1|]; [|discriminate].
    eexists _, 0. split; [exact H|]. split; [repeat split; simpl; lia|simpl; lia].
  - destruct (at_boundary st); [|discriminate].
    exists st, 0. split; [exact H|]. split; [apply ahead_refl|simpl; lia].
  - destruct (st_rest st) eqn:E; [|discriminate].
    exists st, 0. split; [exact H|]. split; [apply ahead_refl|simpl; lia].
Qed.

End ReFacts.

(** ** Substitution by a text no longer than the matches *)

Module SubFacts.
Import Re ReSpec ReFacts.

Lemma match_here_ahead (fl : flags) (r : regex) (prev : option ascii) (rest : string)
    (pos : nat) (must_advance : bool) (m : Match) :
  match_here fl r prev rest pos must_advance = Some m ->
  exists n, m_tail m = Str.drop n rest /\ n <= String.length rest /\ min_len r <= n.
Proof.
  unfold match_here. intros H.
  destruct (exec _ _ _ _) as [st1|] eqn:E; [|discriminate].
  injection H as <-. simpl.
  apply exec_ahead in E. destruct E as (st2 & n & Hk & (Hp & Hr & Hn) & Hm).
  simpl in *. destruct (must_advance && Nat.eqb (st_pos st2) pos)%bool; [discriminate|].
  injection Hk as <-. now exists n.
Qed.

Section Sub.
Variables (fl : flags) (r : regex) (repl : string).
Hypothesis repl_short : String.length repl <= min_len r.

Lemma scan_sub_length (fuel : nat) (prev : option ascii) (rest : string) (pos : nat)
    (must_advance : bool) (skipped : string) :
  String.length (let '(ms, tail) := scan fl r fuel prev rest pos must_advance skipped in
                 sub_pieces (fun _ => repl) ms tail)
  <= String.length skipped + String.length rest.
Proof.
  revert prev rest pos must_advance skipped.
  induction fuel as [|fuel IH]; intros prev rest pos must_advance skipped; simpl.
  - rewrite length_app, length_rev. lia.
  - destruct (match_here fl r prev rest pos must_advance) as [m|] eqn:E.
    + apply match_here_ahead in E. destruct E as (n & Ht & Hn & Hm).
      specialize (IH (m_prev_end m) (m_tail m) (m_end m) (Nat.eqb (m_end m) pos) EmptyString).
      destruct (scan fl r fuel _ _ _ _ _) as [ms tail]. simpl.
      rewrite !length_app, length_rev. rewrite Ht, length_drop in IH. simpl in IH. lia.
    + destruct rest as [|c rest'].
      * simpl. rewrite length_rev. lia.
      * specialize (IH (Some c) rest' (S pos) false (String c skipped)).
        simpl in IH. simpl. lia.
Qed.
End Sub.

Lemma sub_length (pattern repl s : string) (fl : flags) :
  String.length repl <= min_len (compile pattern) ->
  String.length (sub pattern repl s fl) <= String.length s.
Proof.
  intros H. unfold sub, sub_with, scan_all.
  pose proof (scan_sub_length fl (compile pattern) repl H
                (2 * String.length s + 2) None s 0 false EmptyString) as L.
  destruct (scan _ _ _ _ _ _ _ _) as [ms tail]. simpl in L. exact L.
Qed.

End SubFacts.

(** ** Lines: [split] and [join] *)

Lemma split_chr_total (sep : ascii) (s : string) :
  total_len (Str.split_chr sep s) = String.length s + 1.
Proof.
  induction s as [|c s IH]; [reflexivity|].
  simpl. destruct (Chr.eqb c sep).
  - simpl. rewrite IH. lia.
  - destruct (Str.split_chr sep s) as [|w ws]; simpl in *; lia.
Qed.

Lemma join_total (sep : string) (ls : list string) :
  String.length sep = 1 -> ls <> [] ->
  String.length (Str.join sep ls) + 1 = total_len ls.
Proof.
  intros Hsep. induction ls as [|l ls IH]; [congruence|]. intros _.
  destruct ls as [|l' ls].
  - simpl. lia.
  - change (Str.join sep (l :: l' :: ls)) with (l +:+ sep +:+ Str.join sep (l' :: ls)).
    rewrite !length_app. change (total_len (l :: l' :: ls))
      with (String.length l + 1 + total_len (l' :: ls)).
    rewrite <- IH by discriminate. lia.
Qed.

Lemma total_len_map (f : string -> string) (ls : list string) :
  (forall l, String.length (f l) <= String.length l) ->
  total_len (map f ls) <= total_len ls.
Proof.
  intros Hf. induction ls as [|l ls IH]; simpl; [lia|]. specialize (Hf l). lia.
Qed.

Lemma split_chr_nonempty (sep : ascii) (s : string) : Str.split_chr sep s <> [].
Proof.
  destruct s as [|c s]; simpl; [discriminate|].
  destruct (Chr.eqb c sep); [discriminate|]. destruct (Str.split_chr sep s); discriminate.
Qed.

(** Rewriting each line by a function that never lengthens a line does
    not lengthen the text. *)
Lemma map_lines_length (f : string -> string) (s : string) :
  (forall l, String.length (f l) <= String.length l) ->
  String.length (Str.join Str.nl (map f (Str.split_chr Chr.LF s))) <= String.length s.
Proof.
  intros Hf.
  assert (Hne : map f (Str.split_chr Chr.LF s) <> []).
  { pose proof (split_chr_nonempty Chr.LF s). destruct (Str.split_chr Chr.LF s); [congruence|discriminate]. }
  pose proof (join_total Str.nl _ eq_refl Hne) as Hj.
  pose proof (total_len_map f (Str.split_chr Chr.LF s) Hf) as Hm.
  rewrite split_chr_total in Hm. lia.
Qed.

(** ** semantic_condensation never lengthens the text *)

Lemma condense_line_length (line : string) :
  String.length (condense_line line) <= String.length line.
Proof.
  unfold condense_line. destruct (negb (is_technical line) && negb (is_list_item line))%bool; [|lia].
  etransitivity; [apply SubFacts.sub_length; vm_compute; lia|].
  apply SubFacts.sub_length. vm_compute. lia.
Qed.

Lemma fold_sub_length (fl : Re.flags) (pairs : list (string * string)) (s : string) :
  forallb (fun '(p, r) => Nat.leb (String.length r) (ReSpec.min_len (Re.compile p))) pairs = true ->
  String.length (fold_left (fun content '(p, r) => Re.sub p r content fl) pairs s)
  <= String.length s.
Proof.
  revert s. induction pairs as [|[p r] pairs IH]; intros s H; simpl; [lia|].
  simpl in H. apply andb_prop in H. destruct H as [H1 H2].
  etransitivity; [apply IH; exact H2|].
  apply SubFacts.sub_length. now apply Nat.leb_le.
Qed.

Lemma condense_length (content : string) :
  String.length (condense content) <= String.length content.
Proof.
  unfold condense.
  etransitivity; [apply map_lines_length, condense_line_length|].
  apply fold_sub_length. vm_compute. reflexivity.
Qed.

(** ** The preservation factor of each strategy *)

Lemma len_nonneg (s : string) : (0 <= len s)%Z.
Proof. unfold len. lia. Qed.

Lemma len_empty (s : string) : len s = 0%Z -> s = EmptyString.
Proof. unfold len. destruct s; simpl; [reflexivity|lia]. Qed.

Lemma quotient_nonneg (a b : Z) : (0 <= a)%Z -> (0 <= b)%Z -> (0 <= inject_Z a / inject_Z b)%Q.
Proof.
  intros Ha Hb. unfold Qdiv. apply Qmult_le_0_compat.
  - change 0%Q with (inject_Z 0). now rewrite <- Zle_Qle.
  - apply Qinv_le_0_compat. change 0%Q with (inject_Z 0). now rewrite <- Zle_Qle.
Qed.

Lemma semantic_condensation_nonempty (content : string) :
  content <> EmptyString ->
  semantic_condensation content =
  Returns (condense content,
           Qmax 0.95 (1.0 - (inject_Z (len content - len (condense content))
                             / inject_Z (len content)) * 2)%Q).
Proof.
  intros Hne. unfold semantic_condensation, true_div.
  destruct (Z.eqb (len content) 0) eqn:E; [|reflexivity].
  apply Z.eqb_eq, len_empty in E. contradiction.
Qed.

Lemma semantic_condensation_factor (content c' : string) (f : Q) :
  semantic_condensation content = Returns (c', f) -> (0.95 <= f /\ f <= 1)%Q.
Proof.
  intros H. destruct content as [|x content]; [discriminate|].
  rewrite semantic_condensation_nonempty in H by discriminate.
  injection H as _ <-. split; [apply Q.le_max_l|].
  apply Q.max_lub; [lra|].
  pose proof (condense_length (String x content)) as L.
  assert (0 <= inject_Z (len (String x content) - len (condense (String x content)))
               / inject_Z (len (String x content)))%Q as Hq.
  { apply quotient_nonneg; unfold len; lia. }
  lra.
Qed.

Lemma context_deduplication_factor (content : string) :
  (0 <= snd (context_deduplication content) /\ snd (context_deduplication content) <= 1)%Q.
Proof.
  unfold context_deduplication. simpl. split.
  - apply Q.min_glb; [lra|]. destruct (Nat.ltb 0 _); [apply quotient_nonneg; lia|lra].
  - eapply Qle_trans; [apply Q.le_min_l|lra].
Qed.

Lemma returns_snd {A B : Type} (x : A * B) (a : A) (b : B) :
  Returns x = Returns (a, b) -> snd x = b.
Proof. intros H. injection H as ->. reflexivity. Qed.

Lemma compress_whitespace_factor (content : string) :
  snd (compress_whitespace content) = 1.0%Q.
Proof. reflexivity. Qed.

Lemma eliminate_redundancy_factor (content : string) :
  snd (eliminate_redundancy content) = 0.99%Q.
Proof. reflexivity. Qed.

Lemma pattern_abstraction_factor (content : string) :
  snd (pattern_abstraction content) = 0.98%Q.
Proof. reflexivity. Qed.

Lemma aggressive_compression_factor (content : string) :
  snd (aggressive_compression content) = 0.90%Q.
Proof. reflexivity. Qed.

Lemma apply_strategy_factor (s : strategy) (content c' : string) (f : Q) :
  apply_strategy s content = Returns (c', f) -> (0 <= f /\ f <= 1)%Q.
Proof.
  destruct s; cbn [apply_strategy]; intros H.
  - apply returns_snd in H. rewrite compress_whitespace_factor in H. subst f. lra.
  - apply returns_snd in H. rewrite eliminate_redundancy_factor in H. subst f. lra.
  - apply semantic_condensation_factor in H. lra.
  - apply returns_snd in H. rewrite pattern_abstraction_factor in H. subst f. lra.
  - apply returns_snd in H. subst f. apply context_deduplication_factor.
  - apply returns_snd in H. rewrite aggressive_compression_factor in H. subst f. lra.
Qed.

(** ** One pass through the loop *)

Lemma last_cons {A : Type} (a d : A) (l : list A) : List.last (a :: l) d = List.last l a.
Proof.
  revert a d. induction l as [|b l IH]; intros a d; [reflexivity|].
  change (List.last (a :: b :: l) d) with (List.last (b :: l) d).
  now rewrite (IH b d), (IH b a).
Qed.

Section Loop.
Variables (original_size : Z) (target_reduction : Q) (max_time : Z) (elapsed : nat -> Z).

Lemma loop_body_step (i : nat) (s : strategy) (p : pipeline) :
  let p' := flow_pipeline (loop_body original_size target_reduction max_time elapsed i s p) in
  (p' = p) \/
  (exists content f,
     apply_strategy s (compressed_content p) = Returns (content, f) /\
     p' = {| compressed_content := content;
             overall_preservation := (overall_preservation p * f)%Q;
             methods := methods p ++ [s] |}).
Proof.
  unfold loop_body. destruct (Z.leb max_time (elapsed i)); [now left|].
  destruct (apply_strategy s (compressed_content p)) as [[content f]|e] eqn:E; [|now left].
  right. exists content, f. split; [reflexivity|].
  destruct (true_div (len content) original_size) as [q|]; [|reflexivity].
  now destruct (Qle_bool target_reduction (1 - q)).
Qed.

Lemma loop_body_score (i : nat) (s : strategy) (p : pipeline) :
  (0 <= overall_preservation p)%Q ->
  let p' := flow_pipeline (loop_body original_size target_reduction max_time elapsed i s p) in
  (0 <= overall_preservation p')%Q /\
  (overall_preservation p' <= overall_preservation p)%Q /\
  exists added, methods p' = methods p ++ added.
Proof.
  intros H0. destruct (loop_body_step i s p) as [E|(content & f & Happ & E)];
    cbv zeta; rewrite E.
  - repeat split; [exact H0|lra|]. exists []. now rewrite app_nil_r.
  - apply apply_strategy_factor in Happ. simpl. repeat split; [nra|nra|]. now exists [s].
Qed.

Lemma run_trace_scores (selected : list strategy) (i : nat) (p : pipeline) :
  (0 <= overall_preservation p)%Q ->
  let trace := run_trace original_size target_reduction max_time elapsed i selected p in
  non_increasing (map overall_preservation (p :: trace)) /\
  extending (map methods (p :: trace)) /\
  (0 <= overall_preservation (List.last trace p))%Q /\
  (overall_preservation (List.last trace p) <= overall_preservation p)%Q.
Proof.
  revert i p. induction selected as [|s rest IH]; intros i p H0; cbv zeta.
  - simpl. repeat split; [exact H0|lra].
  - pose proof (loop_body_score i s p H0) as (H1 & H2 & H3). cbv zeta in *.
    simpl run_trace.
    destruct (loop_body original_size target_reduction max_time elapsed i s p) as [p'|p'];
      simpl in H1, H2, H3.
    + simpl. repeat split; auto.
    + specialize (IH (S i) p' H1). cbv zeta in IH. destruct IH as (I1 & I2 & I3 & I4).
      rewrite last_cons.
      split; [|split; [|split]].
      * split; [exact H2|exact I1].
      * split; [exact H3|exact I2].
      * exact I3.
      * lra.
Qed.

Lemma run_strategies_last (selected : list strategy) (i : nat) (p : pipeline) :
  run_strategies original_size target_reduction max_time elapsed i selected p =
  List.last (run_trace original_size target_reduction max_time elapsed i selected p) p.
Proof.
  revert i p. induction selected as [|s rest IH]; intros i p; [reflexivity|].
  simpl. destruct (loop_body _ _ _ _ _ _ _) as [p'|p']; [reflexivity|].
  now rewrite last_cons, IH.
Qed.

Lemma run_strategies_methods (selected : list strategy) (i : nat) (p : pipeline) (x : strategy) :
  In x (methods (run_strategies original_size target_reduction max_time elapsed i selected p)) ->
  In x (methods p) \/ In x selected.
Proof.
  revert i p. induction selected as [|s rest IH]; intros i p H; [now left|].
  simpl in H.
  destruct (loop_body_step i s p) as [E|(content & f & _ & E)]; cbv zeta in E;
    destruct (loop_body _ _ _ _ _ _ _) as [p'|p']; simpl in E; subst p'.
  - now left.
  - apply IH in H. destruct H; [now left|right; now right].
  - simpl in H. apply in_app_or in H. destruct H as [H|[H|[]]]; [now left|right; now left].
  - apply IH in H. simpl in H. destruct H as [H|H]; [|right; now right].
    apply in_app_or in H. destruct H as [H|[H|[]]]; [now left|right; now left].
Qed.
End Loop.

(** ** The selector *)

Lemma Qle_bool_true (x y : Q) : (x <= y)%Q -> Qle_bool x y = true.
Proof. apply Qle_bool_iff. Qed.

Lemma Qle_bool_false (x y : Q) : (y < x)%Q -> Qle_bool x y = false.
Proof.
  intros H. destruct (Qle_bool x y) eqn:E; [|reflexivity].
  apply Qle_bool_iff in E. lra.
Qed.

(** C4. The selection depends on [target_reduction] and [aggressive_mode]
    only, and equal targets select the same strategies.  In aggressive
    mode it is aggressive_compression, context_deduplication,
    semantic_condensation, whitespace_optimization.  Otherwise a target of
    at most 0.10 selects whitespace_optimization alone, and each further
    tier (at most 0.20, at most 0.30, above 0.30) appends one strategy to
    the tier before it: redundancy_elimination, then
    semantic_condensation, then pattern_abstraction. *)
Theorem select_strategies_tiers (target_reduction : Q) :
  let tier1 := [whitespace_optimization] in
  let tier2 := tier1 ++ [redundancy_elimination] in
  let tier3 := tier2 ++ [semantic_condensation_] in
  let tier4 := tier3 ++ [pattern_abstraction_] in
  select_strategies target_reduction true =
    [aggressive_compression_; context_deduplication_;
     semantic_condensation_; whitespace_optimization] /\
  ((target_reduction <= 0.10)%Q -> select_strategies target_reduction false = tier1) /\
  ((0.10 < target_reduction)%Q -> (target_reduction <= 0.20)%Q ->
   select_strategies target_reduction false = tier2) /\
  ((0.20 < target_reduction)%Q -> (target_reduction <= 0.30)%Q ->
   select_strategies target_reduction false = tier3) /\
  ((0.30 < target_reduction)%Q -> select_strategies target_reduction false = tier4) /\
  (forall t' aggressive_mode, (t' == target_reduction)%Q ->
     select_strategies t' aggressive_mode = select_strategies target_reduction aggressive_mode).
Proof.
  cbv zeta. unfold select_strategies. simpl negb. cbv iota.
  split; [reflexivity|]. split; [|split; [|split; [|split]]].
  - intros H. now rewrite Qle_bool_true.
  - intros H1 H2. now rewrite Qle_bool_false, Qle_bool_true.
  - intros H1 H2. rewrite Qle_bool_false, Qle_bool_false, Qle_bool_true; auto; lra.
  - intros H. rewrite !Qle_bool_false; auto; lra.
  - intros t' a E. now rewrite !E.
Qed.

Lemma select_strategies_tiers_witness :
  select_strategies 0.05 false = [whitespace_optimization] /\
  select_strategies 0.15 false = [whitespace_optimization; redundancy_elimination] /\
  select_strategies 0.25 false
    = [whitespace_optimization; redundancy_elimination; semantic_condensation_] /\
  select_strategies 0.50 false
    = [whitespace_optimization; redundancy_elimination; semantic_condensation_;
       pattern_abstraction_].
Proof.
  split; [|split; [|split]].
  - apply (select_strategies_tiers 0.05). lra.
  - apply (select_strategies_tiers 0.15); lra.
  - apply (select_strategies_tiers 0.25); lra.
  - apply (select_strategies_tiers 0.50). lra.
Defined.

(** ** The loop of compress_content *)

(** C2. Along the passes of the loop of [compress_content] the running
    preservation score never increases, while [method_used] only grows at
    its end; the score the result reports is the one the last pass left,
    and it lies between 0 and 1. *)
Theorem preservation_score_non_increasing (md5_hexdigest : string -> string)
    (content : string) (target_reduction : Q) (max_time : Z) (aggressive_mode : bool)
    (elapsed : nat -> Z) (total_seconds : Q) :
  let trace := initial content ::
               run_trace (len content) target_reduction max_time elapsed 0
                 (select_strategies target_reduction aggressive_mode) (initial content) in
  let result := compute_result md5_hexdigest content target_reduction max_time
                  aggressive_mode elapsed total_seconds in
  non_increasing (map overall_preservation trace) /\
  extending (map methods trace) /\
  preservation_score result = overall_preservation (List.last trace (initial content)) /\
  (0 <= preservation_score result)%Q /\ (preservation_score result <= 1)%Q.
Proof.
  cbv zeta.
  assert (H0 : (0 <= overall_preservation (initial content))%Q) by (simpl; lra).
  pose proof (run_trace_scores (len content) target_reduction max_time elapsed
                (select_strategies target_reduction aggressive_mode) 0 (initial content) H0)
    as (T1 & T2 & T3 & T4).
  cbv zeta in *. rewrite last_cons.
  unfold compute_result. cbn [preservation_score]. rewrite run_strategies_last.
  repeat split; auto.
  change (overall_preservation (initial content)) with 1.0%Q in T4. lra.
Qed.

(** ** A strategy that raises *)

(** In the engine only [semantic_condensation] can raise. *)
Lemma apply_strategy_raises (s : strategy) (content : string) (e : exn) :
  apply_strategy s content = Raises e -> s = semantic_condensation_.
Proof. destruct s; cbn [apply_strategy]; intros H; solve [reflexivity | discriminate H]. Qed.

Section Passes.
Variables (original_size : Z) (target_reduction : Q) (max_time : Z) (elapsed : nat -> Z).

(** A pass whose strategy returns, the time not being up, applies it. *)
Lemma loop_body_applies (i : nat) (s : strategy) (p : pipeline) (content : string) (f : Q) :
  (elapsed i < max_time)%Z ->
  apply_strategy s (compressed_content p) = Returns (content, f) ->
  flow_pipeline (loop_body original_size target_reduction max_time elapsed i s p)
  = {| compressed_content := content;
       overall_preservation := (overall_preservation p * f)%Q;
       methods := methods p ++ [s] |}.
Proof.
  intros Ht Hs. unfold loop_body. rewrite Hs.
  assert (L : Z.leb max_time (elapsed i) = false) by (apply Z.leb_gt; exact Ht).
  rewrite L. destruct (true_div (len content) original_size) as [q|]; [|reflexivity].
  now destruct (Qle_bool target_reduction (1 - q)).
Qed.

(** A target above 1 is never reached: such a pass does not end the loop. *)
Lemma loop_body_goes_on (i : nat) (s : strategy) (p : pipeline) :
  (0 <= original_size)%Z -> (1 < target_reduction)%Q -> (elapsed i < max_time)%Z ->
  loop_body original_size target_reduction max_time elapsed i s p
  = Next (flow_pipeline (loop_body original_size target_reduction max_time elapsed i s p)).
Proof.
  intros H0 H1 Ht. unfold loop_body.
  assert (L : Z.leb max_time (elapsed i) = false) by (apply Z.leb_gt; exact Ht).
  rewrite L. destruct (apply_strategy s (compressed_content p)) as [[content f]|e]; [|reflexivity].
  unfold true_div. destruct (Z.eqb original_size 0); [reflexivity|].
  pose proof (quotient_nonneg (len content) original_size (len_nonneg content) H0) as Hq.
  rewrite Qle_bool_false; [reflexivity|lra].
Qed.

(** The loop never takes a name off [method_used]. *)
Lemma run_strategies_keeps (selected : list strategy) (i : nat) (p : pipeline) (x : strategy) :
  In x (methods p) ->
  In x (methods (run_strategies original_size target_reduction max_time elapsed i selected p)).
Proof.
  revert i p. induction selected as [|s rest IH]; intros i p H; [exact H|].
  cbn [run_strategies].
  assert (H' : In x (methods (flow_pipeline
                 (loop_body original_size target_reduction max_time elapsed i s p)))).
  { destruct (loop_body_step original_size target_reduction max_time elapsed i s p)
      as [E|(content & f & _ & E)]; cbv zeta in E; rewrite E; [exact H|].
    cbn [methods]. apply in_or_app. now left. }
  destruct (loop_body _ _ _ _ _ _ _) as [p'|p']; cbn [flow_pipeline] in H'; [exact H'|].
  now apply IH.
Qed.

(** When the time is never up and the target is above 1, every selected
    strategy that cannot raise is applied. *)
Lemma run_strategies_all (selected : list strategy) (i : nat) (p : pipeline) (x : strategy) :
  (0 <= original_size)%Z -> (1 < target_reduction)%Q ->
  (forall j, (elapsed j < max_time)%Z) ->
  In x selected -> x <> semantic_condensation_ ->
  In x (methods (run_strategies original_size target_reduction max_time elapsed i selected p)).
Proof.
  intros H0 H1 Ht. revert i p.
  induction selected as [|s rest IH]; intros i p Hin Hx; [destruct Hin|].
  cbn [run_strategies]. rewrite (loop_body_goes_on i s p H0 H1 (Ht i)).
  destruct Hin as [->|Hin]; [|now apply IH].
  apply run_strategies_keeps.
  destruct (apply_strategy x (compressed_content p)) as [[content f]|e] eqn:E.
  - rewrite (loop_body_applies i x p content f (Ht i) E). cbn [methods].
    apply in_or_app. right. now left.
  - apply apply_strategy_raises in E. contradiction.
Qed.
End Passes.

(** C3. When the strategy at the head of the remaining selection raises,
    the pass leaves the working content, the running score and
    [method_used] as they were, and the loop goes on with the strategies
    that remain, from the same state: the failing strategy is absent from
    [method_used] at the end (when it was not applied before and is not
    selected again); the next strategy is applied to the content as it
    was, unless the time is up at the head of its pass, and is then named
    in [method_used]; and when the time is never up and the target is
    above 1, so that it is never reached, every remaining strategy other
    than the failing one runs and is named in [method_used]. *)
Theorem failed_strategy_is_skipped (original_size : Z) (target_reduction : Q) (max_time : Z)
    (elapsed : nat -> Z) (i : nat) (s : strategy) (rest : list strategy) (p : pipeline)
    (e : exn) :
  (elapsed i < max_time)%Z ->
  apply_strategy s (compressed_content p) = Raises e ->
  let run := run_strategies original_size target_reduction max_time elapsed in
  loop_body original_size target_reduction max_time elapsed i s p = Next p /\
  run i (s :: rest) p = run (S i) rest p /\
  (~ In s (methods p) -> ~ In s rest -> ~ In s (methods (run i (s :: rest) p))) /\
  (forall next later content f,
     rest = next :: later ->
     (elapsed (S i) < max_time)%Z ->
     apply_strategy next (compressed_content p) = Returns (content, f) ->
     flow_pipeline (loop_body original_size target_reduction max_time elapsed (S i) next p)
     = {| compressed_content := content;
          overall_preservation := (overall_preservation p * f)%Q;
          methods := methods p ++ [next] |} /\
     In next (methods (run i (s :: rest) p))) /\
  ((0 <= original_size)%Z -> (1 < target_reduction)%Q ->
   (forall j, (elapsed j < max_time)%Z) ->
   forall other, In other rest -> other <> s -> In other (methods (run i (s :: rest) p))).
Proof.
  intros Ht Hr. cbv zeta.
  assert (E : loop_body original_size target_reduction max_time elapsed i s p = Next p).
  { unfold loop_body. rewrite Hr. destruct (Z.leb max_time (elapsed i)) eqn:L; [|reflexivity].
    apply Z.leb_le in L. lia. }
  assert (R : run_strategies original_size target_reduction max_time elapsed i (s :: rest) p
              = run_strategies original_size target_reduction max_time elapsed (S i) rest p)
    by (cbn [run_strategies]; now rewrite E).
  split; [exact E|]. split; [exact R|]. rewrite R. split; [|split].
  - intros Hp Hrest Hin. apply run_strategies_methods in Hin. tauto.
  - intros next later content f -> Hnext Happ.
    pose proof (loop_body_applies original_size target_reduction max_time elapsed
                  (S i) next p content f Hnext Happ) as A.
    split; [exact A|]. cbn [run_strategies].
    destruct (loop_body original_size target_reduction max_time elapsed (S i) next p)
      as [p'|p']; cbn [flow_pipeline] in A; subst p'.
    + cbn [methods]. apply in_or_app. right. now left.
    + apply run_strategies_keeps. cbn [methods]. apply in_or_app. right. now left.
  - intros H0 H1 Hall other Hin Hne. apply run_strategies_all; auto.
    apply apply_strategy_raises in Hr. congruence.
Qed.

Lemma failed_strategy_is_skipped_witness :
  let p := {| compressed_content := EmptyString; overall_preservation := 0.99%Q;
              methods := [whitespace_optimization; redundancy_elimination] |} in
  let run := run_strategies 1 2 30 frozen in
  loop_body 1 2 30 frozen 2 semantic_condensation_ p = Next p /\
  run 2 [semantic_condensation_; pattern_abstraction_] p = run 3 [pattern_abstraction_] p /\
  ~ In semantic_condensation_ (methods (run 2 [semantic_condensation_; pattern_abstraction_] p)) /\
  flow_pipeline (loop_body 1 2 30 frozen 3 pattern_abstraction_ p)
  = {| compressed_content := EmptyString;
       overall_preservation := (0.99 * 0.98)%Q;
       methods := [whitespace_optimization; redundancy_elimination; pattern_abstraction_] |} /\
  In pattern_abstraction_ (methods (run 2 [semantic_condensation_; pattern_abstraction_] p)).
Proof.
  cbv zeta.
  pose proof (failed_strategy_is_skipped 1 2 30 frozen 2 semantic_condensation_
                [pattern_abstraction_]
                {| compressed_content := EmptyString; overall_preservation := 0.99%Q;
                   methods := [whitespace_optimization; redundancy_elimination] |}
                ZeroDivisionError eq_refl eq_refl) as (H1 & H2 & H3 & H4 & H5).
  cbv zeta in *.
  split; [exact H1|]. split; [exact H2|]. split; [apply H3; simpl; intuition discriminate|].
  destruct (H4 pattern_abstraction_ [] EmptyString 0.98%Q eq_refl eq_refl eq_refl) as [A B].
  split; [exact A|exact B].
Defined.

(** C3, as the specification has it, fails on its last part: a strategy
    that remains after the failing one does not run when the time is up
    at the head of its pass.  On a content of one space, with a target of
    2, a limit of 3 seconds and a clock that reads one second more at each
    pass, [semantic_condensation] raises at the third pass, on the empty
    working content, and [pattern_abstraction], selected after it, is
    never applied. *)
Lemma remaining_strategy_not_run :
  let selected := select_strategies 2 false in
  let before := run_strategies 1 2 3 ticking 0
                  [whitespace_optimization; redundancy_elimination] (initial " ") in
  let result := compute_result no_digest " " 2 3 false ticking 0 in
  selected = [whitespace_optimization; redundancy_elimination; semantic_condensation_;
              pattern_abstraction_] /\
  compressed_content before = EmptyString /\
  (ticking 2 < 3)%Z /\
  apply_strategy semantic_condensation_ (compressed_content before) = Raises ZeroDivisionError /\
  apply_strategy pattern_abstraction_ (compressed_content before)
  = Returns (EmptyString, 0.98%Q) /\
  method_used result = "whitespace_optimization, redundancy_elimination" /\
  ~ In pattern_abstraction_
       (methods (run_strategies 1 2 3 ticking 0 selected (initial " "))).
Proof.
  cbv zeta. repeat split; try (vm_compute; reflexivity).
  assert (E : methods (run_strategies 1 2 3 ticking 0 (select_strategies 2 false) (initial " "))
              = [whitespace_optimization; redundancy_elimination]) by (vm_compute; reflexivity).
  rewrite E. simpl. intuition discriminate.
Qed.

(** ** The result cache *)

Section Cache.
Variables (md5_hexdigest : string -> string) (format_float : Q -> string).

Lemma compress_content_hit (compression_cache : gmap string CompressionResult)
    (content : string) (target_reduction : Q) (max_time : Z) (aggressive_mode : bool)
    (elapsed : nat -> Z) (total_seconds : Q) (cached : CompressionResult) :
  compression_cache !! cache_key md5_hexdigest format_float content target_reduction
                                 aggressive_mode = Some cached ->
  compress_content md5_hexdigest format_float compression_cache content target_reduction
                   max_time aggressive_mode elapsed total_seconds
  = (cached, compression_cache).
Proof. intros H. unfold compress_content. now rewrite H. Qed.

Lemma compress_content_stores (compression_cache : gmap string CompressionResult)
    (content : string) (target_reduction : Q) (max_time : Z) (aggressive_mode : bool)
    (elapsed : nat -> Z) (total_seconds : Q) :
  let call := compress_content md5_hexdigest format_float compression_cache content
                target_reduction max_time aggressive_mode elapsed total_seconds in
  snd call !! cache_key md5_hexdigest format_float content target_reduction aggressive_mode
  = Some (fst call).
Proof.
  cbv zeta. unfold compress_content.
  destruct (compression_cache !! _) as [cached|] eqn:E; cbn [fst snd].
  - exact E.
  - apply lookup_insert_eq.
Qed.

Lemma cache_ok_empty : cache_ok md5_hexdigest ∅.
Proof. intros key r H. rewrite lookup_empty in H. discriminate. Qed.

Lemma compress_content_cache_ok (compression_cache : gmap string CompressionResult)
    (content : string) (target_reduction : Q) (max_time : Z) (aggressive_mode : bool)
    (elapsed : nat -> Z) (total_seconds : Q) :
  cache_ok md5_hexdigest compression_cache ->
  cache_ok md5_hexdigest
    (snd (compress_content md5_hexdigest format_float compression_cache content
            target_reduction max_time aggressive_mode elapsed total_seconds)).
Proof.
  intros Hok. unfold compress_content.
  destruct (compression_cache !! _) as [cached|] eqn:E; cbn [snd]; [exact Hok|].
  intros key r H. rewrite lookup_insert in H. destruct (decide _) as [Heq|Hne].
  - injection H as <-. now eexists _, _, _, _, _, _.
  - now apply Hok in H.
Qed.

Lemma compress_content_computed (compression_cache : gmap string CompressionResult)
    (content : string) (target_reduction : Q) (max_time : Z) (aggressive_mode : bool)
    (elapsed : nat -> Z) (total_seconds : Q) :
  cache_ok md5_hexdigest compression_cache ->
  exists content' target_reduction' max_time' aggressive_mode' elapsed' total_seconds',
    fst (compress_content md5_hexdigest format_float compression_cache content
           target_reduction max_time aggressive_mode elapsed total_seconds)
    = compute_result md5_hexdigest content' target_reduction' max_time' aggressive_mode'
                     elapsed' total_seconds'.
Proof.
  intros Hok. unfold compress_content.
  destruct (compression_cache !! _) as [cached|] eqn:E; cbn [fst].
  - now apply Hok in E.
  - now eexists _, _, _, _, _, _.
Qed.
End Cache.

(** C5. Two calls with the same content, target reduction and aggressive
    mode return the same result, field by field: the first call leaves its
    result in the cache under the key of the call, and the second returns
    that entry and leaves the cache as it found it. *)
Theorem cache_determinism (md5_hexdigest : string -> string) (format_float : Q -> string)
    (compression_cache : gmap string CompressionResult)
    (content : string) (target_reduction : Q) (max_time : Z) (aggressive_mode : bool)
    (elapsed1 elapsed2 : nat -> Z) (total_seconds1 total_seconds2 : Q) :
  let first := compress_content md5_hexdigest format_float compression_cache content
                 target_reduction max_time aggressive_mode elapsed1 total_seconds1 in
  let second := compress_content md5_hexdigest format_float (snd first) content
                  target_reduction max_time aggressive_mode elapsed2 total_seconds2 in
  snd first !! cache_key md5_hexdigest format_float content target_reduction aggressive_mode
    = Some (fst first) /\
  fst second = fst first /\
  snd second = snd first /\
  content_hash (fst second) = content_hash (fst first) /\
  method_used (fst second) = method_used (fst first).
Proof.
  cbv zeta.
  pose proof (compress_content_stores md5_hexdigest format_float compression_cache content
                target_reduction max_time aggressive_mode elapsed1 total_seconds1) as Hs.
  cbv zeta in Hs. split; [exact Hs|].
  rewrite (compress_content_hit _ _ _ _ _ _ _ _ _ _ Hs). cbn [fst snd]. auto.
Qed.

(** C6. The cache key is made of the digest of the content, the target
    reduction and the aggressive mode, and of nothing else; a call that
    follows a call on the same content, target reduction and aggressive
    mode returns what the first call returned, whatever [max_time] (and
    clock) either call is given. *)
Theorem max_time_ignored_on_hit (md5_hexdigest : string -> string) (format_float : Q -> string)
    (compression_cache : gmap string CompressionResult)
    (content : string) (target_reduction : Q) (aggressive_mode : bool)
    (max_time1 max_time2 : Z) (elapsed1 elapsed2 : nat -> Z)
    (total_seconds1 total_seconds2 : Q) :
  let first := compress_content md5_hexdigest format_float compression_cache content
                 target_reduction max_time1 aggressive_mode elapsed1 total_seconds1 in
  cache_key md5_hexdigest format_float content target_reduction aggressive_mode
    = md5_hexdigest content +:+ "_" +:+ format_float target_reduction +:+ "_"
      +:+ (if aggressive_mode then "True" else "False") /\
  compress_content md5_hexdigest format_float (snd first) content
    target_reduction max_time2 aggressive_mode elapsed2 total_seconds2
  = (fst first, snd first).
Proof.
  cbv zeta. split; [reflexivity|].
  apply compress_content_hit.
  exact (compress_content_stores md5_hexdigest format_float compression_cache content
           target_reduction max_time1 aggressive_mode elapsed1 total_seconds1).
Qed.

(** ** The compression ratio *)

Lemma compute_result_ratio (md5_hexdigest : string -> string)
    (content : string) (target_reduction : Q) (max_time : Z) (aggressive_mode : bool)
    (elapsed : nat -> Z) (total_seconds : Q) :
  let r := compute_result md5_hexdigest content target_reduction max_time aggressive_mode
             elapsed total_seconds in
  ((0 < original_size r)%Z ->
   (compression_ratio r == inject_Z (compressed_size r) / inject_Z (original_size r))%Q /\
   (0 <= compression_ratio r)%Q) /\
  (original_size r = 0%Z -> compression_ratio r = 1.0%Q).
Proof.
  cbv zeta. unfold compute_result. cbn [original_size compressed_size compression_ratio].
  split.
  - intros H. apply Z.ltb_lt in H. rewrite H. split; [reflexivity|].
    apply quotient_nonneg; apply len_nonneg.
  - intros H. now rewrite H.
Qed.

(** C1, as the engine has it. The result that [compress_content] returns,
    from a cache that holds computed results only, has a compression
    ratio equal to [compressed_size / original_size], hence at least 0,
    when [original_size] is positive, and equal to 1.0 when
    [original_size] is 0. *)
Theorem compression_ratio_is_quotient (md5_hexdigest : string -> string)
    (format_float : Q -> string) (compression_cache : gmap string CompressionResult)
    (content : string) (target_reduction : Q) (max_time : Z) (aggressive_mode : bool)
    (elapsed : nat -> Z) (total_seconds : Q) :
  cache_ok md5_hexdigest compression_cache ->
  let r := fst (compress_content md5_hexdigest format_float compression_cache content
                  target_reduction max_time aggressive_mode elapsed total_seconds) in
  ((0 < original_size r)%Z ->
   (compression_ratio r == inject_Z (compressed_size r) / inject_Z (original_size r))%Q /\
   (0 <= compression_ratio r)%Q) /\
  (original_size r = 0%Z -> compression_ratio r = 1.0%Q).
Proof.
  intros Hok. cbv zeta.
  destruct (compress_content_computed md5_hexdigest format_float compression_cache content
              target_reduction max_time aggressive_mode elapsed total_seconds Hok)
    as (c & t & m & a & el & tot & E).
  rewrite E. apply compute_result_ratio.
Qed.

Lemma compression_ratio_is_quotient_witness :
  let r := fst (compress_content no_digest no_format ∅ "abcd    efgh" 0.10 30 false frozen 0) in
  (compression_ratio r == inject_Z (compressed_size r) / inject_Z (original_size r))%Q /\
  (0 <= compression_ratio r)%Q.
Proof.
  cbv zeta.
  apply (compression_ratio_is_quotient no_digest no_format ∅ "abcd    efgh" 0.10 30 false
           frozen 0 (cache_ok_empty no_digest)).
  vm_compute. reflexivity.
Defined.

(** C1, as the specification has it, fails at both ends: a content of one
    space is compressed to the empty string, a ratio of 0; three short
    equal lines are rewritten into longer reference lines, a ratio of
    27/8. *)
Lemma compression_ratio_outside_unit_interval :
  let blank := compute_result no_digest " " 0.25 30 false frozen 0 in
  let repeated := compute_result no_digest (Str.join Str.nl ["ab"; "ab"; "ab"])
                    0.25 30 false frozen 0 in
  ((0 < original_size blank)%Z /\ ~ (0 < compression_ratio blank)%Q) /\
  ((0 < original_size repeated)%Z /\ ~ (compression_ratio repeated <= 1)%Q).
Proof.
  cbv zeta. split; split.
  - vm_compute. reflexivity.
  - assert (E : compression_ratio (compute_result no_digest " " 0.25 30 false frozen 0) = 0%Q)
      by (vm_compute; reflexivity).
    rewrite E. lra.
  - vm_compute. reflexivity.
  - assert (E : compression_ratio
                  (compute_result no_digest (Str.join Str.nl ["ab"; "ab"; "ab"])
                     0.25 30 false frozen 0) = (27 # 8)%Q)
      by (vm_compute; reflexivity).
    rewrite E. lra.
Qed.

(** ** Scenarios *)

(** C8 fails on [placeholder_in_code]: the first run puts the second code
    block inside the first one, where the placeholder text stood, and the
    second run then finds the text [a  b] outside any code block and
    collapses its spaces. *)
Theorem compress_whitespace_not_idempotent :
  let once := fst (compress_whitespace placeholder_in_code) in
  let twice := fst (compress_whitespace once) in
  once = "``````a  b`````` <<<CODE_BLOCK>>>" /\
  twice = "``````a b`````` <<<CODE_BLOCK>>>" /\
  twice <> once.
Proof.
  cbv zeta.
  assert (E1 : fst (compress_whitespace placeholder_in_code)
               = "``````a  b`````` <<<CODE_BLOCK>>>") by (vm_compute; reflexivity).
  rewrite E1.
  assert (E2 : fst (compress_whitespace "``````a  b`````` <<<CODE_BLOCK>>>")
               = "``````a b`````` <<<CODE_BLOCK>>>") by (vm_compute; reflexivity).
  rewrite E2. repeat split. discriminate.
Qed.

(** Away from the placeholder text the second run changes nothing: so it
    is on every text of at most five characters among letters, spaces,
    line breaks and backticks, and on every code block of at most three
    such characters with at most one character on each side. *)
Lemma compress_whitespace_idempotent_short (s : string) :
  In s (up_to 5 ++ fenced_strings) -> idempotent_on s = true.
Proof. revert s. apply List.forallb_forall. vm_compute. reflexivity. Qed.

(** C9 fails on the empty string: the score divides by the length of the
    input, and the call raises. *)
Theorem semantic_condensation_empty :
  semantic_condensation EmptyString = Raises ZeroDivisionError.
Proof. reflexivity. Qed.

(** On any other input the call returns, with the score of the formula,
    which lies between 0.95 and 1. *)
Lemma semantic_condensation_score (content : string) :
  content <> EmptyString ->
  exists f,
    semantic_condensation content = Returns (condense content, f) /\
    f = Qmax 0.95 (1.0 - (inject_Z (len content - len (condense content))
                          / inject_Z (len content)) * 2)%Q /\
    (0.95 <= f)%Q /\ (f <= 1)%Q.
Proof.
  intros Hne. eexists. split; [now apply semantic_condensation_nonempty|].
  split; [reflexivity|].
  eapply semantic_condensation_factor. now apply semantic_condensation_nonempty.
Qed.

(** ** The patterns without groups *)

Module SimpleFacts.
Import Re ReSpec ReFacts.

Lemma single_char_exec (fl : flags) (r : regex) (p : ascii -> bool) :
  single_char fl r = Some p -> forall st k, exec fl r st k = char_step p st k.
Proof.
  destruct r; simpl; intros H; try discriminate; injection H as <-; reflexivity.
Qed.

Lemma realizes_step (p : ascii -> bool) (k : mstate -> option mstate)
    (g : string -> option string) :
  realizes k g -> realizes (fun st => char_step p st k) (step_g p g).
Proof.
  intros Hk st. unfold char_step, step_g.
  destruct (st_rest st) as [|x rest] eqn:E; [reflexivity|].
  destruct (p x); [|reflexivity].
  specialize (Hk (advance st x rest)). simpl in Hk. exact Hk.
Qed.

Lemma repeat_loop_unfold (step : mstate -> (mstate -> option mstate) -> option mstate)
    (lo : nat) (k : mstate -> option mstate) (fuel count : nat) (st0 : mstate) :
  repeat_loop step true lo None k (S fuel) count st0 =
  or_else (step st0 (fun st1 => if Nat.ltb (st_pos st0) (st_pos st1)
                                then repeat_loop step true lo None k fuel (S count) st1
                                else None))
          (fun _ => if Nat.leb lo count then k st0 else None).
Proof. reflexivity. Qed.

Section Repetition.
Variables (step : mstate -> (mstate -> option mstate) -> option mstate) (p : ascii -> bool).
Variables (lo : nat) (k : mstate -> option mstate) (g : string -> option string).
Hypothesis step_char : forall st k', step st k' = char_step p st k'.
Hypothesis k_g : realizes k g.

Lemma stop_realizes (count : nat) (st : mstate) (gs : option string) :
  gs = (if Nat.leb lo count then g (st_rest st) else None) ->
  match gs with
  | Some t => exists res, (if Nat.leb lo count then k st else None) = Some res /\
                          st_rest res = t /\ st_groups res = st_groups st /\
                          st_lastindex res = st_lastindex st
  | None => (if Nat.leb lo count then k st else None) = None
  end.
Proof.
  intros ->. destruct (Nat.leb lo count); [apply k_g|reflexivity].
Qed.

Lemma rep_g_stop (count : nat) (s : string) :
  (forall x r, s = String x r -> p x = false) ->
  rep_g p (lo - count) g s = if Nat.leb lo count then g s else None.
Proof.
  intros Hs. destruct (Nat.leb lo count) eqn:E.
  - apply Nat.leb_le in E. replace (lo - count) with 0 by lia. simpl.
    destruct s as [|x r]; [reflexivity|]. simpl. now rewrite (Hs x r eq_refl).
  - apply Nat.leb_gt in E. destruct (lo - count) as [|n] eqn:D; [lia|]. simpl.
    destruct s as [|x r]; [reflexivity|]. simpl. now rewrite (Hs x r eq_refl).
Qed.

Lemma rep_g_more (count : nat) (x : ascii) (r : string) :
  p x = true ->
  rep_g p (lo - count) g (String x r) =
  match rep_g p (lo - S count) g r with
  | Some t => Some t
  | None => if Nat.leb lo count then g (String x r) else None
  end.
Proof.
  intros Hp. destruct (Nat.leb lo count) eqn:E.
  - apply Nat.leb_le in E. replace (lo - count) with 0 by lia.
    replace (lo - S count) with 0 by lia. simpl. now rewrite Hp.
  - apply Nat.leb_gt in E. destruct (lo - count) as [|n] eqn:D; [lia|].
    replace (lo - S count) with n by lia. simpl. rewrite Hp. now destruct (rep_g p n g r).
Qed.

Lemma repeat_loop_realizes (fuel count : nat) (st : mstate) :
  String.length (st_rest st) < fuel ->
  match rep_g p (lo - count) g (st_rest st) with
  | Some t => exists res, repeat_loop step true lo None k fuel count st = Some res /\
                          st_rest res = t /\ st_groups res = st_groups st /\
                          st_lastindex res = st_lastindex st
  | None => repeat_loop step true lo None k fuel count st = None
  end.
Proof.
  revert count st. induction fuel as [|fuel IH]; intros count st Hf; [lia|].
  rewrite repeat_loop_unfold, step_char. unfold char_step.
  destruct (st_rest st) as [|x rest] eqn:E.
  - rewrite rep_g_stop by discriminate. unfold or_else.
    apply stop_realizes. now rewrite E.
  - destruct (p x) eqn:Hp.
    + rewrite (rep_g_more count x rest Hp).
      assert (Hlt : Nat.ltb (st_pos st) (st_pos (advance st x rest)) = true)
        by (apply Nat.ltb_lt; simpl; lia).
      rewrite Hlt.
      specialize (IH (S count) (advance st x rest)). simpl in IH, Hf.
      specialize (IH ltac:(lia)).
      destruct (rep_g p (lo - S count) g rest) as [t|].
      * destruct IH as (res & -> & H1 & H2 & H3). simpl. now exists res.
      * rewrite IH. unfold or_else. apply stop_realizes. now rewrite E.
    + rewrite rep_g_stop by (intros ? ? [= <- <-]; exact Hp).
      unfold or_else. apply stop_realizes. now rewrite E.
Qed.
End Repetition.

Lemma den_realizes (fl : flags) (r : regex) :
  simple fl r = true ->
  forall k g, realizes k g -> realizes (fun st => exec fl r st k) (den fl r g).
Proof.
  induction r; intros Hs k g Hk; try discriminate Hs.
  - exact Hk.
  - intros st. reflexivity.
  - apply (realizes_step _ k g Hk).
  - apply (realizes_step _ k g Hk).
  - apply (realizes_step _ k g Hk).
  - simpl in Hs. apply andb_prop in Hs. destruct Hs as [H1 H2].
    simpl. apply IHr1; [exact H1|]. apply IHr2; [exact H2|exact Hk].
  - simpl in Hs. apply andb_prop in Hs. destruct Hs as [H1 H2].
    intros st. cbn [exec den]. unfold or_else.
    pose proof (IHr1 H1 k g Hk st) as A. pose proof (IHr2 H2 k g Hk st) as B.
    cbv beta in A, B. destruct (den fl r1 g (st_rest st)) as [t|].
    + destruct A as (res & -> & A). now exists res.
    + rewrite A. exact B.
  - destruct greedy; [|discriminate Hs]. destruct hi; [discriminate Hs|].
    simpl in Hs. cbn [exec den].
    destruct (single_char fl r) as [p|] eqn:E; [|discriminate Hs].
    intros st.
    pose proof (repeat_loop_realizes (exec fl r) p lo k g (single_char_exec fl r p E) Hk
                  (S (String.length (st_rest st))) 0 st ltac:(lia)) as L.
    now rewrite Nat.sub_0_r in L.
Qed.

End SimpleFacts.

(** ** Substitution with a pattern without groups *)

Module SimpleSub.
Import Re ReSpec ReFacts SimpleFacts SubFacts.

Lemma realizes_final : realizes (fun st1 => Some st1) (fun t => Some t).
Proof. intros st. now exists st. Qed.

Lemma match_here_simple (fl : flags) (r : regex) (prev : option ascii) (rest : string)
    (pos : nat) :
  simple fl r = true ->
  match den fl r (fun t => Some t) rest with
  | Some t => exists m, match_here fl r prev rest pos false = Some m /\
                        m_tail m = t /\ lastindex m = None
  | None => match_here fl r prev rest pos false = None
  end.
Proof.
  intros Hs. unfold match_here.
  pose proof (den_realizes fl r Hs _ _ realizes_final
                {| st_prev := prev; st_rest := rest; st_pos := pos;
                   st_groups := []; st_lastindex := None |}) as H.
  cbv beta in H. simpl st_rest in H. simpl andb.
  destruct (den fl r (fun t => Some t) rest) as [t|].
  - destruct H as (res & -> & H1 & H2 & H3). eexists. split; [reflexivity|]. simpl. auto.
  - now rewrite H.
Qed.

Lemma match_here_end (fl : flags) (r : regex) (prev : option ascii) (rest : string)
    (pos : nat) (must_advance : bool) (m : Match) :
  match_here fl r prev rest pos must_advance = Some m -> pos + min_len r <= m_end m.
Proof.
  unfold match_here. intros H.
  destruct (exec _ _ _ _) as [st1|] eqn:E; [|discriminate].
  injection H as <-. simpl.
  apply exec_ahead in E. destruct E as (st2 & n & Hk & (Hp & Hr & Hn) & Hm).
  simpl in *. destruct (must_advance && Nat.eqb (st_pos st2) pos)%bool; [discriminate|].
  injection Hk as <-. lia.
Qed.

Lemma rev_app_app (s acc t : string) :
  String.rev_app s acc +:+ t = String.rev_app s (acc +:+ t).
Proof.
  revert acc. induction s as [|x s IH]; intros acc; [reflexivity|].
  simpl. now rewrite IH.
Qed.

Lemma rev_cons_app (x : ascii) (s t : string) :
  String.rev (String x s) +:+ t = String.rev s +:+ String x t.
Proof. unfold String.rev. simpl. now rewrite !rev_app_app. Qed.

Lemma app_nil_r (s : string) : s +:+ EmptyString = s.
Proof. induction s as [|x s IH]; [reflexivity|]. now rewrite app_cons, IH. Qed.

Section Scan.
Variables (fl : flags) (r : regex) (repl : Match -> string) (repl0 : string).
Hypothesis r_simple : simple fl r = true.
Hypothesis r_reads : 1 <= min_len r.
Hypothesis repl_const : forall m, lastindex m = None -> repl m = repl0.

Lemma scan_simple (fuel : nat) (prev : option ascii) (rest : string) (pos : nat)
    (skipped : string) :
  (let '(ms, tail) := scan fl r fuel prev rest pos false skipped in sub_pieces repl ms tail)
  = String.rev skipped +:+ sub_spec (den fl r (fun t => Some t)) repl0 fuel rest.
Proof.
  revert prev rest pos skipped.
  induction fuel as [|fuel IH]; intros prev rest pos skipped; [reflexivity|].
  cbn [scan sub_spec].
  pose proof (match_here_simple fl r prev rest pos r_simple) as H.
  destruct (den fl r (fun t => Some t) rest) as [t|].
  - destruct H as (m & E & Ht & Hl). rewrite E.
    pose proof (match_here_end _ _ _ _ _ _ _ E) as Hend.
    assert (Hne : Nat.eqb (m_end m) pos = false) by (apply Nat.eqb_neq; lia).
    rewrite Hne. specialize (IH (m_prev_end m) (m_tail m) (m_end m) EmptyString).
    destruct (scan fl r fuel _ _ _ _ _) as [ms tail]. cbn [sub_pieces].
    rewrite IH, (repl_const m Hl), Ht. reflexivity.
  - rewrite H. destruct rest as [|x rest'].
    + cbn [sub_pieces]. now rewrite app_nil_r.
    + rewrite IH. apply rev_cons_app.
Qed.
End Scan.

Lemma sub_with_simple (pattern : string) (repl : Match -> string) (repl0 s : string)
    (fl : flags) :
  simple fl (compile pattern) = true ->
  1 <= min_len (compile pattern) ->
  (forall m, lastindex m = None -> repl m = repl0) ->
  sub_with pattern repl s fl
  = sub_spec (den fl (compile pattern) (fun t => Some t)) repl0 (2 * String.length s + 2) s.
Proof.
  intros H1 H2 H3. unfold sub_with, scan_all.
  pose proof (scan_simple fl (compile pattern) repl repl0 H1 H2 H3
                (2 * String.length s + 2) None s 0 EmptyString) as L.
  destruct (scan _ _ _ _ _ _ _ _) as [ms tail]. exact L.
Qed.

(** The fuel of [sub_spec] does not matter once it covers the text. *)
Lemma sub_spec_fuel (g : string -> option string) (repl : string) :
  (forall s t, g s = Some t -> String.length t < String.length s) ->
  forall f1 f2 s, String.length s <= f1 -> String.length s <= f2 ->
  sub_spec g repl f1 s = sub_spec g repl f2 s.
Proof.
  intros Hg. induction f1 as [|f1 IH]; intros f2 s H1 H2.
  - destruct s; [|simpl in H1; lia]. destruct f2; [reflexivity|]. simpl.
    destruct (g EmptyString) as [t|] eqn:E; [|reflexivity].
    apply Hg in E. simpl in E. lia.
  - destruct f2 as [|f2].
    + destruct s; [|simpl in H2; lia]. simpl.
      destruct (g EmptyString) as [t|] eqn:E; [|reflexivity].
      apply Hg in E. simpl in E. lia.
    + simpl. destruct (g s) as [t|] eqn:E.
      * apply Hg in E. f_equal. apply IH; lia.
      * destruct s as [|x s']; [reflexivity|]. f_equal. simpl in H1, H2. apply IH; lia.
Qed.

End SimpleSub.

(** ** Runs of blank lines *)

Module BlankRunFacts.
Import Re ReSpec BlankRuns.

Lemma star_g_ext (p p' : ascii -> bool) (g g' : string -> option string) :
  (forall x, p x = p' x) -> (forall s, g s = g' s) ->
  forall s, star_g p g s = star_g p' g' s.
Proof.
  intros Hp Hg. induction s as [|x r IH]; simpl; [apply Hg|].
  rewrite <- Hp, IH, Hg. reflexivity.
Qed.

Lemma step_g_ext (p p' : ascii -> bool) (g g' : string -> option string) :
  (forall x, p x = p' x) -> (forall s, g s = g' s) ->
  forall s, step_g p g s = step_g p' g' s.
Proof.
  intros Hp Hg [|x r]; simpl; [reflexivity|]. now rewrite <- Hp, Hg.
Qed.

Lemma space_class (x : ascii) : set_matches false [CSpace true] x = Chr.isspace x.
Proof. unfold set_matches. simpl. now destruct (Chr.isspace x). Qed.

Lemma newline_is_space (x : ascii) : Chr.eqb Chr.LF x = true -> Chr.isspace x = true.
Proof. intros H. apply Ascii.eqb_eq in H. now subst x. Qed.

Lemma after_last_newline_none (s : string) :
  after_last_newline s = None <-> leading_newlines s = 0.
Proof.
  induction s as [|x r IH]; simpl; [tauto|].
  destruct (Chr.isspace x); [|tauto].
  destruct (after_last_newline r) as [t|].
  - split; intros H; [discriminate H|]. destruct IH as [_ IH].
    assert (leading_newlines r = 0) by lia. now apply IH.
  - destruct IH as [IH _]. rewrite (IH eq_refl). destruct (Chr.eqb Chr.LF x); simpl.
    + split; intros H; [discriminate H|lia].
    + tauto.
Qed.

Lemma newlines_g_solid (s : string) :
  (forall r, s <> String Chr.LF r) -> star_g (Chr.eqb Chr.LF) (fun t => Some t) s = Some s.
Proof.
  intros H. destruct s as [|x r]; [reflexivity|]. simpl.
  destruct (Chr.eqb Chr.LF x) eqn:E; [|reflexivity].
  apply Ascii.eqb_eq in E. subst x. now destruct (H r).
Qed.

Lemma after_last_newline_head (r : string) :
  after_last_newline r = None -> forall r', r <> String Chr.LF r'.
Proof.
  intros H r' ->. simpl in H. destruct (after_last_newline r'); discriminate.
Qed.

(** Whitespace, then one or more newlines. *)
Lemma newlines_g_cons (x : ascii) (r : string) :
  newlines_g (String x r) =
  if Chr.eqb Chr.LF x then star_g (Chr.eqb Chr.LF) (fun t => Some t) r else None.
Proof. reflexivity. Qed.

Lemma star_newlines (s : string) :
  star_g Chr.isspace newlines_g s = after_last_newline s.
Proof.
  induction s as [|x r IH]; [reflexivity|].
  cbn [star_g after_last_newline]. rewrite IH, newlines_g_cons.
  destruct (Chr.isspace x) eqn:Hx.
  - destruct (after_last_newline r) as [t|] eqn:E; [reflexivity|].
    destruct (Chr.eqb Chr.LF x); [|reflexivity].
    now rewrite newlines_g_solid by (now apply after_last_newline_head).
  - destruct (Chr.eqb Chr.LF x) eqn:E; [|reflexivity].
    apply newline_is_space in E. congruence.
Qed.

(** Whitespace, a newline, whitespace, then one or more newlines. *)
Lemma star_two_newlines (s : string) :
  star_g Chr.isspace (step_g (Chr.eqb Chr.LF) after_last_newline) s
  = if Nat.leb 2 (leading_newlines s) then after_last_newline s else None.
Proof.
  induction s as [|x r IH]; [reflexivity|].
  cbn [star_g step_g leading_newlines after_last_newline]. rewrite IH.
  pose proof (after_last_newline_none r) as [N1 N2].
  destruct (Chr.isspace x) eqn:Hx; destruct (Chr.eqb Chr.LF x) eqn:Ex;
    try (apply newline_is_space in Ex; congruence); try reflexivity;
    destruct (after_last_newline r) as [t|]; destruct (leading_newlines r) as [|[|n]];
    simpl; try reflexivity;
    try (specialize (N1 eq_refl); discriminate);
    try (specialize (N2 eq_refl); discriminate).
Qed.

(** What the pattern of the blank lines reads. *)
Lemma blank_lines_den (s : string) :
  den no_flags (compile blank_lines) (fun t => Some t) s = blank_run_tail s.
Proof.
  change (den no_flags (compile blank_lines) (fun t => Some t))
    with (step_g (Chr.eqb Chr.LF)
            (star_g (set_matches false [CSpace true])
               (step_g (Chr.eqb Chr.LF)
                  (star_g (set_matches false [CSpace true]) newlines_g)))).
  destruct s as [|x r]; [reflexivity|]. simpl.
  destruct (Chr.eqb Chr.LF x); [|reflexivity]. simpl.
  rewrite (star_g_ext _ Chr.isspace _ (step_g (Chr.eqb Chr.LF) after_last_newline)).
  - apply star_two_newlines.
  - apply space_class.
  - apply step_g_ext; [reflexivity|]. intros t.
    rewrite (star_g_ext _ Chr.isspace _ newlines_g); [apply star_newlines|apply space_class|reflexivity].
Qed.

Lemma after_last_newline_shorter (s t : string) :
  after_last_newline s = Some t -> String.length t < String.length s.
Proof.
  revert t. induction s as [|x r IH]; intros t H; simpl in H; [discriminate|].
  destruct (Chr.isspace x); [|discriminate].
  destruct (after_last_newline r) as [t'|].
  - injection H as <-. specialize (IH t' eq_refl). simpl. lia.
  - destruct (Chr.eqb Chr.LF x); [|discriminate]. injection H as <-. simpl. lia.
Qed.

Lemma blank_run_tail_shorter (s t : string) :
  blank_run_tail s = Some t -> String.length t < String.length s.
Proof.
  destruct s as [|x r]; simpl; [discriminate|].
  destruct (_ && _)%bool; [|discriminate].
  intros H. apply after_last_newline_shorter in H. simpl. lia.
Qed.

(** [re.sub] with the pattern of the blank lines and the replacement of
    [eliminate_redundancy] deletes the runs of blank lines. *)
Lemma sub_blank_lines (s : string) :
  sub_with blank_lines keep_first_group s no_flags = delete_blank_runs s.
Proof.
  rewrite (SimpleSub.sub_with_simple blank_lines keep_first_group EmptyString s no_flags);
    [| reflexivity | vm_compute; lia | intros m H; unfold keep_first_group; now rewrite H ].
  unfold delete_blank_runs.
  rewrite (SimpleSub.sub_spec_fuel blank_run_tail EmptyString blank_run_tail_shorter
             (String.length s) (2 * String.length s + 2) s) by lia.
  generalize (2 * String.length s + 2) as fuel. intros fuel. revert s.
  induction fuel as [|fuel IH]; intros s; [reflexivity|].
  cbn [sub_spec]. rewrite blank_lines_den. destruct (blank_run_tail s) as [t|].
  - now rewrite IH.
  - destruct s as [|x r]; [reflexivity|]. now rewrite IH.
Qed.

(** A run of blank lines between a line and a text that starts a line. *)
Lemma leading_newlines_run (w v : string) :
  all_space w = true -> starts_solid v = true ->
  leading_newlines (w +:+ v) = count_newlines w.
Proof.
  intros Hw Hv. induction w as [|x w IH].
  - simpl. destruct v as [|y v]; [reflexivity|]. simpl in *.
    now destruct (Chr.isspace y).
  - simpl in Hw. apply andb_prop in Hw. destruct Hw as [Hx Hw].
    rewrite app_cons. simpl. rewrite Hx, (IH Hw). reflexivity.
Qed.

Lemma after_last_newline_solid (v : string) :
  starts_solid v = true -> after_last_newline v = None.
Proof.
  destruct v as [|y v]; [reflexivity|]. simpl. now destruct (Chr.isspace y).
Qed.

Lemma after_last_newline_run (w v : string) :
  all_space w = true -> ends_with_newline w = true -> starts_solid v = true ->
  after_last_newline (w +:+ v) = Some v.
Proof.
  intros Hw He Hv. induction w as [|x w IH]; [discriminate|].
  simpl in Hw. apply andb_prop in Hw. destruct Hw as [Hx Hw].
  rewrite app_cons. simpl. rewrite Hx.
  destruct w as [|y w'].
  - simpl in He. rewrite app_nil_l, (after_last_newline_solid v Hv), He. reflexivity.
  - rewrite IH; [reflexivity|exact Hw|exact He].
Qed.

Lemma delete_blank_run_fuel (u run v : string) (fuel : nat) :
  count_newlines u = 0 -> blank_run run = true -> starts_solid v = true ->
  String.length (u +:+ run +:+ v) <= fuel ->
  sub_spec blank_run_tail EmptyString fuel (u +:+ run +:+ v) = u +:+ delete_blank_runs v.
Proof.
  intros Hu Hrun Hv. revert fuel. induction u as [|x u IH]; intros fuel Hf.
  - rewrite !app_nil_l in *. destruct run as [|x w]; [discriminate|].
    cbn [blank_run] in Hrun. apply andb_prop in Hrun. destruct Hrun as [Hrun H2].
    apply andb_prop in Hrun. destruct Hrun as [Hrun He].
    apply andb_prop in Hrun. destruct Hrun as [Hx Hw].
    rewrite app_cons in *. destruct fuel as [|fuel]; [simpl in Hf; lia|].
    cbn [sub_spec blank_run_tail].
    rewrite Hx, (leading_newlines_run w v Hw Hv), H2. simpl andb. cbv iota.
    rewrite (after_last_newline_run w v Hw He Hv). rewrite app_nil_l.
    apply (SimpleSub.sub_spec_fuel blank_run_tail EmptyString blank_run_tail_shorter).
    + simpl in Hf. rewrite length_app in Hf. lia.
    + lia.
  - rewrite app_cons in *. simpl in Hu.
    destruct (Chr.eqb Chr.LF x) eqn:Ex; [discriminate|]. simpl in Hu.
    destruct fuel as [|fuel]; [simpl in Hf; lia|].
    cbn [sub_spec blank_run_tail]. rewrite Ex. simpl andb. cbv iota.
    rewrite IH; [reflexivity|exact Hu|]. simpl in Hf. lia.
Qed.

Lemma delete_blank_run (u run v : string) :
  count_newlines u = 0 -> blank_run run = true -> starts_solid v = true ->
  delete_blank_runs (u +:+ run +:+ v) = u +:+ delete_blank_runs v.
Proof.
  intros Hu Hrun Hv. unfold delete_blank_runs at 1.
  now apply delete_blank_run_fuel.
Qed.

End BlankRunFacts.

(** C10. The loop over the catalog replaces each match by its first group
    when the match has a group and by the empty string when it has none.
    So the first pattern deletes every run of blank lines from the text
    that the first part of the function leaves, whatever the content: a
    run of newlines (three or more, with whitespace between them at most)
    that follows a text without newline and precedes a text that starts
    a line disappears, and the two texts are joined; the other patterns
    then work on the joined text.  [a\n\n\nb] becomes [ab]. *)
Theorem blank_runs_are_deleted (content : string) :
  (forall m, Re.lastindex m = None -> keep_first_group m = EmptyString) /\
  (forall m i t, Re.lastindex m = Some i -> 1 <= i -> Re.group m 1 = Some t ->
                 keep_first_group m = t) /\
  Re.sub_with "\n\s*\n\s*\n+" keep_first_group content Re.no_flags
    = BlankRuns.delete_blank_runs content /\
  eliminate_redundancy content
    = (remove_phrases (tl redundant_patterns)
         (BlankRuns.delete_blank_runs (consolidate_lines content)), 0.99%Q) /\
  (forall u run v,
     BlankRuns.count_newlines u = 0 -> BlankRuns.blank_run run = true ->
     BlankRuns.starts_solid v = true ->
     BlankRuns.delete_blank_runs (u +:+ run +:+ v) = u +:+ BlankRuns.delete_blank_runs v) /\
  eliminate_redundancy ("a" +:+ Str.nl +:+ Str.nl +:+ Str.nl +:+ "b") = ("ab", 0.99%Q).
Proof.
  split; [|split; [|split; [|split; [|split]]]].
  - intros m H. unfold keep_first_group. now rewrite H.
  - intros m i t H Hi Hg. unfold keep_first_group. rewrite H, Hg.
    apply Nat.leb_le in Hi. now rewrite Hi.
  - apply BlankRunFacts.sub_blank_lines.
  - unfold eliminate_redundancy. f_equal.
    change (remove_phrases redundant_patterns (consolidate_lines content))
      with (remove_phrases (tl redundant_patterns)
              (Re.sub_with BlankRuns.blank_lines keep_first_group
                 (consolidate_lines content) Re.no_flags)).
    now rewrite BlankRunFacts.sub_blank_lines.
  - apply BlankRunFacts.delete_blank_run.
  - vm_compute. reflexivity.
Qed.

Lemma blank_runs_are_deleted_witness :
  BlankRuns.delete_blank_runs
    ("first line" +:+ (Str.nl +:+ " " +:+ Str.nl +:+ Str.nl) +:+ "next line")
  = "first line" +:+ BlankRuns.delete_blank_runs "next line".
Proof.
  apply (blank_runs_are_deleted EmptyString); reflexivity.
Defined.

(** ** Scenario B in general *)

Module ScenarioBFacts.
Import ScenarioB.

Lemma split_chr_line (l : string) :
  has_newline l = false -> Str.split_chr Chr.LF l = [l].
Proof.
  induction l as [|x l IH]; [reflexivity|].
  cbn [has_newline Str.split_chr]. intros H. apply orb_false_elim in H. destruct H as [Hx Hl].
  rewrite Hx, (IH Hl). reflexivity.
Qed.

Lemma split_chr_line_app (l rest : string) :
  has_newline l = false ->
  Str.split_chr Chr.LF (l +:+ Str.nl +:+ rest) = l :: Str.split_chr Chr.LF rest.
Proof.
  induction l as [|x l IH]; intros H.
  - reflexivity.
  - cbn [has_newline] in H. apply orb_false_elim in H. destruct H as [Hx Hl].
    rewrite app_cons. cbn [Str.split_chr]. rewrite Hx, (IH Hl). reflexivity.
Qed.

Lemma split_join (lines : list string) :
  lines <> [] -> Forall (fun l => has_newline l = false) lines ->
  Str.split_chr Chr.LF (Str.join Str.nl lines) = lines.
Proof.
  intros Hne H. induction H as [|l lines Hl H IH]; [congruence|].
  destruct lines as [|l' lines].
  - now apply split_chr_line.
  - change (Str.join Str.nl (l :: l' :: lines))
      with (l +:+ Str.nl +:+ Str.join Str.nl (l' :: lines)).
    rewrite (split_chr_line_app _ _ Hl), IH; [reflexivity|discriminate].
Qed.

(** The frequency table of the first loop. *)
Lemma count_lines_acc (lines : list string) (acc : gmap string nat) (key : string) :
  key <> EmptyString ->
  default 0 (fold_left (fun (line_frequency : gmap string nat) line =>
                          let clean_line := Str.strip line in
                          if String.eqb clean_line EmptyString then line_frequency
                          else <[clean_line := default 0 (line_frequency !! clean_line) + 1]>
                                 line_frequency)
                       lines acc !! key)
  = default 0 (acc !! key) + freq key lines.
Proof.
  intros Hkey. revert acc. induction lines as [|l lines IH]; intros acc.
  - simpl. lia.
  - cbn [fold_left freq]. rewrite IH. cbv zeta.
    destruct (String.eqb (Str.strip l) EmptyString) eqn:E0.
    + apply String.eqb_eq in E0. rewrite E0.
      destruct (String.eqb EmptyString key) eqn:E1; [|lia].
      apply String.eqb_eq in E1. congruence.
    + destruct (String.eqb (Str.strip l) key) eqn:E1.
      * apply String.eqb_eq in E1. rewrite E1, lookup_insert_eq. simpl. lia.
      * apply String.eqb_neq in E1. rewrite lookup_insert_ne by exact E1. lia.
Qed.

Lemma count_lines_freq (lines : list string) (key : string) :
  key <> EmptyString -> default 0 (count_lines lines !! key) = freq key lines.
Proof.
  intros H. unfold count_lines. rewrite count_lines_acc by exact H.
  now rewrite lookup_empty.
Qed.

Lemma strip_repeated_line : Str.strip repeated_line = repeated_line.
Proof. vm_compute. reflexivity. Qed.

Lemma indent_repeated_line : indent_of repeated_line = 0.
Proof. vm_compute. reflexivity. Qed.

Lemma repeated_line_nonempty : String.eqb repeated_line EmptyString = false.
Proof. reflexivity. Qed.

Lemma repeated_line_no_newline : has_newline repeated_line = false.
Proof. vm_compute. reflexivity. Qed.

Lemma freq_repeated (items : list (option string)) :
  forallb own_line (others items) = true ->
  freq repeated_line (lines_of items) = occurrences items.
Proof.
  induction items as [|[u|] items IH]; intros H; [reflexivity| |].
  - cbn [others forallb] in H. apply andb_prop in H. destruct H as [Hu H].
    unfold own_line in Hu. apply andb_prop in Hu. destruct Hu as [_ Hu].
    apply negb_true_iff in Hu.
    cbn [lines_of map freq occurrences line_of]. fold (lines_of items).
    rewrite Hu, (IH H). reflexivity.
  - cbn [lines_of map freq occurrences line_of others] in *. fold (lines_of items).
    rewrite strip_repeated_line, String.eqb_refl, (IH H). reflexivity.
Qed.

Lemma freq_absent (key : string) (items : list (option string)) :
  key <> repeated_line ->
  existsb (String.eqb key) (map Str.strip (others items)) = false ->
  freq key (lines_of items) = 0.
Proof.
  intros Hk. induction items as [|[u|] items IH]; intros H; [reflexivity| |].
  - cbn [others map existsb] in H. apply orb_false_elim in H. destruct H as [Hu H].
    cbn [lines_of map freq line_of]. fold (lines_of items).
    rewrite (IH H). rewrite String.eqb_sym, Hu. reflexivity.
  - cbn [lines_of map freq line_of others] in *. fold (lines_of items).
    rewrite strip_repeated_line, (IH H).
    destruct (String.eqb repeated_line key) eqn:E; [|reflexivity].
    apply String.eqb_eq in E. congruence.
Qed.

Lemma freq_other (items : list (option string)) (u : string) :
  forallb own_line (others items) = true ->
  all_distinct (map Str.strip (others items)) = true ->
  In u (others items) ->
  freq (Str.strip u) (lines_of items) <= 1.
Proof.
  induction items as [|[v|] items IH]; intros Hown Hd Hin; [destruct Hin| |].
  - cbn [others forallb map all_distinct] in Hown, Hd.
    apply andb_prop in Hown. destruct Hown as [Hv Hown].
    apply andb_prop in Hd. destruct Hd as [Hnew Hd]. apply negb_true_iff in Hnew.
    cbn [lines_of map freq line_of]. fold (lines_of items).
    destruct (String.eqb (Str.strip v) (Str.strip u)) eqn:E.
    + apply String.eqb_eq in E. rewrite <- E.
      rewrite (freq_absent (Str.strip v) items); [lia| |exact Hnew].
      unfold own_line in Hv. apply andb_prop in Hv. destruct Hv as [_ Hv].
      apply negb_true_iff, String.eqb_neq in Hv. exact Hv.
    + destruct Hin as [->|Hin]; [rewrite String.eqb_refl in E; discriminate|].
      simpl. now apply IH.
  - cbn [lines_of map freq line_of others] in *. fold (lines_of items).
    rewrite strip_repeated_line.
    destruct (String.eqb repeated_line (Str.strip u)) eqn:E.
    + apply String.eqb_eq in E.
      assert (Hu : own_line u = true).
      { rewrite forallb_forall in Hown. now apply Hown. }
      unfold own_line in Hu. apply andb_prop in Hu. destruct Hu as [_ Hu].
      apply negb_true_iff, String.eqb_neq in Hu. congruence.
    + simpl. now apply IH.
Qed.

(** The second loop. *)
Lemma reference_items (line_frequency : gmap string nat) (items : list (option string)) :
  2 < default 0 (line_frequency !! repeated_line) ->
  (forall u, In u (others items) ->
     Str.strip u = EmptyString \/ default 0 (line_frequency !! Str.strip u) <= 2) ->
  forall (st : ref_state) (seen : bool),
    line_refs st !! repeated_line = (if seen then Some (ref_tag 1) else None) ->
    (seen = false -> ref_counter st = 1) ->
    processed_lines (fold_left (reference_line line_frequency) (lines_of items) st)
    = processed_lines st ++ tag_items seen items.
Proof.
  intros Hrep. induction items as [|[u|] items IH]; intros Hoth st seen Href Hcnt.
  - simpl. now rewrite app_nil_r.
  - cbn [lines_of map fold_left line_of tag_items]. fold (lines_of items).
    assert (E : reference_line line_frequency st u =
                {| processed_lines := processed_lines st ++ [u];
                   line_refs := line_refs st; ref_counter := ref_counter st |}).
    { unfold reference_line.
      destruct (Hoth u (or_introl eq_refl)) as [H|H].
      - rewrite H. reflexivity.
      - apply Nat.ltb_ge in H. rewrite H, andb_false_r. reflexivity. }
    rewrite E, (IH (fun v Hv => Hoth v (or_intror Hv)) _ seen); [|exact Href|exact Hcnt].
    cbn [processed_lines]. now rewrite <- app_assoc.
  - cbn [lines_of map fold_left line_of tag_items]. fold (lines_of items).
    apply Nat.ltb_lt in Hrep.
    destruct seen.
    + assert (E : reference_line line_frequency st repeated_line =
                  {| processed_lines := processed_lines st ++ [ref_tag 1];
                     line_refs := line_refs st; ref_counter := ref_counter st |}).
      { unfold reference_line.
        rewrite strip_repeated_line, repeated_line_nonempty, Hrep, Href, indent_repeated_line.
        reflexivity. }
      rewrite E, (IH Hoth _ true); [|exact Href|discriminate].
      cbn [processed_lines]. now rewrite <- app_assoc.
    + assert (E : reference_line line_frequency st repeated_line =
                  {| processed_lines :=
                       processed_lines st ++ [ref_tag 1 +:+ ": " +:+ repeated_line];
                     line_refs := <[repeated_line := ref_tag 1]> (line_refs st);
                     ref_counter := 1 + 1 |}).
      { unfold reference_line.
        rewrite strip_repeated_line, repeated_line_nonempty, Hrep, Href, (Hcnt eq_refl).
        reflexivity. }
      rewrite E, (IH Hoth _ true); [|apply lookup_insert_eq|discriminate].
      cbn [processed_lines]. now rewrite <- app_assoc.
Qed.

(** A pattern that matches nowhere leaves the text as it is. *)
Lemma scan_no_match (fl : Re.flags) (r : Re.regex) (fuel : nat) (prev : option ascii)
    (rest : string) (pos : nat) (must_advance : bool) (skipped : string) :
  fst (Re.scan fl r fuel prev rest pos must_advance skipped) = [] ->
  snd (Re.scan fl r fuel prev rest pos must_advance skipped) = String.rev skipped +:+ rest.
Proof.
  revert prev rest pos must_advance skipped.
  induction fuel as [|fuel IH]; intros prev rest pos must_advance skipped H; [reflexivity|].
  cbn [Re.scan] in *.
  destruct (Re.match_here fl r prev rest pos must_advance) as [m|].
  - destruct (Re.scan fl r fuel _ _ _ _ _). discriminate H.
  - destruct rest as [|x rest'].
    + simpl. now rewrite SimpleSub.app_nil_r.
    + rewrite (IH _ _ _ _ _ H). apply SimpleSub.rev_cons_app.
Qed.

Lemma sub_with_no_match (pattern : string) (repl : Re.Match -> string) (s : string)
    (fl : Re.flags) :
  Re.search pattern s fl = false -> Re.sub_with pattern repl s fl = s.
Proof.
  unfold Re.search, Re.sub_with, Re.scan_all. intros H.
  pose proof (scan_no_match fl (Re.compile pattern) (2 * String.length s + 2) None s 0 false
                EmptyString) as L.
  destruct (Re.scan _ _ _ _ _ _ _ _) as [ms tail]. cbn [fst snd] in *.
  destruct ms; [|discriminate]. now rewrite (L eq_refl).
Qed.

Lemma remove_phrases_no_match (patterns : list string) (text : string) :
  forallb (fun pattern => negb (Re.search pattern text Re.no_flags)) patterns = true ->
  remove_phrases patterns text = text.
Proof.
  unfold remove_phrases. induction patterns as [|p patterns IH]; intros H; [reflexivity|].
  cbn [forallb] in H. apply andb_prop in H. destruct H as [Hp H].
  apply negb_true_iff in Hp. cbn [fold_left]. rewrite (sub_with_no_match _ _ _ _ Hp).
  now apply IH.
Qed.

Lemma occurrences_nonempty (items : list (option string)) :
  0 < occurrences items -> lines_of items <> [].
Proof. destruct items; simpl; [lia|discriminate]. Qed.

Lemma lines_no_newline (items : list (option string)) :
  forallb own_line (others items) = true ->
  Forall (fun l => has_newline l = false) (lines_of items).
Proof.
  induction items as [|[u|] items IH]; intros H; [constructor| |].
  - cbn [others forallb] in H. apply andb_prop in H. destruct H as [Hu H].
    unfold own_line in Hu. apply andb_prop in Hu. destruct Hu as [Hu _].
    apply negb_true_iff in Hu. constructor; [exact Hu|now apply IH].
  - constructor; [exact repeated_line_no_newline|now apply IH].
Qed.

End ScenarioBFacts.

(** C7, as the engine has it. In a text made of three or more occurrences
    of the repeated line (five in Scenario B) and of other lines that
    occur once each, the first occurrence becomes the tagged definition,
    each later occurrence becomes the tag [[REF_1]] and the other lines
    stay as they are, provided that no pattern of the redundancy catalog
    matches the text so rewritten: the patterns are run on the whole text
    and also match across line breaks. *)
Theorem eliminate_redundancy_repeated_line (items : list (option string)) :
  3 <= ScenarioB.occurrences items ->
  forallb ScenarioB.own_line (ScenarioB.others items) = true ->
  ScenarioB.all_distinct (map Str.strip (ScenarioB.others items)) = true ->
  ScenarioB.no_redundancy (Str.join Str.nl (ScenarioB.tag_items false items)) = true ->
  eliminate_redundancy (Str.join Str.nl (ScenarioB.lines_of items))
  = (Str.join Str.nl (ScenarioB.tag_items false items), 0.99%Q).
Proof.
  intros Hocc Hown Hdist Hfree. unfold eliminate_redundancy. f_equal.
  assert (E : consolidate_lines (Str.join Str.nl (ScenarioB.lines_of items))
              = Str.join Str.nl (ScenarioB.tag_items false items)).
  { unfold consolidate_lines.
    rewrite ScenarioBFacts.split_join;
      [|apply ScenarioBFacts.occurrences_nonempty; lia
       |now apply ScenarioBFacts.lines_no_newline].
    rewrite (ScenarioBFacts.reference_items _ items) with (seen := false).
    - reflexivity.
    - rewrite ScenarioBFacts.count_lines_freq by discriminate.
      rewrite ScenarioBFacts.freq_repeated by exact Hown. lia.
    - intros u Hu. destruct (String.eqb (Str.strip u) EmptyString) eqn:E0.
      + left. now apply String.eqb_eq.
      + right. apply String.eqb_neq in E0.
        rewrite ScenarioBFacts.count_lines_freq by exact E0.
        pose proof (ScenarioBFacts.freq_other items u Hown Hdist Hu). lia.
    - apply lookup_empty.
    - reflexivity. }
  rewrite E. now apply ScenarioBFacts.remove_phrases_no_match.
Qed.

Lemma eliminate_redundancy_repeated_line_witness :
  eliminate_redundancy scenario_b =
  (Str.join Str.nl
     [ "[server]"; "[REF_1]: This configuration value must be set correctly";
       "host = localhost"; "[REF_1]"; "port = 8080"; "[REF_1]"; "timeout = 30";
       "[REF_1]"; "retries = 5"; "[REF_1]"; "[end]" ],
   0.99%Q).
Proof.
  apply (eliminate_redundancy_repeated_line ScenarioB.scenario_b_items);
    vm_compute; (lia || reflexivity).
Defined.

(** C7, as the specification has it, fails on [ScenarioB.echo_input]: five
    occurrences of the repeated line between lines that occur once and
    that no pattern of the catalog matches.  The pattern of the word
    repetitions matches from [This] to the line [correctly], across the
    line break, and keeps the last word only. *)
Lemma repeated_line_echo :
  let items := ScenarioB.echo_input in
  let output := fst (eliminate_redundancy (Str.join Str.nl (ScenarioB.lines_of items))) in
  ScenarioB.occurrences items = 5 /\
  forallb ScenarioB.own_line (ScenarioB.others items) = true /\
  ScenarioB.all_distinct (map Str.strip (ScenarioB.others items)) = true /\
  forallb ScenarioB.no_redundancy (ScenarioB.others items) = true /\
  output = Str.join Str.nl
             [ "[REF_1]: correctly"; "[REF_1]"; "alpha"; "[REF_1]"; "beta"; "[REF_1]";
               "gamma"; "[REF_1]" ] /\
  output <> Str.join Str.nl (ScenarioB.tag_items false items).
Proof.
  cbv zeta.
  assert (E : fst (eliminate_redundancy
                     (Str.join Str.nl (ScenarioB.lines_of ScenarioB.echo_input)))
              = Str.join Str.nl
                  [ "[REF_1]: correctly"; "[REF_1]"; "alpha"; "[REF_1]"; "beta"; "[REF_1]";
                    "gamma"; "[REF_1]" ]) by (vm_compute; reflexivity).
  rewrite E. repeat split; try (vm_compute; reflexivity).
  vm_compute. discriminate.
Qed.

(** * Further properties *)

(** ** calculate_similarity *)

Lemma calculate_similarity_jaccard (text1 text2 : string) :
  calculate_similarity text1 text2 = jaccard (words_of text1) (words_of text2).
Proof. reflexivity. Qed.

Lemma jaccard_comm (a b : gset string) : jaccard a b = jaccard b a.
Proof.
  unfold jaccard. rewrite orb_comm.
  assert (b ∩ a = a ∩ b) as -> by apply leibniz_equiv, (comm (∩)).
  assert (b ∪ a = a ∪ b) as -> by apply leibniz_equiv, (comm (∪)).
  reflexivity.
Qed.

Lemma inject_nat_pos (n : nat) : n <> 0 -> (0 < inject_Z (Z.of_nat n))%Q.
Proof. intros H. change 0%Q with (inject_Z 0). rewrite <- Zlt_Qlt. lia. Qed.

Lemma jaccard_bounds (a b : gset string) : (0 <= jaccard a b /\ jaccard a b <= 1)%Q.
Proof.
  unfold jaccard. destruct (_ || _)%bool; [lra|].
  destruct (Nat.eqb (size (a ∪ b)) 0) eqn:E; [lra|]. apply Nat.eqb_neq in E.
  pose proof (inject_nat_pos _ E) as Hpos.
  assert (Hsub : a ∩ b ⊆ a ∪ b).
  { intros x Hx. apply elem_of_intersection in Hx. apply elem_of_union. tauto. }
  assert (Hle : size (a ∩ b) <= size (a ∪ b)) by (apply subseteq_size; exact Hsub).
  split.
  - apply Qle_shift_div_l; [exact Hpos|]. rewrite Qmult_0_l.
    change 0%Q with (inject_Z 0). rewrite <- Zle_Qle. lia.
  - apply Qle_shift_div_r; [exact Hpos|]. rewrite Qmult_1_l. rewrite <- Zle_Qle. lia.
Qed.

Lemma jaccard_same (a : gset string) : size a <> 0 -> (jaccard a a == 1)%Q.
Proof.
  intros H. unfold jaccard.
  assert (a ∪ a = a) as -> by apply leibniz_equiv, (idemp (∪)).
  assert (a ∩ a = a) as -> by apply leibniz_equiv, (idemp (∩)).
  apply Nat.eqb_neq in H. rewrite H. simpl. apply Nat.eqb_neq in H.
  field. intros Z. pose proof (inject_nat_pos _ H). lra.
Qed.

Lemma jaccard_one (a b : gset string) : (jaccard a b == 1)%Q -> a = b.
Proof.
  unfold jaccard. destruct (_ || _)%bool; [intros H; lra|].
  destruct (Nat.eqb (size (a ∪ b)) 0) eqn:E; [intros H; lra|]. apply Nat.eqb_neq in E.
  pose proof (inject_nat_pos _ E) as Hpos. intros H.
  assert (Hq : (inject_Z (Z.of_nat (size (a ∩ b))) == inject_Z (Z.of_nat (size (a ∪ b))))%Q).
  { rewrite <- (Qmult_1_l (inject_Z (Z.of_nat (size (a ∪ b))))), <- H. field. lra. }
  unfold Qeq in Hq. simpl in Hq.
  assert (Hsub : a ∩ b ⊆ a ∪ b).
  { intros x Hx. apply elem_of_intersection in Hx. apply elem_of_union. tauto. }
  assert (Hs : a ∩ b = a ∪ b) by (apply set_subseteq_size_eq; [exact Hsub|lia]).
  apply leibniz_equiv. intros x.
  assert (Hx : x ∈ a ∩ b <-> x ∈ a ∪ b) by now rewrite Hs.
  rewrite elem_of_intersection, elem_of_union in Hx. tauto.
Qed.

(** X1. The similarity of two texts does not depend on their order. *)
Theorem calculate_similarity_symmetric (text1 text2 : string) :
  calculate_similarity text1 text2 = calculate_similarity text2 text1.
Proof. rewrite !calculate_similarity_jaccard. apply jaccard_comm. Qed.

(** X2. The similarity lies between 0 and 1, and it is 0 as soon as one
    of the two texts has no word. *)
Theorem calculate_similarity_bounds (text1 text2 : string) :
  (0 <= calculate_similarity text1 text2)%Q /\
  (calculate_similarity text1 text2 <= 1)%Q /\
  (words_of text1 = ∅ \/ words_of text2 = ∅ -> calculate_similarity text1 text2 = 0.0%Q).
Proof.
  rewrite calculate_similarity_jaccard.
  pose proof (jaccard_bounds (words_of text1) (words_of text2)) as [B1 B2].
  split; [exact B1|]. split; [exact B2|].
  intros [H|H]; unfold jaccard; rewrite H, size_empty; [reflexivity|].
  now rewrite orb_true_r.
Qed.

Lemma calculate_similarity_bounds_witness :
  calculate_similarity "" "some words" = 0.0%Q.
Proof.
  apply (calculate_similarity_bounds "" "some words"). left. vm_compute. reflexivity.
Defined.

(** X3. For a text that has a word, the similarity with another text is 1
    exactly when the two texts have the same set of lower-case words; in
    particular the similarity of such a text with itself is 1. *)
Theorem calculate_similarity_one (text1 text2 : string) :
  words_of text1 <> ∅ ->
  ((calculate_similarity text1 text2 == 1)%Q <-> words_of text1 = words_of text2) /\
  (calculate_similarity text1 text1 == 1)%Q.
Proof.
  intros Hne. rewrite !calculate_similarity_jaccard.
  assert (Hsize : size (words_of text1) <> 0).
  { intros Z. apply size_empty_inv in Z. apply leibniz_equiv in Z. contradiction. }
  split; [split|].
  - apply jaccard_one.
  - intros <-. now apply jaccard_same.
  - now apply jaccard_same.
Qed.

Lemma calculate_similarity_one_witness :
  (calculate_similarity "Hello, world" "WORLD hello!" == 1)%Q.
Proof.
  refine (proj2 (proj1 (calculate_similarity_one "Hello, world" "WORLD hello!" _)) _).
  - intros H. apply (f_equal size) in H. vm_compute in H. discriminate H.
  - vm_compute. reflexivity.
Defined.

(** ** context_deduplication *)

Lemma ForallOrdPairs_snoc {A : Type} (R : A -> A -> Prop) (l : list A) (b : A) :
  ForallOrdPairs R l -> Forall (fun a => R a b) l -> ForallOrdPairs R (l ++ [b]).
Proof.
  induction 1 as [|a l Ha Hl IH]; intros Hb; simpl.
  - constructor; constructor.
  - apply Forall_cons_iff in Hb. destruct Hb as [Hab Hb]. constructor.
    + apply Forall_app. split; [exact Ha|]. now constructor.
    + now apply IH.
Qed.

Lemma keep_block_cases (unique_blocks : list string) (block : string) :
  (keep_block unique_blocks block = unique_blocks /\
   (Str.strip block = EmptyString \/
    exists k, In k unique_blocks /\ ~ dissimilar k (Str.strip block))) \/
  (keep_block unique_blocks block = unique_blocks ++ [Str.strip block] /\
   Str.strip block <> EmptyString /\
   Forall (fun earlier => dissimilar earlier (Str.strip block)) unique_blocks).
Proof.
  unfold keep_block.
  destruct (String.eqb (Str.strip block) EmptyString) eqn:E0.
  { left. split; [reflexivity|]. left. now apply String.eqb_eq. }
  destruct (existsb _ unique_blocks) eqn:E1.
  { left. split; [reflexivity|]. right.
    apply List.existsb_exists in E1. destruct E1 as (k & Hk & G).
    exists k. split; [exact Hk|]. unfold dissimilar. intros Hle.
    unfold Qgt_bool in G. apply negb_true_iff in G.
    apply Qle_bool_iff in Hle. congruence. }
  right. split; [reflexivity|]. split; [now apply String.eqb_neq|].
  apply List.Forall_forall. intros u Hu.
  assert (H : Qgt_bool (calculate_similarity (Str.strip block) u) similarity_threshold = false).
  { destruct (Qgt_bool _ _) eqn:G; [|reflexivity].
    assert (existsb (fun unique_block =>
              Qgt_bool (calculate_similarity (Str.strip block) unique_block)
                       similarity_threshold) unique_blocks = true) as X
      by (apply List.existsb_exists; exists u; split; [exact Hu|exact G]).
    congruence. }
  unfold Qgt_bool in H. apply negb_false_iff, Qle_bool_iff in H. exact H.
Qed.

Lemma accounted_more (kept more : list string) (b : string) :
  accounted kept b -> accounted (kept ++ more) b.
Proof.
  intros [H|[H|(k & Hk & H)]].
  - now left.
  - right. left. apply in_or_app. now left.
  - right. right. exists k. split; [apply in_or_app; now left|exact H].
Qed.

Lemma fold_keep_block (blocks done unique_blocks : list string) :
  sublist unique_blocks (map Str.strip done) ->
  Forall (fun b => b <> EmptyString) unique_blocks ->
  ForallOrdPairs dissimilar unique_blocks ->
  Forall (accounted unique_blocks) (map Str.strip done) ->
  let kept := fold_left keep_block blocks unique_blocks in
  sublist kept (map Str.strip (done ++ blocks)) /\
  Forall (fun b => b <> EmptyString) kept /\
  ForallOrdPairs dissimilar kept /\
  Forall (accounted kept) (map Str.strip (done ++ blocks)) /\
  length kept <= length unique_blocks + length blocks.
Proof.
  revert done unique_blocks.
  induction blocks as [|block blocks IH]; intros done U H1 H2 H3 H4; cbv zeta.
  - cbn [fold_left]. rewrite List.app_nil_r. repeat split; auto. lia.
  - cbn [fold_left].
    replace (done ++ block :: blocks) with ((done ++ [block]) ++ blocks)
      by (now rewrite <- List.app_assoc).
    destruct (keep_block_cases U block) as [[E Hwhy]|(E & Hne & Hd)]; rewrite E.
    + destruct (IH (done ++ [block]) U) as (A & B & C & D & L); auto.
      * rewrite List.map_app. now apply sublist_inserts_r.
      * rewrite List.map_app. apply Forall_app. split; [exact H4|].
        constructor; [|constructor]. destruct Hwhy as [H0|H0]; [now left|now right; right].
      * repeat split; auto. simpl. lia.
    + destruct (IH (done ++ [block]) (U ++ [Str.strip block])) as (A & B & C & D & L).
      * rewrite List.map_app. now apply sublist_app.
      * apply Forall_app. split; [exact H2|]. now constructor.
      * now apply ForallOrdPairs_snoc.
      * rewrite List.map_app. apply Forall_app. split.
        -- eapply List.Forall_impl; [|exact H4]. intros b. apply accounted_more.
        -- constructor; [|constructor]. right. left. apply in_or_app. right. now left.
      * repeat split; auto. rewrite List.length_app in L. simpl in *. lia.
Qed.

Lemma kept_blocks_spec (content : string) :
  sublist (kept_blocks content) (map Str.strip (blocks_of content)) /\
  Forall (fun b => b <> EmptyString) (kept_blocks content) /\
  ForallOrdPairs dissimilar (kept_blocks content) /\
  Forall (accounted (kept_blocks content)) (map Str.strip (blocks_of content)) /\
  length (kept_blocks content) <= length (blocks_of content).
Proof.
  apply (fold_keep_block (blocks_of content) [] []).
  - apply sublist_nil.
  - constructor.
  - constructor.
  - constructor.
Qed.

Lemma context_deduplication_kept (content : string) :
  fst (context_deduplication content) = Str.join (Str.nl +:+ Str.nl) (kept_blocks content).
Proof. reflexivity. Qed.

(** X4. The text that [context_deduplication] returns is made of blocks
    of the content: with the content split at its blank lines and each
    piece stripped, the blocks kept are some of these, in their order,
    joined by blank lines.  No kept block is empty, no kept block is a
    duplicate of a block kept before it (their similarity is at most
    0.8), and every block of the content is accounted for: it is empty,
    or kept, or a duplicate of a kept block. *)
Theorem context_deduplication_keeps_dissimilar (content : string) :
  let blocks := map Str.strip (Re.split "\n\s*\n" content) in
  exists kept : list string,
    fst (context_deduplication content) = Str.join (Str.nl +:+ Str.nl) kept /\
    sublist kept blocks /\
    Forall (fun b => b <> EmptyString) kept /\
    ForallOrdPairs dissimilar kept /\
    Forall (accounted kept) blocks.
Proof.
  cbv zeta. exists (kept_blocks content).
  destruct (kept_blocks_spec content) as (A & B & C & D & _).
  split; [reflexivity|]. repeat split; assumption.
Qed.

Lemma split_nonempty (pattern s : string) : 1 <= length (Re.split pattern s).
Proof.
  unfold Re.split. destruct (Re.scan_all _ _ _) as [ms tail].
  rewrite List.length_app. simpl. lia.
Qed.

(** The preservation factor is the share of the blocks kept, capped. *)
Lemma context_deduplication_share (content : string) :
  snd (context_deduplication content)
  = Qmin 0.99 (inject_Z (Z.of_nat (length (kept_blocks content)))
               / inject_Z (Z.of_nat (length (blocks_of content)))).
Proof.
  pose proof (split_nonempty "\n\s*\n" content) as Hn. fold (blocks_of content) in Hn.
  unfold context_deduplication. cbn [snd]. fold (blocks_of content). fold (kept_blocks content).
  assert (E : Nat.ltb 0 (length (blocks_of content)) = true) by (apply Nat.ltb_lt; lia).
  now rewrite E.
Qed.

(** X5. [context_deduplication] never keeps more blocks than it found, and
    its preservation factor is the share of the blocks it kept, capped at
    0.99: it lies between 0 and 0.99. *)
Theorem context_deduplication_score (content : string) :
  let found := length (blocks_of content) in
  let kept := length (kept_blocks content) in
  1 <= found /\ kept <= found /\
  snd (context_deduplication content)
    = Qmin 0.99 (inject_Z (Z.of_nat kept) / inject_Z (Z.of_nat found)) /\
  (0 <= snd (context_deduplication content))%Q /\
  (snd (context_deduplication content) <= 0.99)%Q.
Proof.
  cbv zeta. pose proof (split_nonempty "\n\s*\n" content) as Hn. fold (blocks_of content) in Hn.
  split; [exact Hn|]. split; [|split].
  - destruct (kept_blocks_spec content) as (_ & _ & _ & _ & C). exact C.
  - apply context_deduplication_share.
  - pose proof (context_deduplication_factor content) as [A B]. split; [exact A|].
    unfold context_deduplication. cbn [snd]. apply Q.le_min_l.
Qed.

(** ** Texts made of some characters only *)

Lemma every_app (p : ascii -> bool) (a b : string) :
  every p (a +:+ b) = (every p a && every p b)%bool.
Proof.
  induction a as [|x a IH]; [reflexivity|].
  rewrite app_cons. cbn [every]. rewrite IH. now rewrite andb_assoc.
Qed.

Lemma every_rev_app (p : ascii -> bool) (s acc : string) :
  every p (String.rev_app s acc) = (every p s && every p acc)%bool.
Proof.
  revert acc. induction s as [|x s IH]; intros acc; [reflexivity|].
  cbn [String.rev_app every]. rewrite IH. cbn [every].
  destruct (p x), (every p s), (every p acc); reflexivity.
Qed.

Lemma every_rev (p : ascii -> bool) (s : string) : every p (String.rev s) = every p s.
Proof. unfold String.rev. rewrite every_rev_app. cbn [every]. apply andb_true_r. Qed.

Lemma every_drop (p : ascii -> bool) (n : nat) (s : string) :
  every p s = true -> every p (Str.drop n s) = true.
Proof.
  revert s. induction n as [|n IH]; intros [|x s] H; cbn [Str.drop]; auto.
  cbn [every] in H. apply andb_prop in H. now apply IH.
Qed.

Lemma every_take (p : ascii -> bool) (n : nat) (s : string) :
  every p s = true -> every p (Str.take n s) = true.
Proof.
  revert s. induction n as [|n IH]; intros [|x s] H; cbn [Str.take every]; auto.
  cbn [every] in H. apply andb_prop in H. destruct H as [Hx H]. now rewrite Hx, IH.
Qed.

Lemma match_here_text (fl : Re.flags) (r : Re.regex) (prev : option ascii) (rest : string)
    (pos : nat) (must_advance : bool) (m : Re.Match) :
  Re.match_here fl r prev rest pos must_advance = Some m ->
  exists n k, Re.m_text m = Str.take k rest /\ Re.m_tail m = Str.drop n rest.
Proof.
  intros H. destruct (SubFacts.match_here_ahead _ _ _ _ _ _ _ H) as (n & Ht & _).
  unfold Re.match_here in H. destruct (Re.exec _ _ _ _) as [st1|]; [|discriminate].
  injection H as <-. cbn [Re.m_text Re.m_tail] in *. eauto.
Qed.

(** What a scan cuts a text into is made of the characters of the text. *)
Lemma scan_every (p : ascii -> bool) (fl : Re.flags) (r : Re.regex) (fuel : nat)
    (prev : option ascii) (rest : string) (pos : nat) (must_advance : bool)
    (skipped : string) :
  every p skipped = true -> every p rest = true ->
  Forall (fun sm => every p (fst sm) = true /\ every p (Re.m_text (snd sm)) = true)
         (fst (Re.scan fl r fuel prev rest pos must_advance skipped)) /\
  every p (snd (Re.scan fl r fuel prev rest pos must_advance skipped)) = true.
Proof.
  revert prev rest pos must_advance skipped.
  induction fuel as [|fuel IH]; intros prev rest pos must_advance skipped Hs Hr; cbn [Re.scan].
  - cbn [fst snd]. split; [constructor|]. now rewrite every_app, every_rev, Hs, Hr.
  - destruct (Re.match_here fl r prev rest pos must_advance) as [m|] eqn:E.
    + destruct (match_here_text _ _ _ _ _ _ _ E) as (n & k & Htext & Htail).
      specialize (IH (Re.m_prev_end m) (Re.m_tail m) (Re.m_end m)
                     (Nat.eqb (Re.m_end m) pos) EmptyString eq_refl).
      rewrite Htail in IH at 1. specialize (IH (every_drop p n rest Hr)).
      destruct (Re.scan fl r fuel _ _ _ _ _) as [ms tail]. cbn [fst snd] in *.
      destruct IH as [IH1 IH2]. split; [|exact IH2].
      constructor; [|exact IH1]. cbn [fst snd]. rewrite every_rev, Htext.
      split; [exact Hs|now apply every_take].
    + destruct rest as [|x rest'].
      * cbn [fst snd]. split; [constructor|]. now rewrite every_rev.
      * cbn [every] in Hr. apply andb_prop in Hr. destruct Hr as [Hx Hr].
        apply IH; [|exact Hr]. cbn [every]. now rewrite Hx, Hs.
Qed.

Lemma split_every (p : ascii -> bool) (pattern s : string) :
  every p s = true -> Forall (fun piece => every p piece = true) (Re.split pattern s).
Proof.
  intros H. unfold Re.split, Re.scan_all.
  pose proof (scan_every p Re.no_flags (Re.compile pattern) (2 * String.length s + 2) None s 0
                false EmptyString eq_refl H) as [A B].
  destruct (Re.scan _ _ _ _ _ _ _ _) as [ms tail]. cbn [fst snd] in *.
  apply Forall_app. split.
  - apply List.Forall_map. eapply List.Forall_impl; [|exact A]. intros sm [Hs _]. exact Hs.
  - constructor; [exact B|constructor].
Qed.

Lemma lstrip_blank (s : string) : every Chr.isspace s = true -> Str.lstrip s = EmptyString.
Proof.
  induction s as [|x s IH]; [reflexivity|]. cbn [every Str.lstrip].
  intros H. apply andb_prop in H. destruct H as [Hx H]. rewrite Hx. now apply IH.
Qed.

Lemma strip_blank (s : string) : every Chr.isspace s = true -> Str.strip s = EmptyString.
Proof. intros H. unfold Str.strip. now rewrite lstrip_blank. Qed.

Lemma fold_keep_blank (blocks unique_blocks : list string) :
  Forall (fun piece => every Chr.isspace piece = true) blocks ->
  fold_left keep_block blocks unique_blocks = unique_blocks.
Proof.
  induction 1 as [|b blocks Hb _ IH]; [reflexivity|].
  cbn [fold_left]. unfold keep_block at 2. rewrite (strip_blank b Hb). exact IH.
Qed.

(** X6. On a content made of whitespace only (the empty content included)
    [context_deduplication] keeps no block: it returns the empty text with
    a preservation factor of 0. *)
Theorem context_deduplication_blank (content : string) :
  every Chr.isspace content = true ->
  fst (context_deduplication content) = EmptyString /\
  (snd (context_deduplication content) == 0)%Q.
Proof.
  intros H.
  assert (E : kept_blocks content = []).
  { unfold kept_blocks. apply fold_keep_blank. now apply split_every. }
  rewrite context_deduplication_kept, context_deduplication_share, E. split; [reflexivity|].
  cbn [length].
  assert (Hq : (inject_Z (Z.of_nat 0) / inject_Z (Z.of_nat (length (blocks_of content))) == 0)%Q).
  { unfold Qdiv. simpl. apply Qmult_0_l. }
  rewrite Hq. reflexivity.
Qed.

Lemma context_deduplication_blank_witness :
  fst (context_deduplication (Str.nl +:+ "  " +:+ Str.nl)) = EmptyString /\
  (snd (context_deduplication (Str.nl +:+ "  " +:+ Str.nl)) == 0)%Q.
Proof.
  apply (context_deduplication_blank (Str.nl +:+ "  " +:+ Str.nl)). vm_compute. reflexivity.
Defined.

(** ** aggressive_compression and semantic_condensation *)

Lemma total_len_snoc (ls : list string) (l : string) :
  total_len (ls ++ [l]) = total_len ls + String.length l + 1.
Proof. induction ls as [|a ls IH]; simpl; [lia|]. rewrite IH. lia. Qed.

Lemma filter_example_total (lines : list string) (acc : list string * nat) :
  total_len (fst (fold_left filter_example lines acc)) <= total_len (fst acc) + total_len lines.
Proof.
  revert acc. induction lines as [|l lines IH]; intros [kept n]; cbn [fold_left].
  - simpl. lia.
  - eapply Nat.le_trans; [apply IH|]. unfold filter_example.
    destruct (Re.search _ l Re.ignorecase); [destruct (Nat.leb (n + 1) max_examples)|];
      cbn [fst]; rewrite ?total_len_snoc; simpl; lia.
Qed.

Lemma join_lines_length (ls : list string) (bound : nat) :
  total_len ls <= bound + 1 -> String.length (Str.join Str.nl ls) <= bound.
Proof.
  intros H. destruct ls as [|l ls]; [simpl; lia|].
  pose proof (join_total Str.nl (l :: ls) eq_refl ltac:(discriminate)). lia.
Qed.

(** X7. [aggressive_compression] never returns a text longer than its
    input: comments and lines are removed, and each abbreviation is
    shorter than the word it stands for. *)
Theorem aggressive_compression_shorter (content : string) :
  String.length (fst (aggressive_compression content)) <= String.length content.
Proof.
  unfold aggressive_compression. cbn [fst].
  eapply Nat.le_trans; [apply fold_sub_length; vm_compute; reflexivity|].
  apply join_lines_length.
  eapply Nat.le_trans; [apply filter_example_total|]. cbn [fst total_len fold_right].
  rewrite split_chr_total. rewrite Nat.add_0_l. apply Nat.add_le_mono_r.
  eapply Nat.le_trans; [apply SubFacts.sub_length; vm_compute; lia|].
  eapply Nat.le_trans; [apply SubFacts.sub_length; vm_compute; lia|].
  apply SubFacts.sub_length. vm_compute. lia.
Qed.

(** X8. On every non-empty content [semantic_condensation] returns: the
    text it returns is not longer than the content, and its factor is
    max(0.95, 1 - 2 * removed / length), between 0.95 and 1. *)
Theorem semantic_condensation_returns (content : string) :
  content <> EmptyString ->
  exists (out : string) (f : Q),
    semantic_condensation content = Returns (out, f) /\
    String.length out <= String.length content /\
    f = Qmax 0.95 (1.0 - (inject_Z (len content - len out) / inject_Z (len content)) * 2)%Q /\
    (0.95 <= f)%Q /\ (f <= 1)%Q.
Proof.
  intros Hne. exists (condense content). eexists.
  split; [now apply semantic_condensation_nonempty|].
  split; [apply condense_length|]. split; [reflexivity|].
  eapply semantic_condensation_factor. now apply semantic_condensation_nonempty.
Qed.

Lemma semantic_condensation_returns_witness :
  exists (out : string) (f : Q),
    semantic_condensation "it is really due to the fact that" = Returns (out, f) /\
    String.length out <= String.length "it is really due to the fact that" /\
    f = Qmax 0.95 (1.0 - (inject_Z (len "it is really due to the fact that" - len out)
                          / inject_Z (len "it is really due to the fact that")) * 2)%Q /\
    (0.95 <= f)%Q /\ (f <= 1)%Q.
Proof.
  apply (semantic_condensation_returns "it is really due to the fact that"). discriminate.
Defined.

(** ** compress_content *)

Lemma apply_strategy_least (s : strategy) (content c' : string) (f : Q) :
  apply_strategy s content = Returns (c', f) -> (least_factor s <= f)%Q.
Proof.
  destruct s; cbn [apply_strategy least_factor]; intros H.
  - apply returns_snd in H. rewrite compress_whitespace_factor in H. subst f. lra.
  - apply returns_snd in H. rewrite eliminate_redundancy_factor in H. subst f. lra.
  - apply semantic_condensation_factor in H. lra.
  - apply returns_snd in H. rewrite pattern_abstraction_factor in H. subst f. lra.
  - apply returns_snd in H. subst f. apply context_deduplication_factor.
  - apply returns_snd in H. rewrite aggressive_compression_factor in H. subst f. lra.
Qed.

Lemma Qmul_mono_r (a x y : Q) : (0 <= a -> x <= y -> a * x <= a * y)%Q.
Proof. intros Ha Hxy. nra. Qed.

Lemma Qmul_unit (x y : Q) : (0 <= x <= 1 -> 0 <= y <= 1 -> 0 <= x * y <= 1)%Q.
Proof. intros [A B] [C D]. split; nra. Qed.

Section Run.
Variables (original_size : Z) (target_reduction : Q) (max_time : Z) (elapsed : nat -> Z).

Lemma run_strategies_sublist (selected : list strategy) (i : nat) (p : pipeline) :
  exists applied,
    methods (run_strategies original_size target_reduction max_time elapsed i selected p)
    = methods p ++ applied /\ sublist applied selected.
Proof.
  revert i p. induction selected as [|s rest IH]; intros i p.
  - exists []. split; [simpl; now rewrite app_nil_r|constructor].
  - cbn [run_strategies].
    destruct (loop_body_step original_size target_reduction max_time elapsed i s p)
      as [E|(content & f & _ & E)]; cbv zeta in E;
      destruct (loop_body _ _ _ _ _ _ _) as [p'|p']; cbn [flow_pipeline] in E; subst p'.
    + exists []. split; [now rewrite app_nil_r|apply sublist_nil_l].
    + destruct (IH (S i) p) as (applied & H1 & H2). exists applied.
      split; [exact H1|now apply sublist_cons].
    + exists [s]. split; [reflexivity|]. apply sublist_skip, sublist_nil_l.
    + destruct (IH (S i) {| compressed_content := content;
                            overall_preservation := (overall_preservation p * f)%Q;
                            methods := methods p ++ [s] |}) as (applied & H1 & H2).
      exists (s :: applied). split; [|now apply sublist_skip].
      rewrite H1. cbn [methods]. now rewrite <- app_assoc.
Qed.

Lemma least_factor_bounds (s : strategy) : (0 <= least_factor s <= 1)%Q.
Proof. destruct s; simpl; lra. Qed.

Lemma least_score_bounds (selected : list strategy) : (0 <= least_score selected <= 1)%Q.
Proof.
  induction selected as [|s rest IH]; [simpl; lra|].
  cbn [least_score fold_right]. fold (least_score rest).
  apply Qmul_unit; [apply least_factor_bounds|exact IH].
Qed.

Lemma run_strategies_least (selected : list strategy) (i : nat) (p : pipeline) :
  (0 <= overall_preservation p)%Q ->
  (overall_preservation p * least_score selected
   <= overall_preservation
        (run_strategies original_size target_reduction max_time elapsed i selected p))%Q.
Proof.
  revert i p. induction selected as [|s rest IH]; intros i p H0.
  - simpl. lra.
  - cbn [run_strategies least_score fold_right]. fold (least_score rest).
    pose proof (least_score_bounds rest) as [L0 L1].
    pose proof (least_factor_bounds s) as [C D].
    pose proof (Qmul_unit _ _ (conj C D) (conj L0 L1)) as [K0 K1].
    assert (K2 : (least_factor s * least_score rest <= least_score rest)%Q) by nra.
    assert (K3 : (least_factor s * least_score rest <= least_factor s)%Q) by nra.
    destruct (loop_body_step original_size target_reduction max_time elapsed i s p)
      as [E|(content & f & Happ & E)]; cbv zeta in E;
      destruct (loop_body _ _ _ _ _ _ _) as [p'|p']; cbn [flow_pipeline] in E; subst p'.
    + eapply Qle_trans; [apply (Qmul_mono_r _ _ 1 H0 K1)|]. lra.
    + eapply Qle_trans; [|apply IH; exact H0]. now apply Qmul_mono_r.
    + cbn [overall_preservation].
      assert (least_factor s <= f)%Q by exact (apply_strategy_least s _ content f Happ).
      apply Qmul_mono_r; [exact H0|lra].
    + assert (Hf : (least_factor s <= f)%Q) by exact (apply_strategy_least s _ content f Happ).
      apply apply_strategy_factor in Happ. destruct Happ as [F0 F1].
      assert (P0 : (0 <= overall_preservation p * f)%Q) by nra.
      eapply Qle_trans; [|apply IH; cbn [overall_preservation]; exact P0].
      cbn [overall_preservation]. rewrite <- Qmult_assoc. apply Qmul_mono_r; [exact H0|].
      nra.
Qed.
End Run.

Lemma Qle_bool_false_lt (x y : Q) : Qle_bool x y = false -> (y < x)%Q.
Proof.
  intros H. apply Qnot_le_lt. intros L. apply Qle_bool_iff in L. congruence.
Qed.

Lemma select_strategies_cases (target_reduction : Q) (aggressive_mode : bool) :
  In (select_strategies target_reduction aggressive_mode)
     [ [whitespace_optimization];
       [whitespace_optimization; redundancy_elimination];
       [whitespace_optimization; redundancy_elimination; semantic_condensation_];
       [whitespace_optimization; redundancy_elimination; semantic_condensation_;
        pattern_abstraction_];
       [aggressive_compression_; context_deduplication_; semantic_condensation_;
        whitespace_optimization] ].
Proof.
  unfold select_strategies. destruct aggressive_mode; cbn [negb].
  - do 4 right. now left.
  - destruct (Qle_bool target_reduction 0.10); [now left|].
    destruct (Qle_bool target_reduction 0.20); [right; now left|].
    destruct (Qle_bool target_reduction 0.30); [do 2 right; now left|do 3 right; now left].
Qed.

Lemma select_strategies_nodup (target_reduction : Q) (aggressive_mode : bool) :
  NoDup (select_strategies target_reduction aggressive_mode).
Proof.
  pose proof (select_strategies_cases target_reduction aggressive_mode) as H.
  cbn [In] in H. destruct H as [<-|[<-|[<-|[<-|[<-|[]]]]]];
    repeat (apply NoDup_cons; split; [intros H; repeat (apply elem_of_cons in H as [H|H]; [discriminate H|]); now apply elem_of_nil in H|]);
    apply NoDup_nil; exact I.
Qed.

(** X9. The strategies that [method_used] names were selected, appear in
    the order of the selection and appear once each. *)
Theorem method_used_follows_selection (md5_hexdigest : string -> string)
    (content : string) (target_reduction : Q) (max_time : Z) (aggressive_mode : bool)
    (elapsed : nat -> Z) (total_seconds : Q) :
  exists applied : list strategy,
    method_used (compute_result md5_hexdigest content target_reduction max_time
                   aggressive_mode elapsed total_seconds)
    = Str.join ", " (map strategy_name applied) /\
    sublist applied (select_strategies target_reduction aggressive_mode) /\
    NoDup applied.
Proof.
  destruct (run_strategies_sublist (len content) target_reduction max_time elapsed
              (select_strategies target_reduction aggressive_mode) 0 (initial content))
    as (applied & H1 & H2).
  exists applied. unfold compute_result. cbn [method_used]. rewrite H1. cbn [initial methods app].
  split; [reflexivity|]. split; [exact H2|].
  exact (sublist_NoDup _ _ (select_strategies_nodup _ _) H2).
Qed.

(** X10. A call of [compress_content] never removes or replaces an entry
    of the cache: whatever was stored under a key is still stored under
    it after the call. *)
Theorem cache_keeps_entries (md5_hexdigest : string -> string) (format_float : Q -> string)
    (compression_cache : gmap string CompressionResult)
    (content : string) (target_reduction : Q) (max_time : Z) (aggressive_mode : bool)
    (elapsed : nat -> Z) (total_seconds : Q) (key : string) (stored : CompressionResult) :
  compression_cache !! key = Some stored ->
  snd (compress_content md5_hexdigest format_float compression_cache content
         target_reduction max_time aggressive_mode elapsed total_seconds) !! key
  = Some stored.
Proof.
  intros H. unfold compress_content.
  destruct (compression_cache !! cache_key _ _ _ _ _) as [cached|] eqn:E; cbn [snd]; [exact H|].
  rewrite lookup_insert_ne; [exact H|]. intros Heq. congruence.
Qed.

Lemma cache_keeps_entries_witness :
  let first := compress_content no_digest no_format ∅ "one  two" 0.05 30 false frozen 0 in
  snd (compress_content (fun s => s) no_format (snd first) "other" 0.05 30 false frozen 0)
    !! "__False"
  = Some (fst first).
Proof.
  cbv zeta. apply cache_keeps_entries. vm_compute. reflexivity.
Defined.

(** X11. When the time is up at the first check of the clock (as it always
    is for a [max_time] of 0 or less), no strategy is applied: the result
    reports the content as it came, an empty [method_used], no token
    saved, a preservation score of 1.0 and a compression ratio of 1. *)
Theorem timeout_before_first_strategy (md5_hexdigest : string -> string)
    (content : string) (target_reduction : Q) (max_time : Z) (aggressive_mode : bool)
    (elapsed : nat -> Z) (total_seconds : Q) :
  (max_time <= elapsed 0%nat)%Z ->
  let r := compute_result md5_hexdigest content target_reduction max_time aggressive_mode
             elapsed total_seconds in
  method_used r = EmptyString /\
  compressed_size r = original_size r /\
  tokens_saved r = 0%Z /\
  preservation_score r = 1.0%Q /\
  (compression_ratio r == 1)%Q.
Proof.
  intros Ht. cbv zeta.
  assert (E : run_strategies (len content) target_reduction max_time elapsed 0
                (select_strategies target_reduction aggressive_mode) (initial content)
              = initial content).
  { pose proof (select_strategies_cases target_reduction aggressive_mode) as H.
    apply Z.leb_le in Ht.
    cbn [In] in H. destruct H as [<-|[<-|[<-|[<-|[<-|[]]]]]];
      cbn [run_strategies]; unfold loop_body; now rewrite Ht. }
  unfold compute_result.
  cbn [method_used compressed_size original_size tokens_saved preservation_score
       compression_ratio].
  rewrite E. cbn [initial compressed_content overall_preservation methods map Str.join].
  repeat split; [lia|].
  destruct (Z.ltb 0 (len content)) eqn:L; [|reflexivity].
  apply Z.ltb_lt in L. field. change 0%Q with (inject_Z 0). rewrite inject_Z_injective. lia.
Qed.

Lemma timeout_before_first_strategy_witness :
  let r := compute_result no_digest "some   content" 0.25 0 false frozen 0 in
  method_used r = EmptyString /\
  compressed_size r = original_size r /\
  tokens_saved r = 0%Z /\
  preservation_score r = 1.0%Q /\
  (compression_ratio r == 1)%Q.
Proof.
  apply (timeout_before_first_strategy no_digest "some   content" 0.25 0 false frozen 0).
  vm_compute. discriminate.
Defined.

(** X12. Without aggressive mode the preservation score is never below
    0.99 * 0.95 * 0.98 = 0.92169; it is 1 for a target of at most 0.10, at
    least 0.99 for a target of at most 0.20 and at least 0.9405 for a
    target of at most 0.30. *)
Theorem preservation_floor (md5_hexdigest : string -> string)
    (content : string) (target_reduction : Q) (max_time : Z)
    (elapsed : nat -> Z) (total_seconds : Q) :
  let r := compute_result md5_hexdigest content target_reduction max_time false
             elapsed total_seconds in
  (0.92169 <= preservation_score r)%Q /\
  ((target_reduction <= 0.10)%Q -> (preservation_score r == 1)%Q) /\
  ((target_reduction <= 0.20)%Q -> (0.99 <= preservation_score r)%Q) /\
  ((target_reduction <= 0.30)%Q -> (0.9405 <= preservation_score r)%Q).
Proof.
  cbv zeta. unfold compute_result. cbn [preservation_score].
  assert (H0 : (0 <= overall_preservation (initial content))%Q) by (simpl; lra).
  pose proof (run_strategies_least (len content) target_reduction max_time elapsed
                (select_strategies target_reduction false) 0 (initial content) H0) as L.
  pose proof (run_trace_scores (len content) target_reduction max_time elapsed
                (select_strategies target_reduction false) 0 (initial content) H0)
    as (_ & _ & _ & U).
  cbv zeta in U. rewrite <- run_strategies_last in U.
  change (overall_preservation (initial content)) with 1.0%Q in L, U.
  unfold select_strategies in L. cbn [negb] in L.
  destruct (Qle_bool target_reduction 0.10) eqn:E1;
    [|destruct (Qle_bool target_reduction 0.20) eqn:E2;
      [|destruct (Qle_bool target_reduction 0.30) eqn:E3]];
    unfold least_score in L; cbn [fold_right least_factor] in L;
    unfold select_strategies; cbn [negb]; rewrite ?E1, ?E2, ?E3;
    unfold select_strategies in U; cbn [negb] in U; rewrite ?E1, ?E2, ?E3 in U;
    repeat split; intros; try lra;
    try (exfalso;
         match goal with
         | H : (target_reduction <= _)%Q |- _ => apply Qle_bool_iff in H
         end;
         repeat match goal with
         | E : Qle_bool target_reduction _ = false |- _ =>
             apply Qle_bool_false_lt in E
         | E : Qle_bool target_reduction _ = true |- _ => apply Qle_bool_iff in E
         end; lra).
Qed.

Lemma preservation_floor_witness :
  let r := compute_result no_digest "a  b" 0.05 30 false frozen 0 in
  (preservation_score r == 1)%Q.
Proof.
  apply (preservation_floor no_digest "a  b" 0.05 30 frozen 0). lra.
Defined.

(** ** eliminate_redundancy on a text with nothing to eliminate *)

Lemma join_split (s : string) : Str.join Str.nl (Str.split_chr Chr.LF s) = s.
Proof.
  induction s as [|x s IH]; [reflexivity|].
  cbn [Str.split_chr]. destruct (Chr.eqb x Chr.LF) eqn:E.
  - apply Ascii.eqb_eq in E. subst x.
    pose proof (split_chr_nonempty Chr.LF s) as Hne.
    destruct (Str.split_chr Chr.LF s) as [|w ws]; [congruence|].
    change (Str.join Str.nl (EmptyString :: w :: ws))
      with (EmptyString +:+ Str.nl +:+ Str.join Str.nl (w :: ws)).
    now rewrite IH.
  - destruct (Str.split_chr Chr.LF s) as [|w ws].
    + simpl in IH. now subst s.
    + destruct ws as [|w' ws].
      * simpl in *. now subst w.
      * change (Str.join Str.nl (String x w :: w' :: ws))
          with (String x (w +:+ Str.nl +:+ Str.join Str.nl (w' :: ws))).
        change (Str.join Str.nl (w :: w' :: ws))
          with (w +:+ Str.nl +:+ Str.join Str.nl (w' :: ws)) in IH.
        now rewrite IH.
Qed.

Lemma reference_lines_rare (line_frequency : gmap string nat) (lines : list string)
    (st : ref_state) :
  Forall (fun l => Str.strip l = EmptyString
                   \/ default 0 (line_frequency !! Str.strip l) <= 2) lines ->
  processed_lines (fold_left (reference_line line_frequency) lines st)
  = processed_lines st ++ lines.
Proof.
  intros H. revert st. induction H as [|l lines Hl _ IH]; intros st.
  - simpl. now rewrite app_nil_r.
  - cbn [fold_left].
    assert (E : reference_line line_frequency st l =
                {| processed_lines := processed_lines st ++ [l];
                   line_refs := line_refs st; ref_counter := ref_counter st |}).
    { unfold reference_line. destruct Hl as [H|H].
      - rewrite H. reflexivity.
      - apply Nat.ltb_ge in H. rewrite H, andb_false_r. reflexivity. }
    rewrite E, IH. cbn [processed_lines]. now rewrite <- app_assoc.
Qed.

(** X13. A content in which no stripped, non-empty line occurs more than
    twice and in which no pattern of the redundancy catalog matches is
    returned by [eliminate_redundancy] exactly as it is. *)
Theorem eliminate_redundancy_clean (content : string) :
  no_line_thrice content = true ->
  ScenarioB.no_redundancy content = true ->
  eliminate_redundancy content = (content, 0.99%Q).
Proof.
  intros Hrare Hfree. unfold eliminate_redundancy. f_equal.
  assert (E : consolidate_lines content = content).
  { unfold consolidate_lines. rewrite reference_lines_rare.
    - cbn [processed_lines app]. apply join_split.
    - unfold no_line_thrice in Hrare. cbv zeta in Hrare.
      rewrite List.forallb_forall in Hrare. apply List.Forall_forall. intros l Hl.
      specialize (Hrare l Hl). apply orb_prop in Hrare. destruct Hrare as [H|H].
      + left. now apply String.eqb_eq.
      + destruct (String.eqb (Str.strip l) EmptyString) eqn:E0.
        * left. now apply String.eqb_eq.
        * right. apply String.eqb_neq in E0.
          rewrite ScenarioBFacts.count_lines_freq by exact E0. now apply Nat.leb_le. }
  rewrite E. now apply ScenarioBFacts.remove_phrases_no_match.
Qed.

Lemma eliminate_redundancy_clean_witness :
  eliminate_redundancy ("alpha beta" +:+ Str.nl +:+ "gamma" +:+ Str.nl +:+ "alpha beta")
  = ("alpha beta" +:+ Str.nl +:+ "gamma" +:+ Str.nl +:+ "alpha beta", 0.99%Q).
Proof.
  apply eliminate_redundancy_clean; vm_compute; reflexivity.
Defined.

(** ** compress_whitespace and carriage returns *)

Lemma sub_pieces_every (p : ascii -> bool) (repl : string) (ms : list (string * Re.Match))
    (tail : string) :
  every p repl = true ->
  Forall (fun sm => every p (fst sm) = true /\ every p (Re.m_text (snd sm)) = true) ms ->
  every p tail = true ->
  every p (Re.sub_pieces (fun _ => repl) ms tail) = true.
Proof.
  intros Hr H Ht. induction H as [|[sk m] ms [Hs _] _ IH]; [exact Ht|].
  cbn [Re.sub_pieces]. cbn [fst] in Hs. now rewrite !every_app, Hs, Hr, IH.
Qed.

(** A substitution puts together characters of the text and of the
    replacement only. *)
Lemma sub_every (p : ascii -> bool) (pattern repl s : string) (fl : Re.flags) :
  every p repl = true -> every p s = true -> every p (Re.sub pattern repl s fl) = true.
Proof.
  intros Hr Hs. unfold Re.sub, Re.sub_with, Re.scan_all.
  pose proof (scan_every p fl (Re.compile pattern) (2 * String.length s + 2) None s 0 false
                EmptyString eq_refl Hs) as [A B].
  destruct (Re.scan _ _ _ _ _ _ _ _) as [ms tail]. cbn [fst snd] in *.
  now apply sub_pieces_every.
Qed.

Lemma finditer_every (p : ascii -> bool) (pattern s : string) (fl : Re.flags) :
  every p s = true ->
  Forall (fun block => every p block = true) (map Re.m_text (Re.finditer pattern s fl)).
Proof.
  intros Hs. unfold Re.finditer, Re.scan_all.
  pose proof (scan_every p fl (Re.compile pattern) (2 * String.length s + 2) None s 0 false
                EmptyString eq_refl Hs) as [A _].
  destruct (Re.scan _ _ _ _ _ _ _ _) as [ms tail]. cbn [fst] in *.
  rewrite List.map_map. apply List.Forall_map.
  eapply List.Forall_impl; [|exact A]. intros sm [_ H]. exact H.
Qed.

Lemma split_chr_every (p : ascii -> bool) (sep : ascii) (s : string) :
  every p s = true -> Forall (fun l => every p l = true) (Str.split_chr sep s).
Proof.
  induction s as [|x s IH]; intros H.
  - repeat constructor.
  - cbn [every] in H. apply andb_prop in H. destruct H as [Hx H]. specialize (IH H).
    cbn [Str.split_chr]. destruct (Chr.eqb x sep).
    + constructor; [reflexivity|exact IH].
    + destruct (Str.split_chr sep s) as [|w ws].
      * repeat constructor. cbn [every]. now rewrite Hx.
      * apply Forall_cons_iff in IH. destruct IH as [Hw Hws].
        constructor; [|exact Hws]. cbn [every]. now rewrite Hx, Hw.
Qed.

Lemma join_every (p : ascii -> bool) (sep : string) (parts : list string) :
  every p sep = true -> Forall (fun l => every p l = true) parts ->
  every p (Str.join sep parts) = true.
Proof.
  intros Hsep H. induction H as [|l ls Hl Hls IH]; [reflexivity|].
  destruct ls as [|l' ls]; [exact Hl|].
  change (Str.join sep (l :: l' :: ls)) with (l +:+ sep +:+ Str.join sep (l' :: ls)).
  now rewrite !every_app, Hl, Hsep, IH.
Qed.

Lemma rstrip_every (p : ascii -> bool) (s : string) :
  every p s = true -> every p (Str.rstrip s) = true.
Proof.
  induction s as [|x s IH]; intros H; [reflexivity|].
  cbn [every] in H. apply andb_prop in H. destruct H as [Hx H]. specialize (IH H).
  cbn [Str.rstrip]. destruct (Str.rstrip s) as [|y r].
  - destruct (Chr.isspace x); [reflexivity|]. cbn [every]. now rewrite Hx.
  - cbn [every] in *. now rewrite Hx, IH.
Qed.

Lemma replace_first_every (p : ascii -> bool) (old new s : string) :
  every p new = true -> every p s = true -> every p (Str.replace_first old new s) = true.
Proof.
  intros Hn. induction s as [|x s IH]; intros Hs.
  - cbn [Str.replace_first]. destruct (Str.startswith old EmptyString).
    + rewrite every_app, Hn. now apply every_drop.
    + reflexivity.
  - cbn [Str.replace_first]. destruct (Str.startswith old (String x s)).
    + rewrite every_app, Hn. now apply every_drop.
    + cbn [every] in *. apply andb_prop in Hs. destruct Hs as [Hx Hs]. now rewrite Hx, IH.
Qed.

Lemma fold_replace_first_every (p : ascii -> bool) (old : string) (blocks : list string)
    (s : string) :
  Forall (fun block => every p block = true) blocks -> every p s = true ->
  every p (fold_left (fun acc block => Str.replace_first old block acc) blocks s) = true.
Proof.
  intros H. revert s. induction H as [|b blocks Hb _ IH]; intros s Hs; [exact Hs|].
  cbn [fold_left]. apply IH. now apply replace_first_every.
Qed.

(** What a pattern without groups reads is shorter than what it starts
    from, by the least length of a match. *)
Lemma den_shorter (fl : Re.flags) (r : Re.regex) (s t : string) :
  ReSpec.simple fl r = true ->
  ReSpec.den fl r (fun t => Some t) s = Some t ->
  String.length t + ReSpec.min_len r <= String.length s.
Proof.
  intros Hs Hd.
  pose proof (SimpleFacts.den_realizes fl r Hs _ _ SimpleSub.realizes_final
                {| Re.st_prev := None; Re.st_rest := s; Re.st_pos := 0;
                   Re.st_groups := []; Re.st_lastindex := None |}) as H.
  cbv beta in H. cbn [Re.st_rest] in H. rewrite Hd in H.
  destruct H as (res & He & Hr & _).
  apply ReFacts.exec_ahead in He. destruct He as (st1 & n & Hk & (_ & Hrest & Hn) & Hm).
  injection Hk as ->. cbn [Re.st_rest] in *. rewrite <- Hr, Hrest, length_drop. lia.
Qed.

(** When the pattern matches at every character that fails [p], the
    result of the substitution holds no such character. *)
Lemma sub_spec_every (p : ascii -> bool) (g : string -> option string) (repl : string) :
  (forall s t, g s = Some t -> String.length t < String.length s) ->
  (forall x r, p x = false -> g (String x r) <> None) ->
  every p repl = true ->
  forall fuel s, String.length s <= fuel -> every p (ReSpec.sub_spec g repl fuel s) = true.
Proof.
  intros Hshort Hhit Hrepl. induction fuel as [|fuel IH]; intros s Hf.
  - destruct s; [reflexivity|simpl in Hf; lia].
  - cbn [ReSpec.sub_spec]. destruct (g s) as [t|] eqn:E.
    + rewrite every_app, Hrepl. apply IH. apply Hshort in E. lia.
    + destruct s as [|x r]; [reflexivity|]. cbn [every].
      destruct (p x) eqn:Hp; [|now destruct (Hhit x r Hp)].
      apply IH. simpl in Hf. lia.
Qed.

Lemma line_endings_normalized (content : string) :
  every not_cr (Re.sub "\r\n|\r" Str.nl content Re.no_flags) = true.
Proof.
  unfold Re.sub.
  rewrite (SimpleSub.sub_with_simple "\r\n|\r" (fun _ => Str.nl) Str.nl content Re.no_flags);
    [| reflexivity | vm_compute; lia | reflexivity ].
  apply sub_spec_every.
  - intros s t H. apply den_shorter in H; [|reflexivity].
    assert (ReSpec.min_len (Re.compile "\r\n|\r") = 1) as E by reflexivity.
    rewrite E in H. lia.
  - intros x r Hp. unfold not_cr in Hp. apply negb_false_iff, Ascii.eqb_eq in Hp. subst x.
    change (ReSpec.den Re.no_flags (Re.compile "\r\n|\r") (fun t => Some t) (String Chr.CR r))
      with (match (match r with
                   | String y r' => if Chr.eqb Chr.LF y then Some r' else None
                   | EmptyString => None
                   end) with
            | Some t => Some t
            | None => Some r
            end).
    destruct r as [|y r']; [discriminate|]. destruct (Chr.eqb Chr.LF y); discriminate.
  - reflexivity.
  - lia.
Qed.

(** X14. The text that [compress_whitespace] returns holds no carriage
    return, whatever the content. *)
Theorem compress_whitespace_no_carriage_return (content : string) :
  every not_cr (fst (compress_whitespace content)) = true.
Proof.
  unfold compress_whitespace. cbn [fst].
  pose proof (line_endings_normalized content) as H1.
  set (c1 := Re.sub "\r\n|\r" Str.nl content Re.no_flags) in *.
  assert (H2 : every not_cr (Re.sub "\n\s*\n\s*\n+" (Str.nl +:+ Str.nl) c1 Re.no_flags) = true)
    by (apply sub_every; [reflexivity|exact H1]).
  set (c2 := Re.sub "\n\s*\n\s*\n+" (Str.nl +:+ Str.nl) c1 Re.no_flags) in *.
  assert (H3 : every not_cr (Str.join Str.nl (map Str.rstrip (Str.split_chr Chr.LF c2))) = true).
  { apply join_every; [reflexivity|]. apply List.Forall_map.
    eapply List.Forall_impl; [|apply split_chr_every; exact H2].
    intros l Hl. now apply rstrip_every. }
  set (c3 := Str.join Str.nl (map Str.rstrip (Str.split_chr Chr.LF c2))) in *.
  apply fold_replace_first_every.
  - now apply finditer_every.
  - apply sub_every; [reflexivity|]. apply sub_every; [reflexivity|exact H3].
Qed.

(** ** What the matcher keeps along a match *)

Section Invariant.
Variable I : Re.mstate -> Prop.
Hypothesis I_advance : forall st x rest,
  Re.st_rest st = String x rest -> I st -> I (Re.advance st x rest).
Hypothesis I_close : forall idx st0 st1, I st0 -> I st1 -> I (Re.close_group idx st0 st1).
Hypothesis I_look : forall st st1, I st -> I st1 ->
  I {| Re.st_prev := Re.st_prev st; Re.st_rest := Re.st_rest st; Re.st_pos := Re.st_pos st;
       Re.st_groups := Re.st_groups st1; Re.st_lastindex := Re.st_lastindex st1 |}.

Lemma read_text_invariant (t : string) (st st1 : Re.mstate) :
  Re.read_text t st = Some st1 -> I st -> I st1.
Proof.
  revert st. induction t as [|c t IH]; intros st H Hi; cbn [Re.read_text] in H.
  - now injection H as <-.
  - destruct (Re.st_rest st) as [|x rest] eqn:E; [discriminate|].
    destruct (Chr.eqb c x); [|discriminate].
    apply IH in H; [exact H|]. now apply I_advance.
Qed.

Lemma repeat_loop_invariant
    (step : Re.mstate -> (Re.mstate -> option Re.mstate) -> option Re.mstate)
    (greedy : bool) (lo : nat) (hi : option nat) (k : Re.mstate -> option Re.mstate)
    (fuel count : nat) (st0 res : Re.mstate) :
  (forall st k res, step st k = Some res -> I st -> exists st1, k st1 = Some res /\ I st1) ->
  Re.repeat_loop step greedy lo hi k fuel count st0 = Some res -> I st0 ->
  exists st1, k st1 = Some res /\ I st1.
Proof.
  intros Hstep. revert count st0. induction fuel as [|fuel IH]; intros count st0 H Hi.
  - assert (Hstop : (if Nat.leb lo count then k st0 else None) = Some res).
    { simpl in H. destruct greedy; simpl in H;
        exact H || (destruct (if Nat.leb lo count then k st0 else None); [exact H|discriminate]). }
    destruct (Nat.leb lo count); [|discriminate]. eauto.
  - assert (Hcases :
      k st0 = Some res \/
      step st0 (fun st1 => if Nat.ltb (Re.st_pos st0) (Re.st_pos st1)
                           then Re.repeat_loop step greedy lo hi k fuel (S count) st1
                           else None) = Some res).
    { simpl in H. unfold Re.or_else in H.
      destruct greedy.
      - destruct (match hi with Some h => Nat.ltb count h | None => true end).
        + destruct (step st0 _) eqn:E1.
          * right. now rewrite <- H.
          * left. destruct (Nat.leb lo count); [auto|discriminate].
        + left. destruct (Nat.leb lo count); [auto|discriminate].
      - destruct (Nat.leb lo count) eqn:E0.
        + destruct (k st0) eqn:E1.
          * left. now rewrite <- H.
          * destruct (match hi with Some h => Nat.ltb count h | None => true end);
              [right; exact H|discriminate].
        + destruct (match hi with Some h => Nat.ltb count h | None => true end);
            [right; exact H|discriminate]. }
    destruct Hcases as [Hk|Hs]; [eauto|].
    apply Hstep in Hs; [|exact Hi]. destruct Hs as (st1 & Hk1 & Hi1).
    destruct (Nat.ltb (Re.st_pos st0) (Re.st_pos st1)); [|discriminate].
    now apply IH in Hk1.
Qed.

(** A match leads from a state with the property to a state with it. *)
Lemma exec_invariant (fl : Re.flags) (r : Re.regex) (st : Re.mstate)
    (k : Re.mstate -> option Re.mstate) (res : Re.mstate) :
  Re.exec fl r st k = Some res -> I st -> exists st1, k st1 = Some res /\ I st1.
Proof.
  revert st k res. induction r; intros st k res H Hi; cbn [Re.exec] in H.
  - eauto.
  - discriminate.
  - destruct (Re.st_rest st) as [|x rest] eqn:E; [discriminate|].
    destruct (Re.lit_matches fl c x); [|discriminate]. eauto.
  - destruct (Re.st_rest st) as [|x rest] eqn:E; [discriminate|].
    destruct (Re.DOTALL fl || negb (Chr.eqb x Chr.LF))%bool; [|discriminate]. eauto.
  - destruct (Re.st_rest st) as [|x rest] eqn:E; [discriminate|].
    destruct (Re.set_matches negated items x); [|discriminate]. eauto.
  - apply IHr1 in H; [|exact Hi]. destruct H as (st1 & H & Hi1). now apply IHr2 in H.
  - unfold Re.or_else in H. destruct (Re.exec fl r1 st k) eqn:E.
    + rewrite H in E. now apply IHr1 in E.
    + now apply IHr2 in H.
  - eapply repeat_loop_invariant; [|exact H|exact Hi]. intros st' k' res'. apply IHr.
  - apply IHr in H; [|exact Hi]. destruct H as (st1 & Hk & Hi1). eauto.
  - destruct (Re.lookup_group idx (Re.st_groups st)) as [t|]; [|discriminate].
    destruct (Re.read_text t st) as [st1|] eqn:E; [|discriminate].
    exists st1. split; [exact H|]. eapply read_text_invariant; eauto.
  - destruct (Re.exec fl r st (fun st1 => Some st1)) as [st1|] eqn:E; [|discriminate].
    apply IHr in E; [|exact Hi]. destruct E as (st1' & Hk & Hi1). injection Hk as ->.
    eauto.
  - destruct (Re.at_boundary st); [|discriminate]. eauto.
  - destruct (Re.st_rest st) eqn:E; [|discriminate]. eauto.
Qed.
End Invariant.

Lemma length_take (n : nat) (s : string) : String.length (Str.take n s) <= String.length s.
Proof.
  revert s. induction n as [|n IH]; intros [|x s]; cbn [Str.take String.length]; try lia.
  specialize (IH s). lia.
Qed.

Lemma exec_within (n : nat) (fl : Re.flags) (r : Re.regex) (st : Re.mstate)
    (k : Re.mstate -> option Re.mstate) (res : Re.mstate) :
  Re.exec fl r st k = Some res -> within n st -> exists st1, k st1 = Some res /\ within n st1.
Proof.
  apply exec_invariant.
  - intros st0 x rest E [A B]. split; [|exact B].
    cbn [Re.advance Re.st_rest]. rewrite E in A. simpl in A. lia.
  - intros idx st0 st1 [A0 B0] [A1 B1]. split; [exact A1|].
    cbn [Re.close_group Re.st_groups]. constructor; [|exact B1].
    cbn [snd]. pose proof (length_take (Re.st_pos st1 - Re.st_pos st0) (Re.st_rest st0)). lia.
  - intros st0 st1 [A0 B0] [A1 B1]. split; [exact A0|exact B1].
Qed.

Lemma lookup_group_within (n idx : nat) (gs : list (nat * string)) (t : string) :
  Forall (fun g => String.length (snd g) <= n) gs ->
  Re.lookup_group idx gs = Some t -> String.length t <= n.
Proof.
  induction 1 as [|[i u] gs Hu _ IH]; cbn [Re.lookup_group]; [discriminate|].
  destruct (Nat.eqb i idx); [|exact IH]. intros H. injection H as <-. exact Hu.
Qed.

(** The text of a match, the texts of its groups and the text after it
    are no longer than the text the match starts from. *)
Lemma match_here_within (n : nat) (fl : Re.flags) (r : Re.regex) (prev : option ascii)
    (rest : string) (pos : nat) (must_advance : bool) (m : Re.Match) :
  Re.match_here fl r prev rest pos must_advance = Some m ->
  String.length rest <= n ->
  String.length (Re.m_text m) <= n /\
  Forall (fun g => String.length (snd g) <= n) (Re.m_groups m) /\
  String.length (Re.m_tail m) <= n.
Proof.
  intros H Hn. unfold Re.match_here in H.
  destruct (Re.exec _ _ _ _) as [res|] eqn:E; [|discriminate].
  apply (exec_within n) in E; [|split; [exact Hn|constructor]].
  destruct E as (st1 & Hk & [A B]).
  destruct (must_advance && Nat.eqb (Re.st_pos st1) pos)%bool; [discriminate|].
  injection Hk as ->. injection H as <-. cbn [Re.m_text Re.m_groups Re.m_tail].
  split; [|split; assumption]. pose proof (length_take (Re.st_pos res - pos) rest). lia.
Qed.

Lemma scan_within (n : nat) (fl : Re.flags) (r : Re.regex) (fuel : nat)
    (prev : option ascii) (rest : string) (pos : nat) (must_advance : bool)
    (skipped : string) :
  String.length rest <= n ->
  Forall (fun sm => String.length (Re.m_text (snd sm)) <= n /\
                    Forall (fun g => String.length (snd g) <= n) (Re.m_groups (snd sm)))
         (fst (Re.scan fl r fuel prev rest pos must_advance skipped)).
Proof.
  revert prev rest pos must_advance skipped.
  induction fuel as [|fuel IH]; intros prev rest pos must_advance skipped Hn; cbn [Re.scan].
  - constructor.
  - destruct (Re.match_here fl r prev rest pos must_advance) as [m|] eqn:E.
    + destruct (match_here_within n _ _ _ _ _ _ _ E Hn) as (A & B & C).
      specialize (IH (Re.m_prev_end m) (Re.m_tail m) (Re.m_end m)
                     (Nat.eqb (Re.m_end m) pos) EmptyString C).
      destruct (Re.scan fl r fuel _ _ _ _ _) as [ms tail]. cbn [fst snd] in *.
      constructor; [split; assumption|exact IH].
    + destruct rest as [|x rest']; [constructor|].
      apply IH. simpl in Hn. lia.
Qed.

(** No text that [re.findall] returns is longer than the subject. *)
Lemma findall_within (pattern s : string) (fl : Re.flags) :
  Forall (fun t => String.length t <= String.length s) (Re.findall pattern s fl).
Proof.
  unfold Re.findall, Re.finditer, Re.scan_all. rewrite List.map_map. apply List.Forall_map.
  eapply List.Forall_impl;
    [|apply (scan_within (String.length s)); apply Nat.le_refl].
  intros [sk m] [A B]. cbn [snd] in *.
  destruct (Re.m_groups m) as [|g gs] eqn:E; [exact A|].
  unfold Re.group. rewrite E.
  destruct (Re.lookup_group 1 (g :: gs)) as [t|] eqn:L; [|simpl; lia].
  eapply lookup_group_within; eauto.
Qed.

Lemma abstractions_of_short (prefix : string) (limit : nat) (found : list string) :
  Forall (fun t => String.length t <= limit) found ->
  abstractions_of prefix limit found = [].
Proof.
  intros H. unfold abstractions_of, enumerate. generalize (seq 0 (length found)) as ids.
  induction H as [|t found Ht _ IH]; intros [|i ids]; try reflexivity.
  cbn [combine flat_map]. apply Nat.ltb_ge in Ht. rewrite Ht. apply IH.
Qed.

(** X15. A content of at most 200 characters holds nothing that
    [pattern_abstraction] abstracts: it comes back as it is, without a
    dictionary, with the factor 0.98. *)
Theorem pattern_abstraction_short (content : string) :
  String.length content <= 200 ->
  pattern_abstraction content = (content, 0.98%Q).
Proof.
  intros H. unfold pattern_abstraction.
  rewrite (abstractions_of_short "FUNC_" 200), (abstractions_of_short "JSON_" 300).
  - reflexivity.
  - eapply List.Forall_impl; [|apply findall_within]. cbv beta. intros t Ht. lia.
  - eapply List.Forall_impl; [|apply findall_within]. cbv beta. intros t Ht. lia.
Qed.

Lemma pattern_abstraction_short_witness :
  pattern_abstraction ("def f(x):" +:+ Str.nl +:+ "    return {}")
  = ("def f(x):" +:+ Str.nl +:+ "    return {}", 0.98%Q).
Proof.
  apply pattern_abstraction_short. vm_compute. lia.
Defined.

(** ** analyze_content *)

Lemma get_setitem_same (key : string) (value : Z) (d : list (string * Z)) :
  Analysis.get key (Analysis.setitem key value d) = value.
Proof.
  induction d as [|[k n] d IH]; cbn [Analysis.setitem Analysis.get].
  - now rewrite String.eqb_refl.
  - destruct (String.eqb k key) eqn:E; cbn [Analysis.get]; rewrite E; [reflexivity|exact IH].
Qed.

Lemma get_setitem_other (key key' : string) (value : Z) (d : list (string * Z)) :
  key' <> key -> Analysis.get key' (Analysis.setitem key value d) = Analysis.get key' d.
Proof.
  intros Hne. induction d as [|[k n] d IH]; cbn [Analysis.setitem Analysis.get].
  - destruct (String.eqb key key') eqn:E; [|reflexivity].
    apply String.eqb_eq in E. congruence.
  - destruct (String.eqb k key) eqn:E; cbn [Analysis.get].
    + apply String.eqb_eq in E. subst k.
      destruct (String.eqb key key') eqn:E'; [|reflexivity].
      apply String.eqb_eq in E'. congruence.
    + now rewrite IH.
Qed.

Lemma setitem_keys (key : string) (value : Z) (d : list (string * Z)) (k : string) :
  In k (map fst (Analysis.setitem key value d)) <-> k = key \/ In k (map fst d).
Proof.
  induction d as [|[k0 n] d IH]; cbn [Analysis.setitem map fst In].
  - intuition.
  - destruct (String.eqb k0 key) eqn:E; cbn [map fst In].
    + apply String.eqb_eq in E. subst k0. intuition.
    + rewrite IH. intuition.
Qed.

Lemma setitem_nodup (key : string) (value : Z) (d : list (string * Z)) :
  List.NoDup (map fst d) -> List.NoDup (map fst (Analysis.setitem key value d)).
Proof.
  induction d as [|[k0 n] d IH]; cbn [Analysis.setitem map fst]; intros H.
  - constructor; [intros []|constructor].
  - apply List.NoDup_cons_iff in H. destruct H as [Hn H].
    destruct (String.eqb k0 key) eqn:E; cbn [map fst].
    + constructor; assumption.
    + constructor; [|now apply IH]. rewrite setitem_keys. intros [->|Hin].
      * now rewrite String.eqb_refl in E.
      * contradiction.
Qed.

Lemma get_absent (key : string) (d : list (string * Z)) :
  ~ In key (map fst d) -> Analysis.get key d = 0%Z.
Proof.
  induction d as [|[k n] d IH]; cbn [Analysis.get map fst In]; intros H; [reflexivity|].
  destruct (String.eqb k key) eqn:E.
  - apply String.eqb_eq in E. tauto.
  - apply IH. tauto.
Qed.

Lemma in_get (key : string) (n : Z) (d : list (string * Z)) :
  List.NoDup (map fst d) -> In (key, n) d -> Analysis.get key d = n.
Proof.
  induction d as [|[k0 n0] d IH]; cbn [Analysis.get map fst In]; intros Hd H; [contradiction|].
  apply List.NoDup_cons_iff in Hd. destruct Hd as [Hn Hd].
  destruct H as [H|H].
  - injection H as -> ->. now rewrite String.eqb_refl.
  - destruct (String.eqb k0 key) eqn:E; [|now apply IH].
    apply String.eqb_eq in E. subst k0. exfalso. apply Hn.
    apply List.in_map_iff. now exists (key, n).
Qed.

Lemma get_in (key : string) (d : list (string * Z)) :
  Analysis.get key d <> 0%Z -> In (key, Analysis.get key d) d.
Proof.
  induction d as [|[k n] d IH]; cbn [Analysis.get In]; intros H; [congruence|].
  destruct (String.eqb k key) eqn:E.
  - apply String.eqb_eq in E. subst k. now left.
  - right. now apply IH.
Qed.

(** What the first loop counts: the occurrences of the substantial
    stripped lines, each key once. *)
Lemma count_substantial_acc (lines : list string) (acc : list (string * Z)) (key : string) :
  let d := fold_left (fun line_counts line =>
                        let line_clean := Str.strip line in
                        if Nat.ltb 20 (String.length line_clean)
                        then Analysis.setitem line_clean
                               (Analysis.get line_clean line_counts + 1)%Z line_counts
                        else line_counts) lines acc in
  (List.NoDup (map fst acc) -> List.NoDup (map fst d)) /\
  Analysis.get key d
  = (Analysis.get key acc
     + if Nat.ltb 20 (String.length key) then Z.of_nat (ScenarioB.freq key lines) else 0)%Z.
Proof.
  cbv zeta. revert acc. induction lines as [|l lines IH]; intros acc.
  - cbn [fold_left ScenarioB.freq]. split; [auto|]. destruct (Nat.ltb _ _); simpl; lia.
  - cbn [fold_left ScenarioB.freq].
    destruct (Nat.ltb 20 (String.length (Str.strip l))) eqn:El.
    + destruct (IH (Analysis.setitem (Str.strip l) (Analysis.get (Str.strip l) acc + 1)%Z acc))
        as [A B].
      split; [intros H; apply A; now apply setitem_nodup|].
      rewrite B. destruct (String.eqb (Str.strip l) key) eqn:E.
      * apply String.eqb_eq in E. subst key. rewrite get_setitem_same, El. lia.
      * apply String.eqb_neq in E. rewrite get_setitem_other by congruence.
        destruct (Nat.ltb 20 (String.length key)); lia.
    + destruct (IH acc) as [A B]. split; [exact A|]. rewrite B.
      destruct (String.eqb (Str.strip l) key) eqn:E.
      * apply String.eqb_eq in E. subst key. rewrite El. lia.
      * destruct (Nat.ltb 20 (String.length key)); lia.
Qed.

Lemma count_substantial_get (lines : list string) (key : string) :
  Analysis.get key (Analysis.count_substantial lines)
  = if Nat.ltb 20 (String.length key) then Z.of_nat (ScenarioB.freq key lines) else 0%Z.
Proof.
  destruct (count_substantial_acc lines [] key) as [_ B]. exact B.
Qed.

Lemma count_substantial_nodup (lines : list string) :
  List.NoDup (map fst (Analysis.count_substantial lines)).
Proof.
  destruct (count_substantial_acc lines [] EmptyString) as [A _]. apply A. constructor.
Qed.

(** X16. [analyze_content] reports a stripped line as a repetitive line
    exactly when the line is longer than 20 characters and occurs more
    than twice among the stripped lines of the content; the count is then
    the number of its occurrences and the savings are the length of the
    line times the occurrences after the first. *)
Theorem analyze_content_repetitive_lines (content line : string) (count savings : Z) :
  let lines := Str.split_chr Chr.LF content in
  In (Analysis.repetitive_line line count savings)
     (Analysis.compressible_sections (analyze_content content))
  <-> 20 < String.length line /\ 2 < ScenarioB.freq line lines /\
      count = Z.of_nat (ScenarioB.freq line lines) /\
      savings = (len line * (count - 1))%Z.
Proof.
  cbv zeta. unfold analyze_content. cbn [Analysis.compressible_sections].
  rewrite List.in_app_iff, !List.in_flat_map.
  pose proof (count_substantial_nodup (Str.split_chr Chr.LF content)) as Hd.
  pose proof (count_substantial_get (Str.split_chr Chr.LF content) line) as Hg.
  split.
  - intros [([l c] & Hin & Hs)|(block & _ & Hs)].
    + destruct (2 <? c)%Z eqn:Ec; [|destruct Hs].
      destruct Hs as [Hs|[]]. injection Hs as -> -> <-.
      apply Z.ltb_lt in Ec. rewrite (in_get _ _ _ Hd Hin) in Hg.
      destruct (Nat.ltb 20 (String.length line)) eqn:El; [|lia].
      apply Nat.ltb_lt in El. repeat split; lia.
    + destruct (1000 <? len block)%Z; [|destruct Hs]. destruct Hs as [Hs|[]]. discriminate Hs.
  - intros (Hl & Hf & -> & ->). left.
    apply Nat.ltb_lt in Hl. rewrite Hl in Hg.
    exists (line, Z.of_nat (ScenarioB.freq line (Str.split_chr Chr.LF content))). split.
    + rewrite <- Hg. apply get_in. lia.
    + assert (E : (2 <? Z.of_nat (ScenarioB.freq line (Str.split_chr Chr.LF content)))%Z = true)
        by (apply Z.ltb_lt; lia).
      rewrite E. now left.
Qed.

Lemma length_take_exact (n : nat) (s : string) :
  n <= String.length s -> String.length (Str.take n s) = n.
Proof.
  revert s. induction n as [|n IH]; intros [|x s] H; cbn [Str.take String.length] in *; try lia.
  rewrite IH; lia.
Qed.

(** X17. A code block is reported as a large code block only when it is
    longer than 1000 characters; its size is then at most the length of
    the content, the excerpt kept has exactly 103 characters, and the
    savings it promises are more than 200 and less than its size (bounds
    that the product of the size by 0.2 keeps when it is rounded). *)
Theorem analyze_content_large_blocks (content excerpt : string) (size : Z) (savings : Q) :
  In (Analysis.large_code_block excerpt size savings)
     (Analysis.compressible_sections (analyze_content content)) ->
  (1000 < size <= len content)%Z /\ String.length excerpt = 103 /\
  (200 < savings)%Q /\ (savings < inject_Z size)%Q.
Proof.
  unfold analyze_content. cbn [Analysis.compressible_sections].
  rewrite List.in_app_iff, !List.in_flat_map.
  intros [([l c] & _ & Hs)|(block & Hin & Hs)].
  - destruct (2 <? c)%Z; [|destruct Hs]. destruct Hs as [Hs|[]]. discriminate Hs.
  - destruct (1000 <? len block)%Z eqn:E; [|destruct Hs]. destruct Hs as [Hs|[]].
    assert (Hx : excerpt = Str.take 100 block +:+ "..." /\ size = len block /\
                 savings = (inject_Z (len block) * 0.2)%Q) by (repeat split; congruence).
    clear Hs. destruct Hx as (-> & -> & ->). apply Z.ltb_lt in E.
    pose proof (findall_within "```[^`]*```" content Re.dotall) as Hw.
    rewrite List.Forall_forall in Hw. specialize (Hw block Hin). cbv beta in Hw.
    assert (Hq : (1000 < inject_Z (len block))%Q)
      by (change 1000%Q with (inject_Z 1000); now rewrite <- Zlt_Qlt).
    unfold len in *. split; [split; [exact E|apply Nat2Z.inj_le; exact Hw]|]. split.
    + rewrite length_app, length_take_exact by lia. reflexivity.
    + split; lra.
Qed.

Lemma analyze_content_large_blocks_witness :
  (1000 < 1006 <= len ("```" +:+ Str.spaces 1000 +:+ "```"))%Z /\
  String.length ("```" +:+ Str.spaces 97 +:+ "...") = 103 /\
  (200 < inject_Z 1006 * 0.2)%Q /\ (inject_Z 1006 * 0.2 < inject_Z 1006)%Q.
Proof.
  apply (analyze_content_large_blocks ("```" +:+ Str.spaces 1000 +:+ "```")).
  vm_compute. left. reflexivity.
Defined.

(** ** The scores of the analysis *)

(** A pattern that reads at least one character matches at most once per
    character of the text. *)
Lemma scan_count (fl : Re.flags) (r : Re.regex) (fuel : nat) (prev : option ascii)
    (rest : string) (pos : nat) (must_advance : bool) (skipped : string) :
  1 <= ReSpec.min_len r ->
  length (fst (Re.scan fl r fuel prev rest pos must_advance skipped)) <= String.length rest.
Proof.
  intros Hr. revert prev rest pos must_advance skipped.
  induction fuel as [|fuel IH]; intros prev rest pos must_advance skipped; cbn [Re.scan].
  - simpl. lia.
  - destruct (Re.match_here fl r prev rest pos must_advance) as [m|] eqn:E.
    + apply SubFacts.match_here_ahead in E. destruct E as (n & Ht & Hn & Hm).
      specialize (IH (Re.m_prev_end m) (Re.m_tail m) (Re.m_end m)
                     (Nat.eqb (Re.m_end m) pos) EmptyString).
      destruct (Re.scan fl r fuel _ _ _ _ _) as [ms tail]. cbn [fst length] in *.
      rewrite Ht, length_drop in IH. lia.
    + destruct rest as [|x rest']; [simpl; lia|].
      specialize (IH (Some x) rest' (S pos) false (String x skipped)).
      cbn [String.length]. lia.
Qed.

Lemma findall_count (pattern s : string) (fl : Re.flags) :
  1 <= ReSpec.min_len (Re.compile pattern) ->
  length (Re.findall pattern s fl) <= String.length s.
Proof.
  intros H. unfold Re.findall, Re.finditer, Re.scan_all. rewrite !List.length_map.
  now apply scan_count.
Qed.

Lemma length_lower (s : string) : String.length (Str.lower s) = String.length s.
Proof. induction s as [|x s IH]; [reflexivity|]. cbn [Str.lower String.length]. now rewrite IH. Qed.

Lemma size_list_to_set_le (l : list string) :
  size (list_to_set l : gset string) <= length l.
Proof.
  induction l as [|x l IH]; cbn [list_to_set length].
  - now rewrite size_empty.
  - rewrite size_union_alt, size_singleton.
    pose proof (subseteq_size (list_to_set l ∖ {[x]}) (list_to_set l : gset string)
                  (subseteq_difference_l _ _ _ (reflexivity _))) as H.
    lia.
Qed.

(** A text has at most as many distinct words as characters. *)
Lemma words_of_size (text : string) : size (words_of text) <= String.length text.
Proof.
  unfold words_of. etransitivity; [apply size_list_to_set_le|].
  rewrite <- (length_lower text). apply findall_count. vm_compute. lia.
Qed.

Lemma sum_Z_nonneg (l : list Z) : List.Forall (fun x => (0 <= x)%Z) l -> (0 <= Analysis.sum_Z l)%Z.
Proof.
  intros H. unfold Analysis.sum_Z.
  assert (G : forall acc, (0 <= acc)%Z -> (0 <= fold_left Z.add l acc)%Z); [|apply G; lia].
  induction H as [|x l Hx _ IH]; intros acc Hacc; cbn [fold_left]; [exact Hacc|].
  apply IH. lia.
Qed.

Lemma sum_Q_nonneg (l : list Q) : List.Forall (fun x => (0 <= x)%Q) l -> (0 <= Analysis.sum_Q l)%Q.
Proof.
  intros H. unfold Analysis.sum_Q.
  assert (G : forall acc, (0 <= acc)%Q -> (0 <= fold_left Qplus l acc)%Q); [|apply G; lra].
  induction H as [|x l Hx _ IH]; intros acc Hacc; cbn [fold_left]; [exact Hacc|].
  apply IH. lra.
Qed.

Lemma quotient_nonneg_Q (a : Q) (b : Z) : (0 <= a)%Q -> (0 <= b)%Z -> (0 <= a / inject_Z b)%Q.
Proof.
  intros Ha Hb. unfold Qdiv. apply Qmult_le_0_compat; [exact Ha|].
  apply Qinv_le_0_compat. change 0%Q with (inject_Z 0). now rewrite <- Zle_Qle.
Qed.

(** No section of the analysis promises negative savings. *)
Lemma savings_nonneg (content : string) :
  List.Forall (fun s => (0 <= Analysis.savings_potential s)%Q)
              (Analysis.compressible_sections (analyze_content content)).
Proof.
  unfold analyze_content. cbn [Analysis.compressible_sections].
  apply List.Forall_app. split; apply List.Forall_flat_map, List.Forall_forall.
  - intros [line count] _. destruct (2 <? count)%Z eqn:E; [|constructor].
    apply Z.ltb_lt in E. constructor; [|constructor]. cbn [Analysis.savings_potential].
    change 0%Q with (inject_Z 0). rewrite <- Zle_Qle. pose proof (len_nonneg line). nia.
  - intros block _. destruct (1000 <? len block)%Z; [|constructor].
    constructor; [|constructor]. cbn [Analysis.savings_potential].
    pose proof (len_nonneg block) as H. rewrite Zle_Qle in H. change (inject_Z 0) with 0%Q in H.
    nra.
Qed.

(** X18. Whatever the content, the semantic density that [analyze_content]
    reports lies between 0 and 1 and the optimization potential between 0
    and 0.5. *)
Theorem analyze_content_bounds (content : string) :
  (0 <= Analysis.semantic_density (analyze_content content))%Q /\
  (Analysis.semantic_density (analyze_content content) <= 1)%Q /\
  (0 <= Analysis.optimization_potential (analyze_content content))%Q /\
  (Analysis.optimization_potential (analyze_content content) <= 0.5)%Q.
Proof.
  pose proof (savings_nonneg content) as Hs. revert Hs.
  unfold analyze_content.
  cbn [Analysis.semantic_density Analysis.optimization_potential Analysis.compressible_sections].
  intros Hs. pose proof (len_nonneg content) as Hlen.
  pose proof (words_of_size content) as Hw.
  destruct (String.eqb content EmptyString) eqn:E; cbn [negb].
  - repeat split; try lra.
    + apply Q.min_glb; lra.
    + apply Q.le_min_l.
  - apply String.eqb_neq in E.
    assert (Hpos : (0 < len content)%Z).
    { destruct (Z.eq_dec (len content) 0%Z) as [H0|H0]; [|lia]. now apply len_empty in H0. }
    assert (Hq : (0 < inject_Z (len content))%Q)
      by (change 0%Q with (inject_Z 0); now rewrite <- Zlt_Qlt).
    split; [|split; [|split]].
    + apply quotient_nonneg; lia.
    + apply Qle_shift_div_r; [exact Hq|]. rewrite Qmult_1_l, <- Zle_Qle. unfold len. lia.
    + apply Q.min_glb; [lra|].
      assert (A : forall a b : Q, (0 <= a)%Q -> (0 <= b)%Q -> (0 <= a + b)%Q) by (intros; lra).
      apply A.
      * apply quotient_nonneg; [|lia]. apply sum_Z_nonneg, List.Forall_map, List.Forall_forall.
        intros t _. apply len_nonneg.
      * apply quotient_nonneg_Q; [|lia]. apply sum_Q_nonneg, List.Forall_map. exact Hs.
    + apply Q.le_min_l.
Qed.

(** X19. On the empty content the guards of [analyze_content] avoid every
    division: it finds nothing and every number it reports is 0. *)
Theorem analyze_content_empty :
  analyze_content EmptyString
  = {| Analysis.total_tokens := 0;
       Analysis.redundant_patterns := [];
       Analysis.compressible_sections := [];
       Analysis.semantic_density := 0;
       Analysis.optimization_potential := 0 |}.
Proof. vm_compute. reflexivity. Qed.

(** ** The token estimate of a result *)

(** X20. [tokens_saved] is the difference of two rounded token counts: it
    is within one token of a quarter of the characters saved, four times
    its value differing from the characters saved by 3 at most. *)
Theorem tokens_saved_estimate (md5_hexdigest : string -> string)
    (content : string) (target_reduction : Q) (max_time : Z) (aggressive_mode : bool)
    (elapsed : nat -> Z) (total_seconds : Q) :
  let result := compute_result md5_hexdigest content target_reduction max_time
                  aggressive_mode elapsed total_seconds in
  let saved := (original_size result - compressed_size result)%Z in
  (saved - 3 <= 4 * tokens_saved result <= saved + 3)%Z.
Proof.
  cbv zeta. unfold compute_result.
  cbn [original_size compressed_size tokens_saved]. unfold chars_per_token.
  set (a := len content).
  set (b := len (compressed_content _)).
  pose proof (Z.div_mod a 4 ltac:(lia)) as Ha. pose proof (Z.mod_pos_bound a 4 ltac:(lia)) as Ha'.
  pose proof (Z.div_mod b 4 ltac:(lia)) as Hb. pose proof (Z.mod_pos_bound b 4 ltac:(lia)) as Hb'.
  lia.
Qed.
